(** * The catalog reconciliation engine of [imdb-playlist-to-plex-07.py]

    A shallow embedding of the matching cascade, the membership index and
    the two-pass reconciler of [run_imdb_list], together with the
    properties the design document states about them.

    Conventions of the embedding:
    - Python [str] values are [string]s of ASCII characters;
    - a row of the CSV file holds a string in every column: a row that is
      shorter than the header, whose missing cells [csv.DictReader] fills
      with [None], is not modelled;
    - Python dictionaries are stdpp [gmap]s;
    - [fuzz.ratio] (package fuzzywuzzy) is a parameter [ratio] of the
      development: every theorem holds for any scoring function;
    - a Python exception is the [Raise] case of the [result] type;
    - the remote service behind [add_collection] is an abstract state with
      a transition function, so a run is a pure function of the service;
    - [log_message] and [generate_report] only write to the console and to
      files and are left out. *)

From Stdlib Require Import ZArith Ascii String List Bool Lia DecimalString.
From stdpp Require Import base option gmap strings list fin_maps.

Local Open Scope string_scope.
Local Open Scope list_scope.
Local Open Scope Z_scope.

(** ** Python string primitives *)

Module PyStr.

(** [c.isupper()] on an ASCII character. *)
Definition is_upper (c : ascii) : bool :=
  let n := nat_of_ascii c in (Nat.leb 65 n && Nat.leb n 90)%bool.

(** [c.lower()] on an ASCII character. *)
Definition lower_char (c : ascii) : ascii :=
  if is_upper c then ascii_of_nat (nat_of_ascii c + 32) else c.

(** [s.lower()] *)
Fixpoint lower (s : string) : string :=
  match s with
  | EmptyString => EmptyString
  | String c s' => String (lower_char c) (lower s')
  end.

(** [c.isspace()] on an ASCII character: tab, line feed, vertical tab, form
    feed, carriage return, the four separators 0x1c..0x1f and space. *)
Definition is_space (c : ascii) : bool :=
  let n := nat_of_ascii c in
  ((Nat.leb 9 n && Nat.leb n 13) || (Nat.leb 28 n && Nat.leb n 32))%bool.

(** [c.isdigit()] on an ASCII character. *)
Definition is_digit (c : ascii) : bool :=
  let n := nat_of_ascii c in (Nat.leb 48 n && Nat.leb n 57)%bool.

(** [s.lstrip()] *)
Fixpoint lstrip (s : string) : string :=
  match s with
  | EmptyString => EmptyString
  | String c s' => if is_space c then lstrip s' else s
  end.

(** [s.rstrip()] *)
Fixpoint rstrip (s : string) : string :=
  match s with
  | EmptyString => EmptyString
  | String c s' =>
      match rstrip s' with
      | EmptyString => if is_space c then EmptyString else String c EmptyString
      | r => String c r
      end
  end.

(** [s.strip()] *)
Definition strip (s : string) : string := rstrip (lstrip s).

(** [s.startswith(p)], returning what follows the prefix. *)
Fixpoint strip_prefix (p s : string) : option string :=
  match p with
  | EmptyString => Some s
  | String a p' =>
      match s with
      | EmptyString => None
      | String b s' => if Ascii.eqb a b then strip_prefix p' s' else None
      end
  end.

(** [sep in s] *)
Fixpoint contains (sep s : string) : bool :=
  match strip_prefix sep s with
  | Some _ => true
  | None => match s with
            | EmptyString => false
            | String _ s' => contains sep s'
            end
  end.

(** [s.split(sep)[0]]: the text before the first occurrence of [sep]
    (all of [s] when [sep] does not occur). *)
Fixpoint before (sep s : string) : string :=
  match strip_prefix sep s with
  | Some _ => EmptyString
  | None => match s with
            | EmptyString => EmptyString
            | String c s' => String c (before sep s')
            end
  end.

(** The text after the first occurrence of [sep], if there is one. *)
Fixpoint after (sep s : string) : option string :=
  match strip_prefix sep s with
  | Some rest => Some rest
  | None => match s with
            | EmptyString => None
            | String _ s' => after sep s'
            end
  end.

(** [s.replace("the ", "")]: every occurrence of the four characters,
    scanning left to right without overlap, is deleted. *)
Fixpoint replace_the (s : string) : string :=
  match s with
  | String "t" (String "h" (String "e" (String " " rest))) => replace_the rest
  | String c s' => String c (replace_the s')
  | EmptyString => EmptyString
  end.

(** [sep.join(pieces)] *)
Fixpoint join (sep : string) (pieces : list string) : string :=
  match pieces with
  | [] => EmptyString
  | [p] => p
  | p :: rest => p +:+ sep +:+ join sep rest
  end.

(** [str(n)] for an integer [n].  (The interpreter refuses to print an
    integer of more than 4300 digits; the years of the library are taken
    to be shorter.) *)
Definition str (n : Z) : string := NilZero.string_of_int (Z.to_int n).

Definition digit_value (c : ascii) : Z := Z.of_nat (nat_of_ascii c) - 48.

(** The digits of an integer literal: decimal digits in groups separated
    by single underscores, beginning and ending with a digit. *)
Fixpoint digits_acc (acc : Z) (after_digit : bool) (s : string) : option Z :=
  match s with
  | EmptyString => if after_digit then Some acc else None
  | String c s' =>
      if is_digit c then digits_acc (10 * acc + digit_value c) true s'
      else if Ascii.eqb c "_" then
             (if after_digit then digits_acc acc false s' else None)
      else None
  end.

(** The whitespace that [int] skips at both ends of an ASCII string: tab,
    line feed, vertical tab, form feed, carriage return and space.  The
    separators 0x1c..0x1f, which [strip] removes, are not among them. *)
Definition is_int_space (c : ascii) : bool :=
  let n := nat_of_ascii c in
  ((Nat.leb 9 n && Nat.leb n 13) || Nat.eqb n 32)%bool.

Fixpoint int_lstrip (s : string) : string :=
  match s with
  | EmptyString => EmptyString
  | String c s' => if is_int_space c then int_lstrip s' else s
  end.

Fixpoint int_rstrip (s : string) : string :=
  match s with
  | EmptyString => EmptyString
  | String c s' =>
      match int_rstrip s' with
      | EmptyString => if is_int_space c then EmptyString else String c EmptyString
      | r => String c r
      end
  end.

(** The number of decimal digits in [s]. *)
Fixpoint count_digits (s : string) : nat :=
  match s with
  | EmptyString => 0%nat
  | String c s' => if is_digit c then S (count_digits s') else count_digits s'
  end.

(** [sys.int_info.default_max_str_digits]: the interpreter refuses to read
    a literal of more digits. *)
Definition max_str_digits : nat := 4300.

(** The value of an unsigned literal. *)
Definition int_literal (r : string) : option Z :=
  if Nat.ltb max_str_digits (count_digits r) then None else digits_acc 0 false r.

(** [int(s)] for a string [s]: the whitespace at both ends is skipped, an
    optional sign is read, then the digits; [None] stands for the
    [ValueError] the interpreter raises on anything else.  (Non-ASCII
    digits are outside the model.) *)
Definition int (s : string) : option Z :=
  match int_rstrip (int_lstrip s) with
  | String "-" r => Z.opp <$> int_literal r
  | String "+" r => int_literal r
  | r => int_literal r
  end.

End PyStr.

Import PyStr.

(** ** Exceptions *)

Inductive exn : Set := ValueError.

Inductive result (A : Type) : Type :=
| Ok (a : A)
| Raise (e : exn).
Arguments Ok {A} a.
Arguments Raise {A} e.

Definition bind {A B} (r : result A) (k : A -> result B) : result B :=
  match r with
  | Ok a => k a
  | Raise e => Raise e
  end.

Notation "x <-- r ;; k" := (bind r (fun x => k))
  (at level 100, r at next level, right associativity).

(** A [for] loop whose body may raise: the first exception leaves the loop. *)
Fixpoint for_each {S A} (body : S -> A -> result S) (l : list A) (st : S)
  : result S :=
  match l with
  | [] => Ok st
  | x :: l' => st' <-- body st x ;; for_each body l' st'
  end.

(** ** Data model *)

(** A movie of the Plex library, with the attributes the script reads;
    the year is an integer. *)
Module Plex.
Record Movie : Set := {
  ratingKey : Z;
  title : string;
  year : Z;
  guid : string;
  librarySectionID : Z
}.
End Plex.
Abbreviation Movie := Plex.Movie.

(** A row of the CSV file, as [csv.DictReader] yields it, is a dictionary
    from field names to strings; [row_get row key default] is
    [row.get(key, default)]. *)
Definition row_get (row : gmap string string) (key default : string) : string :=
  match row !! key with
  | Some v => v
  | None => default
  end.

(** The dictionary [report_item]; [ri_plex_year] is [None] while the entry
    holds the empty string. *)
Record ReportItem : Set := {
  ri_title : string;
  ri_year : string;
  ri_original_title : string;
  ri_imdb_id : string;
  ri_status : string;
  ri_match_method : string;
  ri_plex_title : string;
  ri_plex_year : option Z;
  ri_notes : string
}.

(** An element of [ordered_movies]. *)
Record Pending : Set := {
  movie : Movie;
  report_item : ReportItem;
  match_method : string;
  original_position : nat
}.

Definition TITLE_YEAR_MATCH_RATIO : Z := 85.
Definition TITLE_ONLY_MATCH_RATIO : Z := 90.

(** ** Identifier extraction *)

(** The longest run of digits at the start of [s]. *)
Fixpoint take_digits (s : string) : string :=
  match s with
  | EmptyString => EmptyString
  | String c s' => if is_digit c then String c (take_digits s') else EmptyString
  end.

(** [re.search(r'(tt\d+)', imdb_url)]: the leftmost [tt] that is followed
    by a digit, with all the digits that follow. *)
Fixpoint find_imdb_id (imdb_url : string) : option string :=
  match imdb_url with
  | EmptyString => None
  | String _ s' =>
      match strip_prefix "tt" imdb_url with
      | Some rest =>
          match take_digits rest with
          | EmptyString => find_imdb_id s'
          | ds => Some ("tt" +:+ ds)
          end
      | None => find_imdb_id s'
      end
  end.

(** [guid.split('imdb://')[1].split('?')[0]], evaluated by the script only
    when ['imdb://' in guid]: the text that follows the first ['imdb://'],
    up to the next one and up to the first question mark. *)
Definition guid_imdb_id (guid : string) : string :=
  match after "imdb://" guid with
  | Some rest => before "?" (before "imdb://" rest)
  | None => ""
  end.

(** ** Normalizer *)

Definition clean_title (title : option string) : string :=
  match title with
  | None | Some EmptyString => ""
  | Some title => strip (replace_the (lower title))
  end.

(** The normalizer as the design document words it: lower case, a leading
    article removed, trailing whitespace trimmed. *)
Definition normalize_spec (title : string) : string :=
  let l := lower title in
  rstrip (match strip_prefix "the " l with Some r => r | None => l end).

(** ** A scoring function for the examples *)

(** Length of a longest common subsequence. *)
Fixpoint lcs (a : string) : string -> nat :=
  match a with
  | EmptyString => fun _ => 0%nat
  | String x a' =>
      fix lcs_row (b : string) : nat :=
        match b with
        | EmptyString => 0%nat
        | String y b' =>
            if Ascii.eqb x y then S (lcs a' b')
            else Nat.max (lcs a' b) (lcs_row b')
        end
  end.

(** Nearest integer to [p / q], halves going to the even neighbour, as
    Python's [round] does. *)
Definition round_div (p q : Z) : Z :=
  let d := p / q in
  let r := p mod q in
  if 2 * r <? q then d
  else if q <? 2 * r then d + 1
  else if Z.even d then d else d + 1.

(** The score the examples are evaluated with: 0 when a string is empty,
    else twice the length of a longest common subsequence over the total
    length, as a percentage.  Equal strings score 100 and strings without a
    common character score 0.  The theorems do not depend on it. *)
Definition indel_ratio (a b : string) : Z :=
  match a, b with
  | EmptyString, _ | _, EmptyString => 0
  | _, _ =>
      round_div (200 * Z.of_nat (lcs a b))
                (Z.of_nat (String.length a + String.length b))
  end.

(** ** The matchers *)

Section Matchers.

(** [fuzz.ratio], the similarity score of two strings. *)
Variable ratio : string -> string -> Z.

(** [current_score] in both fuzzy loops. *)
Definition current_score (m : Movie) (title original_title : string) : Z :=
  let title_score :=
    ratio (clean_title (Some (Plex.title m))) (clean_title (Some title)) in
  let original_score :=
    match original_title with
    | EmptyString => 0
    | _ => ratio (clean_title (Some (Plex.title m)))
                 (clean_title (Some original_title))
    end in
  Z.max title_score original_score.

(** The first loop of [find_movie_by_title_year]: the first movie whose
    title equals the title or the original title, case folded, and whose
    year prints as [year]. *)
Fixpoint exact_title_year (movies : list Movie) (title year original_title : string)
  : option Movie :=
  match movies with
  | [] => None
  | m :: movies' =>
      if ((String.eqb (lower (Plex.title m)) (lower title)
           || (negb (String.eqb original_title "")
               && String.eqb (lower (Plex.title m)) (lower original_title)))
          && String.eqb (str (Plex.year m)) year)%bool
      then Some m
      else exact_title_year movies' title year original_title
  end.

(** One iteration of the second loop of [find_movie_by_title_year], on the
    pair [(best_match, highest_score)]. *)
Definition title_year_step (title year original_title : string)
    (st : option Movie * Z) (m : Movie) : option Movie * Z :=
  let score := current_score m title original_title in
  if (String.eqb (str (Plex.year m)) year && (snd st <? score))%bool
  then (Some m, score)
  else st.

(** The fuzzy branch of [find_movie_by_title_year]. *)
Definition fuzzy_title_year (movies : list Movie) (title year original_title : string)
  : option Movie :=
  let '(best_match, highest_score) :=
    fold_left (title_year_step title year original_title) movies (None, 0) in
  match best_match with
  | Some m => if TITLE_YEAR_MATCH_RATIO <=? highest_score then Some m else None
  | None => None
  end.

Definition find_movie_by_title_year (movies : list Movie)
    (title year original_title : string) : option Movie :=
  match exact_title_year movies title year original_title with
  | Some m => Some m
  | None => fuzzy_title_year movies title year original_title
  end.

(** One iteration of the loop of [find_movie_by_title]. *)
Definition title_step (title original_title : string)
    (st : option Movie * Z) (m : Movie) : option Movie * Z :=
  let score := current_score m title original_title in
  if snd st <? score then (Some m, score) else st.

Definition find_movie_by_title (movies : list Movie) (title original_title : string)
  : option Movie :=
  let '(best_match, highest_score) :=
    fold_left (title_step title original_title) movies (None, 0) in
  match best_match with
  | Some m => if TITLE_ONLY_MATCH_RATIO <=? highest_score then Some m else None
  | None => None
  end.

(** The cascade of [run_imdb_list] for an entry that has an identifier:
    the identifier index, then title and year, then the title alone with
    the check of the year.  The result is the pair [(movie, match_method)]
    as the loop body holds it when it reaches [if not movie]. *)
Definition match_cascade (imdb_map : gmap string Movie) (all_movies : list Movie)
    (imdb_id title year original_title : string)
  : result (option Movie * string) :=
  match imdb_map !! imdb_id with
  | Some m => Ok (Some m, "IMDB ID")
  | None =>
      match find_movie_by_title_year all_movies title year original_title with
      | Some m => Ok (Some m, "Title + Year Fuzzy Match")
      | None =>
          match find_movie_by_title all_movies title original_title with
          | None => Ok (None, "")
          | Some m =>
              match year with
              | EmptyString => Ok (Some m, "Title Only Fuzzy Match")
              | _ =>
                  match int year with
                  | None => Raise ValueError
                  | Some y =>
                      if 2 <? Z.abs (Plex.year m - y)
                      then Ok (None, "Title Only Fuzzy Match")
                      else Ok (Some m, "Title Only Fuzzy Match")
                  end
              end
          end
      end
  end.

End Matchers.

(** ** Indexes *)

(** The dictionary [imdb_map]: later movies replace earlier ones that
    carry the same identifier. *)
Definition build_imdb_map (all_movies : list Movie) : gmap string Movie :=
  fold_left
    (fun (imdb_map : gmap string Movie) (m : Movie) =>
       if contains "imdb://" (Plex.guid m)
       then <[guid_imdb_id (Plex.guid m) := m]> imdb_map
       else imdb_map)
    all_movies ∅.

(** One iteration of the loop of [find_existing_collection_items]. *)
Definition index_item (existing_items : gmap (Z + string) Movie) (item : Movie)
  : gmap (Z + string) Movie :=
  let by_key := <[inl (Plex.ratingKey item) := item]> existing_items in
  if contains "imdb://" (Plex.guid item)
  then <[inr (guid_imdb_id (Plex.guid item)) := item]> by_key
  else by_key.

(** [find_existing_collection_items]; the argument is what
    [movie_library.search(collection=...)] returned, [None] when the
    search raised, in which case the index is empty. *)
Definition find_existing_collection_items (collection_items : option (list Movie))
  : gmap (Z + string) Movie :=
  match collection_items with
  | Some items => fold_left index_item items ∅
  | None => ∅
  end.

(** [key in existing_collection_items] *)
Definition is_key (k : Z + string) (d : gmap (Z + string) Movie) : bool :=
  match d !! k with
  | Some _ => true
  | None => false
  end.

(** ** The reconciler *)

(** What the first pass has accumulated. *)
Record Pass1 : Set := {
  report_data : list ReportItem;
  ordered_movies : list Pending;
  skipped_count : nat;
  missing_count : nat
}.

(** One invocation of [add_collection]: its arguments and its result. *)
Record AddCall : Set := {
  call_library_key : Z;
  call_rating_key : Z;
  call_movie_title : string;
  call_success : bool
}.

(** What a run leaves behind: the report, the three counters of the
    summary line and the invocations of [add_collection], oldest first. *)
Record RunOutput : Set := {
  out_report : list ReportItem;
  out_added : nat;
  out_skipped : nat;
  out_missing : nat;
  out_calls : list AddCall
}.

(** What the script reads before it classifies: the connection, the CSV
    file (field names and rows), the movies of the library and the members
    of the collection.  [None] is a read that raised. *)
Record World : Type := {
  plex_connects : bool;
  csv_file : option (list string * list (gmap string string));
  library_all : option (list Movie);
  collection_search : option (list Movie)
}.

(** ['URL' if 'URL' in reader.fieldnames else 'url'] *)
Definition choose_url_column (fieldnames : list string) : string :=
  if existsb (String.eqb "URL") fieldnames then "URL" else "url".

Section Reconciler.

Variable ratio : string -> string -> Z.

(** The remote service: [requests_put svc library_key rating_key] is the
    HTTP status of the request ([None] when [requests.put] raised) and the
    service afterwards. *)
Variable Service : Type.
Variable requests_put : Service -> Z -> Z -> option Z * Service.

Definition add_collection (svc : Service) (library_key rating_key : Z)
    (movie_title : string) : bool * Service :=
  let '(response, svc') := requests_put svc library_key rating_key in
  (match response with
   | Some status_code => status_code =? 200
   | None => false
   end, svc').

(** The body of the first loop of [run_imdb_list]. *)
Definition classify_row (all_movies : list Movie) (imdb_map : gmap string Movie)
    (existing_collection_items : gmap (Z + string) Movie) (url_column : string)
    (st : Pass1) (row : gmap string string) : result Pass1 :=
  let imdb_url := row_get row url_column "" in
  let imdb_id := find_imdb_id imdb_url in
  let title := row_get row "Title" "Unknown" in
  let original_title := row_get row "Original Title" "" in
  let year := row_get row "Year" "" in
  let report_item :=
    {| ri_title := title; ri_year := year; ri_original_title := original_title;
       ri_imdb_id := match imdb_id with Some i => i | None => "" end;
       ri_status := ""; ri_match_method := ""; ri_plex_title := "";
       ri_plex_year := None; ri_notes := "" |} in
  match imdb_id with
  | None =>
      let report_item :=
        {| ri_title := title; ri_year := year;
           ri_original_title := original_title; ri_imdb_id := "";
           ri_status := "ERROR: No IMDB ID found"; ri_match_method := "";
           ri_plex_title := ""; ri_plex_year := None;
           ri_notes := "Invalid URL: " +:+ imdb_url |} in
      Ok {| report_data := report_data st ++ [report_item];
            ordered_movies := ordered_movies st;
            skipped_count := skipped_count st;
            missing_count := S (missing_count st) |}
  | Some imdb_id =>
      found <-- match_cascade ratio imdb_map all_movies imdb_id title year
                              original_title ;;
      match found with
      | (None, _) =>
          let report_item :=
            {| ri_title := title; ri_year := year;
               ri_original_title := original_title; ri_imdb_id := imdb_id;
               ri_status := "MISSING: Not found in Plex library";
               ri_match_method := ""; ri_plex_title := "";
               ri_plex_year := None;
               ri_notes :=
                 "Could not match by IMDB ID, title+year, or title only" |} in
          Ok {| report_data := report_data st ++ [report_item];
                ordered_movies := ordered_movies st;
                skipped_count := skipped_count st;
                missing_count := S (missing_count st) |}
      | (Some m, method) =>
          let already_in_collection :=
            if is_key (inl (Plex.ratingKey m)) existing_collection_items then true
            else if is_key (inr imdb_id) existing_collection_items then true
            else false in
          if already_in_collection then
            let report_item :=
              {| ri_title := title; ri_year := year;
                 ri_original_title := original_title; ri_imdb_id := imdb_id;
                 ri_status := "SKIPPED:"; ri_match_method := method;
                 ri_plex_title := Plex.title m;
                 ri_plex_year := Some (Plex.year m); ri_notes := "" |} in
            Ok {| report_data := report_data st ++ [report_item];
                  ordered_movies := ordered_movies st;
                  skipped_count := S (skipped_count st);
                  missing_count := missing_count st |}
          else
            Ok {| report_data := report_data st;
                  ordered_movies :=
                    ordered_movies st ++
                    [{| movie := m; report_item := report_item;
                        match_method := method;
                        original_position := length (ordered_movies st) |}];
                  skipped_count := skipped_count st;
                  missing_count := missing_count st |}
      end
  end.

(** The state of the second loop: the service, the report, [added_count],
    [missing_count] and the invocations made so far. *)
Record Pass2 : Type := {
  p2_service : Service;
  p2_report : list ReportItem;
  p2_added : nat;
  p2_missing : nat;
  p2_calls : list AddCall
}.

(** The body of the second loop of [run_imdb_list]. *)
Definition commit_item (st : Pass2) (item : Pending) : Pass2 :=
  let m := movie item in
  let ri := report_item item in
  let method := match_method item in
  let '(success, svc') :=
    add_collection (p2_service st) (Plex.librarySectionID m) (Plex.ratingKey m)
                   (Plex.title m) in
  let call :=
    {| call_library_key := Plex.librarySectionID m;
       call_rating_key := Plex.ratingKey m;
       call_movie_title := Plex.title m; call_success := success |} in
  if success then
    let ri' :=
      {| ri_title := ri_title ri; ri_year := ri_year ri;
         ri_original_title := ri_original_title ri; ri_imdb_id := ri_imdb_id ri;
         ri_status := "ADDED:"; ri_match_method := method;
         ri_plex_title := Plex.title m; ri_plex_year := Some (Plex.year m);
         ri_notes := ri_notes ri |} in
    {| p2_service := svc'; p2_report := p2_report st ++ [ri'];
       p2_added := S (p2_added st); p2_missing := p2_missing st;
       p2_calls := p2_calls st ++ [call] |}
  else
    let ri' :=
      {| ri_title := ri_title ri; ri_year := ri_year ri;
         ri_original_title := ri_original_title ri; ri_imdb_id := ri_imdb_id ri;
         ri_status := "ERROR:"; ri_match_method := method;
         ri_plex_title := Plex.title m; ri_plex_year := Some (Plex.year m);
         ri_notes := "Plex API error" |} in
    {| p2_service := svc'; p2_report := p2_report st ++ [ri'];
       p2_added := p2_added st; p2_missing := S (p2_missing st);
       p2_calls := p2_calls st ++ [call] |}.

(** [run_imdb_list] from the point where the CSV rows, the library and the
    collection members have been read. *)
Definition reconcile (fieldnames : list string) (rows : list (gmap string string))
    (all_movies : list Movie) (collection_items : option (list Movie))
    (svc : Service) : result (RunOutput * Service) :=
  let url_column := choose_url_column fieldnames in
  let existing_collection_items :=
    find_existing_collection_items collection_items in
  let imdb_map := build_imdb_map all_movies in
  st1 <-- for_each
            (classify_row all_movies imdb_map existing_collection_items url_column)
            rows
            {| report_data := []; ordered_movies := [];
               skipped_count := 0; missing_count := 0 |} ;;
  let st2 :=
    fold_left commit_item (ordered_movies st1)
      {| p2_service := svc; p2_report := report_data st1; p2_added := 0;
         p2_missing := missing_count st1; p2_calls := [] |} in
  Ok ({| out_report := p2_report st2; out_added := p2_added st2;
         out_skipped := skipped_count st1; out_missing := p2_missing st2;
         out_calls := p2_calls st2 |}, p2_service st2).

Definition no_output : RunOutput :=
  {| out_report := []; out_added := 0; out_skipped := 0; out_missing := 0;
     out_calls := [] |}.

(** [run_imdb_list]: a failed connection, an unreadable CSV file or an
    unreadable library end the run with an empty list before anything is
    classified. *)
Definition run_imdb_list (w : World) (svc : Service) : result (RunOutput * Service) :=
  if plex_connects w then
    match csv_file w with
    | None => Ok (no_output, svc)
    | Some (fieldnames, rows) =>
        match library_all w with
        | None => Ok (no_output, svc)
        | Some all_movies =>
            reconcile fieldnames rows all_movies (collection_search w) svc
        end
    end
  else Ok (no_output, svc).

End Reconciler.


(** ** The shape of the fuzzy loops *)

(** Both fuzzy loops keep the first candidate of maximal positive score
    among those that pass a test: [best_step] is their common iteration and
    [best_inv l st] what holds of the state [st] after the candidates [l]. *)
Section BestFoldDef.

Variable eligible : Movie -> bool.
Variable score : Movie -> Z.

Definition best_step (st : option Movie * Z) (m : Movie) : option Movie * Z :=
  if (eligible m && (snd st <? score m))%bool then (Some m, score m) else st.

(** What the loop has established once it has gone through [l]. *)
Definition best_inv (l : list Movie) (st : option Movie * Z) : Prop :=
  match fst st with
  | None =>
      snd st = 0 /\ forall m', In m' l -> eligible m' = true -> score m' <= 0
  | Some m =>
      snd st = score m /\ 0 < score m /\ eligible m = true /\
      exists l1 l2, l = l1 ++ m :: l2 /\
        (forall m', In m' l1 -> eligible m' = true -> score m' < score m) /\
        (forall m', In m' l2 -> eligible m' = true -> score m' <= score m)
  end.

End BestFoldDef.

(** [current_score] as a function of the candidate. *)
Definition entry_score (ratio : string -> string -> Z)
    (title original_title : string) (m : Movie) : Z :=
  current_score ratio m title original_title.

(** [str(movie.year) == year] *)
Definition year_is (year : string) (m : Movie) : bool :=
  String.eqb (str (Plex.year m)) year.

(** ** The first loop, entry by entry *)

(** The four ways the body of the first loop ends: the three [continue]s,
    each with the record it appends, and the fall-through that queues the
    movie with the record still to be completed. *)
Inductive Verdict : Set :=
| NoIdentifier (item : ReportItem)
| NotFound (item : ReportItem)
| AlreadyMember (item : ReportItem)
| ToAdd (m : Movie) (item : ReportItem) (method : string).

(** The fields of a row as the loop body reads them. *)
Definition row_url (url_column : string) (row : gmap string string) : string :=
  row_get row url_column "".
Definition row_title (row : gmap string string) : string :=
  row_get row "Title" "Unknown".
Definition row_original_title (row : gmap string string) : string :=
  row_get row "Original Title" "".
Definition row_year (row : gmap string string) : string :=
  row_get row "Year" "".

(** [report_item] as the loop body creates it. *)
Definition fresh_item (url_column : string) (row : gmap string string) : ReportItem :=
  {| ri_title := row_title row; ri_year := row_year row;
     ri_original_title := row_original_title row;
     ri_imdb_id := match find_imdb_id (row_url url_column row) with
                   | Some i => i
                   | None => ""
                   end;
     ri_status := ""; ri_match_method := ""; ri_plex_title := "";
     ri_plex_year := None; ri_notes := "" |}.

(** [report_item.update(...)] with a status and a note. *)
Definition item_failed (item : ReportItem) (status notes : string) : ReportItem :=
  {| ri_title := ri_title item; ri_year := ri_year item;
     ri_original_title := ri_original_title item; ri_imdb_id := ri_imdb_id item;
     ri_status := status; ri_match_method := ri_match_method item;
     ri_plex_title := ri_plex_title item; ri_plex_year := ri_plex_year item;
     ri_notes := notes |}.

(** [report_item.update(...)] with a status, the method and the movie. *)
Definition item_matched (item : ReportItem) (status method : string) (m : Movie)
  : ReportItem :=
  {| ri_title := ri_title item; ri_year := ri_year item;
     ri_original_title := ri_original_title item; ri_imdb_id := ri_imdb_id item;
     ri_status := status; ri_match_method := method;
     ri_plex_title := Plex.title m; ri_plex_year := Some (Plex.year m);
     ri_notes := ri_notes item |}.

(** The membership test of the loop body. *)
Definition already_in_collection (existing_collection_items : gmap (Z + string) Movie)
    (m : Movie) (imdb_id : string) : bool :=
  (is_key (inl (Plex.ratingKey m)) existing_collection_items
   || is_key (inr imdb_id) existing_collection_items)%bool.

Section Verdicts.

Variable ratio : string -> string -> Z.
Variable all_movies : list Movie.
Variable imdb_map : gmap string Movie.
Variable existing_collection_items : gmap (Z + string) Movie.
Variable url_column : string.

(** How the body of the first loop ends on [row]: [classify_row] is this
    verdict followed by [apply_verdict] (lemma [classify_row_verdict]). *)
Definition verdict (row : gmap string string) : result Verdict :=
  let item := fresh_item url_column row in
  match find_imdb_id (row_url url_column row) with
  | None =>
      Ok (NoIdentifier
            (item_failed item "ERROR: No IMDB ID found"
                         ("Invalid URL: " +:+ row_url url_column row)))
  | Some imdb_id =>
      found <-- match_cascade ratio imdb_map all_movies imdb_id (row_title row)
                              (row_year row) (row_original_title row) ;;
      match found with
      | (None, _) =>
          Ok (NotFound
                (item_failed item "MISSING: Not found in Plex library"
                   "Could not match by IMDB ID, title+year, or title only"))
      | (Some m, method) =>
          if already_in_collection existing_collection_items m imdb_id
          then Ok (AlreadyMember (item_matched item "SKIPPED:" method m))
          else Ok (ToAdd m item method)
      end
  end.

End Verdicts.

(** What a verdict does to the state of the first loop. *)
Definition apply_verdict (st : Pass1) (v : Verdict) : Pass1 :=
  match v with
  | NoIdentifier item | NotFound item =>
      {| report_data := report_data st ++ [item];
         ordered_movies := ordered_movies st;
         skipped_count := skipped_count st;
         missing_count := S (missing_count st) |}
  | AlreadyMember item =>
      {| report_data := report_data st ++ [item];
         ordered_movies := ordered_movies st;
         skipped_count := S (skipped_count st);
         missing_count := missing_count st |}
  | ToAdd m item method =>
      {| report_data := report_data st;
         ordered_movies :=
           ordered_movies st ++
           [{| movie := m; report_item := item; match_method := method;
               original_position := length (ordered_movies st) |}];
         skipped_count := skipped_count st;
         missing_count := missing_count st |}
  end.

(** The verdicts of a list of rows; an exception in one row is the
    exception of the list. *)
Fixpoint verdicts (f : gmap string string -> result Verdict)
    (rows : list (gmap string string)) : result (list Verdict) :=
  match rows with
  | [] => Ok []
  | row :: rows' =>
      v <-- f row ;; vs <-- verdicts f rows' ;; Ok (v :: vs)
  end.

Definition is_to_add (v : Verdict) : bool :=
  match v with ToAdd _ _ _ => true | _ => false end.
Definition is_already_member (v : Verdict) : bool :=
  match v with AlreadyMember _ => true | _ => false end.
Definition is_unmatched (v : Verdict) : bool :=
  match v with NoIdentifier _ | NotFound _ => true | _ => false end.

(** The record or, for a queued movie, the record to be completed. *)
Definition verdict_item (v : Verdict) : ReportItem :=
  match v with
  | NoIdentifier item | NotFound item | AlreadyMember item => item
  | ToAdd _ item _ => item
  end.

(** The arguments of the [add_collection] call a queued movie leads to. *)
Definition verdict_call (v : Verdict) : list (Z * Z * string) :=
  match v with
  | ToAdd m _ _ => [(Plex.librarySectionID m, Plex.ratingKey m, Plex.title m)]
  | _ => []
  end.

Definition call_args (c : AddCall) : Z * Z * string :=
  (call_library_key c, call_rating_key c, call_movie_title c).

(** The entry a record reports on. *)
Definition item_entry (item : ReportItem) : string * string * string * string :=
  (ri_title item, ri_year item, ri_original_title item, ri_imdb_id item).

(** The entry of a row: title, year, original title and identifier. *)
Definition row_entry (url_column : string) (row : gmap string string)
  : string * string * string * string :=
  item_entry (fresh_item url_column row).

(** A year the veto of the title-only tier can read. *)
Definition year_readable (row : gmap string string) : Prop :=
  row_year row = "" \/ exists y, int (row_year row) = Some y.

(** ** A scripted service for the examples *)

(** The service answers with the statuses of a script, one per request,
    and with 200 once the script is exhausted. *)
Definition scripted_put (script : list (option Z)) (library_key rating_key : Z)
  : option Z * list (option Z) :=
  match script with
  | [] => (Some 200, [])
  | r :: script' => (r, script')
  end.

Section RowTests.

Variable f : gmap string string -> result Verdict.

(** A test on the verdict of a row; a row whose verdict is an exception
    fails every test. *)
Definition row_is (P : Verdict -> bool) (row : gmap string string) : bool :=
  match f row with
  | Ok v => P v
  | Raise _ => false
  end.

(** The [add_collection] arguments a row leads to, if it is queued. *)
Definition row_call (row : gmap string string) : list (Z * Z * string) :=
  match f row with
  | Ok v => verdict_call v
  | Raise _ => []
  end.

End RowTests.

(** An element of [ordered_movies] seen as the verdict that queued it. *)
Definition pending_verdict (p : Pending) : Verdict :=
  ToAdd (movie p) (report_item p) (match_method p).

(** The status the second loop writes for a call. *)
Definition commit_status (c : AddCall) : string :=
  if call_success c then "ADDED:" else "ERROR:".

(** ** Runs *)

(** The reads of a run succeeded and gave these field names, rows and
    movies. *)
Definition reads (w : World) (fieldnames : list string)
    (rows : list (gmap string string)) (all_movies : list Movie) : Prop :=
  plex_connects w = true /\ csv_file w = Some (fieldnames, rows) /\
  library_all w = Some all_movies.

(** The verdict of a row in a run on [w]. *)
Definition run_verdict (ratio : string -> string -> Z) (w : World)
    (fieldnames : list string) (all_movies : list Movie)
  : gmap string string -> result Verdict :=
  verdict ratio all_movies (build_imdb_map all_movies)
          (find_existing_collection_items (collection_search w))
          (choose_url_column fieldnames).

(** ** Data for the examples *)

Module Demo.

Definition csv_row (url title year original_title : string) : gmap string string :=
  <["URL" := url]> (<["Title" := title]> (<["Year" := year]>
    (<["Original Title" := original_title]> ∅))).

Definition fieldnames : list string :=
  ["Position"; "Title"; "Original Title"; "URL"; "Year"].

Definition arrival : Movie :=
  {| Plex.ratingKey := 42; Plex.title := "Arrival"; Plex.year := 2016;
     Plex.guid := "com.plexapp.agents.imdb://tt2543164?lang=en";
     Plex.librarySectionID := 1 |}.

Definition premier_contact : Movie :=
  {| Plex.ratingKey := 43; Plex.title := "Premier Contact"; Plex.year := 2016;
     Plex.guid := "com.plexapp.agents.imdb://tt2543164?lang=fr";
     Plex.librarySectionID := 1 |}.

Definition arrival_untagged : Movie :=
  {| Plex.ratingKey := 44; Plex.title := "Arrival"; Plex.year := 2016;
     Plex.guid := "local://44"; Plex.librarySectionID := 1 |}.

Definition dune_1984 : Movie :=
  {| Plex.ratingKey := 7; Plex.title := "Dune"; Plex.year := 1984;
     Plex.guid := "local://7"; Plex.librarySectionID := 1 |}.

Definition heat : Movie :=
  {| Plex.ratingKey := 8; Plex.title := "Heat"; Plex.year := 1995;
     Plex.guid := "com.plexapp.agents.imdb://tt0113277?lang=en";
     Plex.librarySectionID := 1 |}.

Definition spiderman_2012 : Movie :=
  {| Plex.ratingKey := 11; Plex.title := "Spiderman"; Plex.year := 2012;
     Plex.guid := "local://11"; Plex.librarySectionID := 1 |}.

Definition spidermen_2002 : Movie :=
  {| Plex.ratingKey := 12; Plex.title := "Spidermen"; Plex.year := 2002;
     Plex.guid := "local://12"; Plex.librarySectionID := 1 |}.

Definition row_arrival : gmap string string :=
  csv_row "https://www.imdb.com/title/tt2543164/" "Arrival" "2016" "".

Definition row_heat : gmap string string :=
  csv_row "https://www.imdb.com/title/tt0113277/" "Heat" "1995" "".

(** A row whose URL holds no identifier. *)
Definition row_arrival_no_id : gmap string string :=
  csv_row "https://www.imdb.com/list/ls569744078/" "Arrival" "2016" "".

(** A row for the 2021 film, which the library does not hold. *)
Definition row_dune_2021 : gmap string string :=
  csv_row "https://www.imdb.com/title/tt1160419/" "Dune" "2021" "".

Definition world (rows : list (gmap string string)) (movies : list Movie)
    (members : list Movie) : World :=
  {| plex_connects := true; csv_file := Some (fieldnames, rows);
     library_all := Some movies; collection_search := Some members |}.

(** A run of the script on the scripted service. *)
Definition run (w : World) (script : list (option Z))
  : result (RunOutput * list (option Z)) :=
  run_imdb_list indel_ratio (list (option Z)) scripted_put w script.

End Demo.

(** ** The keys of the membership index *)

(** [k] is one of the keys under which [item] is indexed. *)
Definition indexed_under (item : Movie) (k : Z + string) : Prop :=
  k = inl (Plex.ratingKey item) \/
  (contains "imdb://" (Plex.guid item) = true /\
   k = inr (guid_imdb_id (Plex.guid item))).

(** The members a collection search gave; none when it raised. *)
Definition members (collection_items : option (list Movie)) : list Movie :=
  match collection_items with
  | Some items => items
  | None => []
  end.

(** ** Predicates for the further properties *)

(** [s] consists of decimal digits. *)
Fixpoint all_digits (s : string) : bool :=
  match s with
  | EmptyString => true
  | String c s' => (is_digit c && all_digits s')%bool
  end.

Definition starts_with_digit (s : string) : bool :=
  match s with
  | EmptyString => false
  | String c _ => is_digit c
  end.

(** The pattern [tt\d+] matches at the very start of [s]. *)
Definition id_at (s : string) : bool :=
  match strip_prefix "tt" s with
  | Some rest => starts_with_digit rest
  | None => false
  end.

(** [c in s] for a character [c]. *)
Fixpoint has_char (c : ascii) (s : string) : bool :=
  match s with
  | EmptyString => false
  | String d s' => (Ascii.eqb c d || has_char c s')%bool
  end.

(** The test of the first loop of [find_movie_by_title_year]: the title of
    the movie equals the title or the (non-empty) original title, case
    folded, and its year prints as [year]. *)
Definition exact_match (title year original_title : string) (m : Movie) : bool :=
  ((String.eqb (lower (Plex.title m)) (lower title)
    || (negb (String.eqb original_title "")
        && String.eqb (lower (Plex.title m)) (lower original_title)))
   && String.eqb (str (Plex.year m)) year)%bool.

(** [m], at the place where [l1] ends, is the first element of maximal
    score among those of [l1 ++ m :: l2] that pass the test. *)
Definition first_best (eligible : Movie -> bool) (score : Movie -> Z)
    (l1 : list Movie) (m : Movie) (l2 : list Movie) : Prop :=
  eligible m = true /\
  (forall m', In m' l1 -> eligible m' = true -> score m' < score m) /\
  (forall m', In m' l2 -> eligible m' = true -> score m' <= score m).

(** The guid of [m] carries the IMDB identifier [id]. *)
Definition tagged_with (id : string) (m : Movie) : Prop :=
  contains "imdb://" (Plex.guid m) = true /\ guid_imdb_id (Plex.guid m) = id.

(** One iteration of the loop that fills [imdb_map]. *)
Definition imdb_map_step (imdb_map : gmap string Movie) (m : Movie)
  : gmap string Movie :=
  if contains "imdb://" (Plex.guid m)
  then <[guid_imdb_id (Plex.guid m) := m]> imdb_map
  else imdb_map.

(** The number of records of a report that have the status [s]. *)
Definition count_status (s : string) (report : list ReportItem) : nat :=
  length (List.filter (fun item => String.eqb (ri_status item) s) report).

(** The status the first loop writes into the record of a verdict; the
    record of a queued movie still has the empty status. *)
Definition verdict_status_text (v : Verdict) : string :=
  match v with
  | NoIdentifier _ => "ERROR: No IMDB ID found"
  | NotFound _ => "MISSING: Not found in Plex library"
  | AlreadyMember _ => "SKIPPED:"
  | ToAdd _ _ _ => ""
  end.

Section Replay.

Variable Service : Type.
Variable requests_put : Service -> Z -> Z -> option Z * Service.

(** The calls [add_collection] with the given arguments, made one after
    the other on the service: their results and the service afterwards. *)
Fixpoint replay (svc : Service) (requests : list (Z * Z * string))
  : list bool * Service :=
  match requests with
  | [] => ([], svc)
  | (library_key, rating_key, movie_title) :: requests' =>
      let '(success, svc1) :=
        add_collection Service requests_put svc library_key rating_key
                       movie_title in
      let '(successes, svc2) := replay svc1 requests' in
      (success :: successes, svc2)
  end.

End Replay.

(** ** What the service receives *)

(** The request [add_collection] sends for its arguments: the section is
    part of the URL and the rating key is the parameter [id]; the title of
    the movie is not sent. *)
Definition call_request (args : Z * Z * string) : Z * Z :=
  (fst (fst args), snd (fst args)).

Section Recorder.

Variable Service : Type.
Variable requests_put : Service -> Z -> Z -> option Z * Service.

(** A service with a recorder in front of it: it answers as the service
    does and keeps the list of the requests it has received, oldest
    first.  A run on it shows what the script really sends. *)
Definition recording_put (st : Service * list (Z * Z)) (library_key rating_key : Z)
  : option Z * (Service * list (Z * Z)) :=
  let '(response, svc') := requests_put (fst st) library_key rating_key in
  (response, (svc', snd st ++ [(library_key, rating_key)])).

(** The state of the second loop on the service with its recorder. *)
Definition with_recorder (st : Pass2 Service) (received : list (Z * Z))
  : Pass2 (Service * list (Z * Z)) :=
  {| p2_service := (p2_service Service st, received);
     p2_report := p2_report Service st;
     p2_added := p2_added Service st;
     p2_missing := p2_missing Service st;
     p2_calls := p2_calls Service st |}.

End Recorder.

(** The request for the movie the cascade finds for a row, whether the
    movie is in the collection or not. *)
Definition cascade_request (ratio : string -> string -> Z) (all_movies : list Movie)
    (url_column : string) (row : gmap string string) : list (Z * Z) :=
  match find_imdb_id (row_url url_column row) with
  | None => []
  | Some imdb_id =>
      match match_cascade ratio (build_imdb_map all_movies) all_movies imdb_id
              (row_title row) (row_year row) (row_original_title row) with
      | Ok (Some m, _) => [(Plex.librarySectionID m, Plex.ratingKey m)]
      | _ => []
      end
  end.

(** The first loop reaches [int(year)] on [row] with a year that is not
    empty and does not read as an integer: the identifier is not in the
    index, the title and year tier finds nothing and the title-only tier
    proposes a movie. *)
Definition year_unreadable_at (ratio : string -> string -> Z)
    (all_movies : list Movie) (url_column : string) (row : gmap string string)
  : Prop :=
  exists imdb_id m,
    find_imdb_id (row_url url_column row) = Some imdb_id /\
    build_imdb_map all_movies !! imdb_id = None /\
    find_movie_by_title_year ratio all_movies (row_title row) (row_year row)
      (row_original_title row) = None /\
    find_movie_by_title ratio all_movies (row_title row) (row_original_title row)
      = Some m /\
    row_year row <> "" /\ int (row_year row) = None.

(** The record of a row without identifier. *)
Definition no_identifier_item (url_column : string) (row : gmap string string)
  : ReportItem :=
  item_failed (fresh_item url_column row) "ERROR: No IMDB ID found"
              ("Invalid URL: " +:+ row_url url_column row).

(** The state of the first loop before the first row. *)
Definition pass1_start : Pass1 :=
  {| report_data := []; ordered_movies := [];
     skipped_count := 0; missing_count := 0 |}.

(** The record the second loop writes for a queued movie, after a call
    that succeeded or failed. *)
Definition committed_item (m : Movie) (item : ReportItem) (method : string)
    (success : bool) : ReportItem :=
  if success then item_matched item "ADDED:" method m
  else item_failed (item_matched item "ERROR:" method m) "ERROR:" "Plex API error".

(** The three labels of a match. *)
Definition is_method (method : string) : Prop :=
  method = "IMDB ID" \/ method = "Title + Year Fuzzy Match" \/
  method = "Title Only Fuzzy Match".

(** The shape of a record of the report, by status: a record without
    identifier or without match names no movie and no method; any other
    record has an identifier, one of the three methods and the title and
    year of a movie of the library; the note "Plex API error" goes with the
    status "ERROR:" and with no other. *)
Definition record_well_formed (all_movies : list Movie) (item : ReportItem)
  : Prop :=
  (ri_status item = "ERROR: No IMDB ID found" /\ ri_imdb_id item = "" /\
   ri_match_method item = "" /\ ri_plex_title item = "" /\
   ri_plex_year item = None) \/
  (ri_status item = "MISSING: Not found in Plex library" /\
   ri_imdb_id item <> "" /\ ri_match_method item = "" /\
   ri_plex_title item = "" /\ ri_plex_year item = None) \/
  ((ri_status item = "SKIPPED:" /\ ri_notes item = "" \/
    ri_status item = "ADDED:" /\ ri_notes item = "" \/
    ri_status item = "ERROR:" /\ ri_notes item = "Plex API error") /\
   ri_imdb_id item <> "" /\ is_method (ri_match_method item) /\
   exists m, In m all_movies /\ ri_plex_title item = Plex.title m /\
             ri_plex_year item = Some (Plex.year m)).
(** * Properties *)

(** ** Strings *)

Section StringFacts.

Local Open Scope string_scope.

Lemma replace_the_eq s :
  replace_the s =
  match strip_prefix "the " s with
  | Some rest => replace_the rest
  | None => match s with
            | EmptyString => EmptyString
            | String c s' => String c (replace_the s')
            end
  end.
Proof.
  destruct s as [|c1 s1]; [reflexivity|].
  destruct (Ascii.eqb_spec "t" c1) as [<-|H1].
  2:{ cbn [strip_prefix]. destruct (Ascii.eqb_spec "t" c1); [contradiction|].
      destruct c1 as [[] [] [] [] [] [] [] []]; try reflexivity. contradiction. }
  destruct s1 as [|c2 s2]; [reflexivity|].
  destruct (Ascii.eqb_spec "h" c2) as [<-|H2].
  2:{ cbn [strip_prefix]. rewrite Ascii.eqb_refl.
      destruct (Ascii.eqb_spec "h" c2); [contradiction|].
      destruct c2 as [[] [] [] [] [] [] [] []]; try reflexivity. contradiction. }
  destruct s2 as [|c3 s3]; [reflexivity|].
  destruct (Ascii.eqb_spec "e" c3) as [<-|H3].
  2:{ cbn [strip_prefix]. rewrite !Ascii.eqb_refl.
      destruct (Ascii.eqb_spec "e" c3); [contradiction|].
      destruct c3 as [[] [] [] [] [] [] [] []]; try reflexivity. contradiction. }
  destruct s3 as [|c4 s4]; [reflexivity|].
  destruct (Ascii.eqb_spec " " c4) as [<-|H4].
  2:{ cbn [strip_prefix]. rewrite !Ascii.eqb_refl.
      destruct (Ascii.eqb_spec " " c4); [contradiction|].
      destruct c4 as [[] [] [] [] [] [] [] []]; try reflexivity. contradiction. }
  reflexivity.
Qed.

Lemma app_String c a b : String c a +:+ b = String c (a +:+ b).
Proof. reflexivity. Qed.

Lemma app_Empty b : "" +:+ b = b.
Proof. reflexivity. Qed.

Ltac app_norm := repeat first [rewrite app_String | rewrite app_Empty].
Ltac app_norm_in H :=
  repeat first [rewrite app_String in H | rewrite app_Empty in H].

Lemma strip_prefix_app p s rest :
  strip_prefix p s = Some rest -> s = p +:+ rest.
Proof.
  revert s. induction p as [|a p IH]; intros s H; simpl in H.
  - now inversion H.
  - destruct s as [|b s]; [discriminate|].
    destruct (Ascii.eqb_spec a b) as [->|]; [|discriminate].
    rewrite app_String. f_equal. now apply IH.
Qed.

Lemma strip_prefix_length p s rest :
  strip_prefix p s = Some rest ->
  String.length s = (String.length p + String.length rest)%nat.
Proof.
  intros H. apply strip_prefix_app in H. subst s.
  induction p; simpl; auto.
Qed.

(** Induction along the recursion of [replace_the]. *)
Lemma replace_the_rect (P : string -> string -> Prop) :
  P "" "" ->
  (forall rest, P rest (replace_the rest) ->
                P ("the " +:+ rest) (replace_the rest)) ->
  (forall c s, strip_prefix "the " (String c s) = None ->
               P s (replace_the s) -> P (String c s) (String c (replace_the s))) ->
  forall s, P s (replace_the s).
Proof.
  intros H0 Hthe Hc s.
  remember (String.length s) as n eqn:Hn.
  revert s Hn. induction n as [n IH] using lt_wf_ind. intros s Hn.
  rewrite replace_the_eq.
  destruct (strip_prefix "the " s) as [rest|] eqn:E.
  - pose proof (strip_prefix_length _ _ _ E) as Hl.
    assert (String.length rest < n)%nat as Hlt
      by (rewrite Hn, Hl; cbn [String.length]; lia).
    apply strip_prefix_app in E. subst s.
    apply Hthe. now apply (IH (String.length rest)).
  - destruct s as [|c s]; [exact H0|].
    apply Hc; [exact E|].
    apply (IH (String.length s)); [cbn [String.length] in Hn; lia | reflexivity].
Qed.

Lemma lower_char_idem c : lower_char (lower_char c) = lower_char c.
Proof. destruct c as [[] [] [] [] [] [] [] []]; reflexivity. Qed.

Lemma lower_idem s : lower (lower s) = lower s.
Proof. induction s; simpl; [|rewrite lower_char_idem, IHs]; reflexivity. Qed.

Lemma lower_app a b : lower (a +:+ b) = lower a +:+ lower b.
Proof. induction a; simpl; [|rewrite IHa]; reflexivity. Qed.

Lemma lower_replace_the s : lower s = s -> lower (replace_the s) = replace_the s.
Proof.
  apply (replace_the_rect (fun s r => lower s = s -> lower r = r)).
  - reflexivity.
  - intros rest IH H. apply IH. rewrite lower_app in H.
    change (lower "the ") with "the " in H. app_norm_in H. now injection H.
  - intros c s' _ IH H. cbn [lower] in *. injection H as Hc Hs.
    now rewrite Hc, (IH Hs).
Qed.

Lemma lower_lstrip s : lower s = s -> lower (lstrip s) = lstrip s.
Proof.
  induction s as [|c s IH]; intros H; [reflexivity|].
  cbn [lower] in H. injection H as Hc Hs. cbn [lstrip].
  destruct (is_space c); [auto|]. cbn [lower]. now rewrite Hc, Hs.
Qed.

Lemma lower_rstrip s : lower s = s -> lower (rstrip s) = rstrip s.
Proof.
  induction s as [|c s IH]; intros H; [reflexivity|].
  cbn [lower] in H. injection H as Hc Hs. specialize (IH Hs). cbn [rstrip].
  destruct (rstrip s) as [|d r].
  - destruct (is_space c); cbn [lower]; [reflexivity|]. now rewrite Hc.
  - cbn [lower] in *. now rewrite Hc, IH.
Qed.

Lemma rstrip_cons c s :
  is_space c = false -> rstrip (String c s) = String c (rstrip s).
Proof. intros H. simpl. destruct (rstrip s); [rewrite H|]; reflexivity. Qed.

Lemma rstrip_idem s : rstrip (rstrip s) = rstrip s.
Proof.
  induction s as [|c s IH]; [reflexivity|]. simpl.
  destruct (rstrip s) as [|d r] eqn:E.
  - destruct (is_space c) eqn:Hc; simpl; [reflexivity|]. now rewrite Hc.
  - change (rstrip (String c (String d r))) with
      (match rstrip (String d r) with
       | EmptyString => if is_space c then EmptyString else String c EmptyString
       | x => String c x
       end).
    now rewrite IH.
Qed.

Lemma lstrip_head s :
  lstrip s = "" \/ exists c r, lstrip s = String c r /\ is_space c = false.
Proof.
  induction s as [|c s IH]; simpl; [now left|].
  destruct (is_space c) eqn:Hc; [exact IH|]. right. eauto.
Qed.

Lemma lstrip_strip s : lstrip (strip s) = strip s.
Proof.
  unfold strip. destruct (lstrip_head s) as [->|(c & r & -> & Hc)]; [reflexivity|].
  rewrite (rstrip_cons _ _ Hc). simpl. now rewrite Hc.
Qed.

Lemma rstrip_strip s : rstrip (strip s) = strip s.
Proof. apply rstrip_idem. Qed.

Lemma replace_the_absent s : contains "the " s = false -> replace_the s = s.
Proof.
  induction s as [|c s IH]; intros H; [reflexivity|].
  rewrite replace_the_eq.
  change (contains "the " (String c s)) with
    (match strip_prefix "the " (String c s) with
     | Some _ => true
     | None => contains "the " s
     end) in H.
  destruct (strip_prefix "the " (String c s)); [discriminate|].
  now rewrite (IH H).
Qed.

(** An occurrence of the article cannot begin inside a prefix that has
    none and end in the article that follows it. *)
Lemma strip_prefix_the_straddle c a x :
  strip_prefix "the " (String c a) = None ->
  strip_prefix "the " (String c a +:+ "the " +:+ x) = None.
Proof.
  destruct a as [|c2 [|c3 [|c4 a]]]; app_norm; cbn [strip_prefix];
    repeat match goal with
           | |- context [Ascii.eqb ?u ?v] => destruct (Ascii.eqb_spec u v); subst
           end; try reflexivity; try discriminate; try congruence.
Qed.

Lemma replace_the_interior a b :
  contains "the " a = false ->
  replace_the (a +:+ "the " +:+ b) = a +:+ replace_the b.
Proof.
  induction a as [|c a IH]; intros H.
  - now rewrite replace_the_eq.
  - change (contains "the " (String c a)) with
      (match strip_prefix "the " (String c a) with
       | Some _ => true
       | None => contains "the " a
       end) in H.
    destruct (strip_prefix "the " (String c a)) eqn:E; [discriminate|].
    rewrite replace_the_eq, (strip_prefix_the_straddle _ _ _ E).
    simpl. now rewrite (IH H).
Qed.

Lemma strip_prefix_extend q x y r :
  strip_prefix q x = Some r -> strip_prefix q (x +:+ y) = Some (r +:+ y).
Proof.
  revert x. induction q as [|a q IH]; intros x; cbn [strip_prefix].
  - now intros [= ->].
  - destruct x as [|b x]; [discriminate|]. rewrite app_String.
    destruct (Ascii.eqb a b); [apply IH|discriminate].
Qed.

Lemma contains_cons sep c s :
  contains sep (String c s) =
  match strip_prefix sep (String c s) with
  | Some _ => true
  | None => contains sep s
  end.
Proof. reflexivity. Qed.

Lemma join_cons sep p q rest :
  join sep (p :: q :: rest) = p +:+ sep +:+ join sep (q :: rest).
Proof. reflexivity. Qed.

(** The first piece of a joined string is a prefix of it. *)
Lemma join_head sep p rest : exists y, join sep (p :: rest) = p +:+ y.
Proof.
  destruct rest as [|q rest].
  - exists "". cbn [join]. induction p as [|c p IH]; [reflexivity|].
    rewrite app_String. now rewrite <- IH.
  - rewrite join_cons. eauto.
Qed.

Lemma join_String sep c p rest :
  join sep (String c p :: rest) = String c (join sep (p :: rest)).
Proof. destruct rest; [reflexivity|]. now rewrite !join_cons, app_String. Qed.

(** Every string is its pieces between the occurrences of the article,
    joined by the article. *)
Lemma split_the s :
  exists pieces, pieces <> [] /\ s = join "the " pieces /\
    Forall (fun p => contains "the " p = false) pieces.
Proof.
  apply (replace_the_rect
           (fun s _ => exists pieces, pieces <> [] /\ s = join "the " pieces /\
                         Forall (fun p => contains "the " p = false) pieces)).
  - exists [""]. split; [discriminate|]. split; [reflexivity|]. now constructor.
  - intros rest (pieces & Hne & -> & Hall). exists ("" :: pieces).
    split; [discriminate|]. split.
    + destruct pieces as [|q pieces]; [contradiction|]. now rewrite join_cons.
    + now constructor.
  - intros c s' Hnone (pieces & Hne & -> & Hall).
    destruct pieces as [|p pieces]; [contradiction|].
    exists (String c p :: pieces). split; [discriminate|].
    split; [now rewrite join_String|].
    inversion Hall as [|? ? Hp Hrest]; subst. constructor; [|exact Hrest].
    rewrite contains_cons.
    destruct (strip_prefix "the " (String c p)) as [r|] eqn:E; [|exact Hp].
    destruct (join_head "the " p pieces) as [y Hy]. rewrite Hy in Hnone.
    rewrite <- app_String in Hnone.
    now rewrite (strip_prefix_extend _ _ y _ E) in Hnone.
Qed.

(** Deleting the article from the joined pieces leaves the pieces. *)
Lemma replace_the_join pieces :
  Forall (fun p => contains "the " p = false) pieces ->
  replace_the (join "the " pieces) = join "" pieces.
Proof.
  induction 1 as [|p pieces Hp Hrest IH]; [reflexivity|].
  destruct pieces as [|q pieces].
  - cbn [join]. now apply replace_the_absent.
  - rewrite !join_cons, (replace_the_interior _ _ Hp), IH. now app_norm.
Qed.

Lemma str_nonempty n : str n <> "".
Proof.
  unfold str. destruct (Z.to_int n) as [d|d]; simpl; [|discriminate].
  destruct d; simpl; discriminate.
Qed.

End StringFacts.

(** ** The normalizer *)

(** C7, as the design document states it, fails: an article inside a
    title is deleted too, so [clean_title] and the normalizer of the
    document disagree on "Into the Wild". *)
Lemma clean_title_not_normalize_spec :
  clean_title (Some "Into the Wild") = "into wild" /\
  normalize_spec "Into the Wild" = "into the wild" /\
  clean_title (Some "Into the Wild") <> normalize_spec "Into the Wild".
Proof. repeat split. discriminate. Qed.

(** C7, amended: [clean_title] is a total function that yields the empty
    string for a missing or empty title.  For any other title, take the
    title in lower case and cut it at every occurrence of the article
    "the ", in front or inside: the result is the pieces put together
    again without the article, with the whitespace at both ends removed;
    the pieces exist for every title, and they determine the result.  The
    result is in lower case and has no whitespace at either end, and a
    title without the article is only case folded and trimmed. *)
Theorem clean_title_amended :
  (clean_title None = "" /\ clean_title (Some "") = "") /\
  forall t : string,
    let r := clean_title (Some t) in
    (lower r = r /\ lstrip r = r /\ rstrip r = r) /\
    (contains "the " (lower t) = false -> r = strip (lower t)) /\
    (exists pieces : list string,
        lower t = join "the " pieces /\
        Forall (fun p => contains "the " p = false) pieces) /\
    (forall pieces : list string,
        lower t = join "the " pieces ->
        Forall (fun p => contains "the " p = false) pieces ->
        r = strip (join "" pieces)).
Proof.
  split; [split; reflexivity|]. intros t r.
  assert (Hr : r = strip (replace_the (lower t)))
    by (subst r; destruct t; reflexivity).
  split; [|split; [|split]].
  - rewrite Hr. split; [|split].
    + unfold strip. apply lower_rstrip, lower_lstrip, lower_replace_the, lower_idem.
    + apply lstrip_strip.
    + apply rstrip_strip.
  - intros H. now rewrite Hr, (replace_the_absent _ H).
  - destruct (split_the (lower t)) as (pieces & _ & Hj & Hall). eauto.
  - intros pieces Hj Hall. now rewrite Hr, Hj, (replace_the_join _ Hall).
Qed.

Lemma clean_title_amended_witness :
  lower "The Man in the Moon" = join "the " [""; "man in "; "moon"] /\
  Forall (fun p => contains "the " p = false) [""; "man in "; "moon"] /\
  clean_title (Some "The Man in the Moon") = "man in moon".
Proof.
  assert (Hall : Forall (fun p => contains "the " p = false)
                        [""; "man in "; "moon"]) by (repeat constructor).
  split; [reflexivity|]. split; [exact Hall|].
  exact (proj2 (proj2 (proj2 (proj2 clean_title_amended "The Man in the Moon")))
           [""; "man in "; "moon"] eq_refl Hall).
Defined.

(** ** The fuzzy loops *)

(** Both fuzzy loops keep the first candidate of maximal positive score
    among those an admission test lets through. *)
Section BestFold.

Variable eligible : Movie -> bool.
Variable score : Movie -> Z.

Lemma best_inv_step l st x :
  best_inv eligible score l st ->
  best_inv eligible score (l ++ [x]) (best_step eligible score st x).
Proof.
  unfold best_inv, best_step. destruct st as [[m|] hs]; cbn [fst snd].
  - intros (-> & Hpos & Hadm & l1 & l2 & -> & Hlt & Hle).
    destruct (eligible x) eqn:Hx; cbn [andb].
    + destruct (Z.ltb_spec (score m) (score x)) as [Hs|Hs]; cbn [fst snd].
      * repeat split; [lia|exact Hx|].
        exists (l1 ++ m :: l2), []. repeat split; [|intros ? []].
        intros m' Hin Hm'. apply in_app_or in Hin as [Hin|[<-|Hin]].
        -- specialize (Hlt _ Hin Hm'). lia.
        -- exact Hs.
        -- specialize (Hle _ Hin Hm'). lia.
      * repeat split; [exact Hpos|exact Hadm|].
        exists l1, (l2 ++ [x]). repeat split; [now rewrite <- app_assoc|exact Hlt|].
        intros m' Hin Hm'. apply in_app_or in Hin as [Hin|[<-|[]]]; auto.
    + cbn [fst snd]. repeat split; [exact Hpos|exact Hadm|].
      exists l1, (l2 ++ [x]). repeat split; [now rewrite <- app_assoc|exact Hlt|].
      intros m' Hin Hm'. apply in_app_or in Hin as [Hin|[<-|[]]]; auto.
      congruence.
  - intros (-> & Hall).
    destruct (eligible x) eqn:Hx; cbn [andb].
    + destruct (Z.ltb_spec 0 (score x)) as [Hs|Hs]; cbn [fst snd].
      * repeat split; [exact Hs|exact Hx|].
        exists l, []. repeat split; [|intros ? []].
        intros m' Hin Hm'. specialize (Hall _ Hin Hm'). lia.
      * split; [reflexivity|].
        intros m' Hin Hm'. apply in_app_or in Hin as [Hin|[<-|[]]]; auto.
    + cbn [fst snd]. split; [reflexivity|].
      intros m' Hin Hm'. apply in_app_or in Hin as [Hin|[<-|[]]]; auto.
      congruence.
Qed.

Lemma best_inv_fold l :
  best_inv eligible score l (fold_left (best_step eligible score) l (None, 0)).
Proof.
  induction l as [|x l IH] using rev_ind.
  - split; [reflexivity|]. intros ? [].
  - rewrite fold_left_app. cbn [fold_left]. now apply best_inv_step.
Qed.

(** A loop in which no candidate is eligible keeps its state. *)
Lemma best_fold_none l st :
  (forall m, In m l -> eligible m = false) ->
  fold_left (best_step eligible score) l st = st.
Proof.
  revert st. induction l as [|x l IH]; intros st H; [reflexivity|].
  cbn [fold_left]. unfold best_step at 2.
  rewrite (H x (or_introl eq_refl)). cbn [andb].
  apply IH. intros m Hm. apply H. now right.
Qed.

End BestFold.

(** ** The matchers *)

Section MatcherFacts.

Variable ratio : string -> string -> Z.

Lemma title_year_fold movies title year original_title st :
  fold_left (title_year_step ratio title year original_title) movies st =
  fold_left (best_step (year_is year) (entry_score ratio title original_title))
            movies st.
Proof. reflexivity. Qed.

Lemma title_fold movies title original_title st :
  fold_left (title_step ratio title original_title) movies st =
  fold_left (best_step (fun _ => true) (entry_score ratio title original_title))
            movies st.
Proof. reflexivity. Qed.

Lemma exact_title_year_In movies title year original_title m :
  exact_title_year movies title year original_title = Some m ->
  In m movies /\ str (Plex.year m) = year.
Proof.
  induction movies as [|x movies IH]; cbn [exact_title_year]; [discriminate|].
  destruct (_ && _)%bool eqn:E.
  - intros [= <-]. apply andb_prop in E as [_ E].
    apply String.eqb_eq in E. split; [now left|exact E].
  - intros H. destruct (IH H). split; [now right|assumption].
Qed.

Lemma year_is_empty m : year_is "" m = false.
Proof.
  unfold year_is. apply String.eqb_neq, str_nonempty.
Qed.

Lemma exact_title_year_no_year movies title original_title :
  exact_title_year movies title "" original_title = None.
Proof.
  induction movies as [|x movies IH]; [reflexivity|]. cbn [exact_title_year].
  fold (year_is "" x). now rewrite year_is_empty, andb_false_r.
Qed.

Lemma fuzzy_title_year_no_year movies title original_title :
  fuzzy_title_year ratio movies title "" original_title = None.
Proof.
  unfold fuzzy_title_year. rewrite title_year_fold, best_fold_none; [reflexivity|].
  intros m _. apply year_is_empty.
Qed.

Lemma find_movie_by_title_year_In movies title year original_title m :
  find_movie_by_title_year ratio movies title year original_title = Some m ->
  In m movies /\ str (Plex.year m) = year.
Proof.
  unfold find_movie_by_title_year.
  destruct (exact_title_year _ _ _ _) eqn:E.
  - intros [= <-]. eapply exact_title_year_In, E.
  - unfold fuzzy_title_year. rewrite title_year_fold.
    pose proof (best_inv_fold (year_is year)
                  (entry_score ratio title original_title) movies) as Inv.
    destruct (fold_left _ _ _) as [[b|] hs]; [|discriminate].
    destruct (_ <=? _); [|discriminate]. intros [= <-].
    destruct Inv as (_ & _ & Hy & l1 & l2 & -> & _). cbn [fst] in *.
    split; [apply in_elt | now apply String.eqb_eq].
Qed.

(** The title-only loop returns the first candidate of maximal score, when
    that score reaches the threshold. *)
Lemma find_movie_by_title_best movies title original_title m :
  find_movie_by_title ratio movies title original_title = Some m ->
  TITLE_ONLY_MATCH_RATIO <= entry_score ratio title original_title m /\
  exists l1 l2, movies = l1 ++ m :: l2 /\
    (forall m', In m' l1 ->
       entry_score ratio title original_title m'
       < entry_score ratio title original_title m) /\
    (forall m', In m' l2 ->
       entry_score ratio title original_title m'
       <= entry_score ratio title original_title m).
Proof.
  unfold find_movie_by_title. rewrite title_fold.
  pose proof (best_inv_fold (fun _ => true)
                (entry_score ratio title original_title) movies) as Inv.
  destruct (fold_left _ _ _) as [[b|] hs]; [|discriminate].
  destruct (Z.leb_spec TITLE_ONLY_MATCH_RATIO hs); [|discriminate]. intros [= <-].
  destruct Inv as (Hs & _ & _ & l1 & l2 & -> & Hlt & Hle). cbn [fst snd] in *.
  split; [lia|]. exists l1, l2. split; [reflexivity|]. split; eauto.
Qed.

(** The fuzzy branch finds a movie as soon as a candidate of the year
    reaches the threshold. *)
Lemma fuzzy_title_year_finds movies title year original_title m' :
  In m' movies -> str (Plex.year m') = year ->
  TITLE_YEAR_MATCH_RATIO <= current_score ratio m' title original_title ->
  exists m, fuzzy_title_year ratio movies title year original_title = Some m.
Proof.
  intros Hin Hy Hs. unfold fuzzy_title_year. rewrite title_year_fold.
  pose proof (best_inv_fold (year_is year)
                (entry_score ratio title original_title) movies) as Inv.
  assert (Hy' : year_is year m' = true) by now apply String.eqb_eq.
  unfold TITLE_YEAR_MATCH_RATIO in *.
  destruct (fold_left _ _ _) as [[b|] hs].
  - destruct Inv as (Hhs & _ & _ & l1 & l2 & -> & Hlt & Hle).
    cbn [fst snd] in Hhs. subst hs.
    assert (entry_score ratio title original_title m'
            <= entry_score ratio title original_title b) as Hmax.
    { apply in_app_or in Hin as [Hin|[<-|Hin]];
        [specialize (Hlt _ Hin Hy'); lia | lia | now apply Hle]. }
    unfold entry_score in Hmax.
    destruct (Z.leb_spec 85 (entry_score ratio title original_title b)) as [|Hlow];
      [eauto|]. unfold entry_score in Hlow. lia.
  - destruct Inv as (_ & Hall). specialize (Hall _ Hin Hy').
    unfold entry_score in Hall. lia.
Qed.

End MatcherFacts.

(** C5: whatever the fuzzy branch of the title and year tier returns is a
    candidate whose year prints as the year of the entry; its score, the
    larger of the title score and the original-title score on normalized
    titles, is at least 85 and maximal among the candidates of that year;
    every candidate of that year that stands before it in the library
    scores strictly less.  A candidate of another year is never returned,
    whatever its score. *)
Theorem fuzzy_title_year_best (ratio : string -> string -> Z)
    (movies : list Movie) (title year original_title : string) (m : Movie) :
  fuzzy_title_year ratio movies title year original_title = Some m ->
  str (Plex.year m) = year /\
  TITLE_YEAR_MATCH_RATIO <= current_score ratio m title original_title /\
  exists l1 l2 : list Movie, movies = l1 ++ m :: l2 /\
    (forall m', In m' l1 -> str (Plex.year m') = year ->
       current_score ratio m' title original_title
       < current_score ratio m title original_title) /\
    (forall m', In m' l2 -> str (Plex.year m') = year ->
       current_score ratio m' title original_title
       <= current_score ratio m title original_title).
Proof.
  unfold fuzzy_title_year. rewrite title_year_fold.
  pose proof (best_inv_fold (fun m => String.eqb (str (Plex.year m)) year)
                (fun m => current_score ratio m title original_title) movies) as Inv.
  destruct (fold_left _ _ _) as [[b|] hs]; [|discriminate].
  destruct (Z.leb_spec TITLE_YEAR_MATCH_RATIO hs); [|discriminate]. intros [= <-].
  destruct Inv as (Hs & _ & Hy & l1 & l2 & -> & Hlt & Hle). cbn [fst snd] in *.
  split; [now apply String.eqb_eq|]. split; [lia|].
  exists l1, l2. split; [reflexivity|].
  split; intros m' Hin Hm'; [apply Hlt|apply Hle]; auto; now apply String.eqb_eq.
Qed.

(** The candidate of 2012 has the title of the entry and scores 100, the
    candidate of 2002 scores 89: the entry of 2002 gets the latter. *)
Lemma fuzzy_title_year_best_witness :
  let movies := [Demo.spiderman_2012; Demo.spidermen_2002] in
  fuzzy_title_year indel_ratio movies "Spiderman" "2002" ""
  = Some Demo.spidermen_2002 /\
  current_score indel_ratio Demo.spiderman_2012 "Spiderman" "" = 100 /\
  current_score indel_ratio Demo.spidermen_2002 "Spiderman" "" = 89 /\
  str (Plex.year Demo.spidermen_2002) = "2002" /\
  TITLE_YEAR_MATCH_RATIO
  <= current_score indel_ratio Demo.spidermen_2002 "Spiderman" "".
Proof.
  intros movies. split; [reflexivity|]. split; [reflexivity|].
  split; [reflexivity|].
  destruct (fuzzy_title_year_best indel_ratio movies "Spiderman" "2002" ""
              Demo.spidermen_2002 eq_refl) as (Hy & Hs & _).
  split; [exact Hy|exact Hs].
Defined.

(** ** The cascade *)

Section CascadeFacts.

Variable ratio : string -> string -> Z.

Lemma find_movie_by_title_year_no_year movies title original_title :
  find_movie_by_title_year ratio movies title "" original_title = None.
Proof.
  unfold find_movie_by_title_year.
  now rewrite exact_title_year_no_year, fuzzy_title_year_no_year.
Qed.

Lemma match_cascade_total imdb_map all_movies imdb_id title year original_title :
  year = "" \/ (exists y, int year = Some y) ->
  exists r, match_cascade ratio imdb_map all_movies imdb_id title year
                          original_title = Ok r.
Proof.
  intros Hy. unfold match_cascade.
  destruct (imdb_map !! imdb_id); [eauto|].
  destruct (find_movie_by_title_year _ _ _ _ _); [eauto|].
  destruct (find_movie_by_title _ _ _ _); [|eauto].
  destruct Hy as [->|[y Hy]]; [eauto|].
  rewrite Hy. destruct year; [eauto|]. destruct (_ <? _); eauto.
Qed.

End CascadeFacts.

(** C10: an entry without a year gets nothing from the title and year
    tier, because the year of a library movie never prints as the empty
    string; its cascade is the identifier index followed by the title-only
    tier, whose check of the year is skipped. *)
Theorem no_year_skips_title_year (ratio : string -> string -> Z)
    (imdb_map : gmap string Movie) (all_movies : list Movie)
    (imdb_id title original_title : string) :
  (forall m : Movie, str (Plex.year m) <> "") /\
  exact_title_year all_movies title "" original_title = None /\
  fuzzy_title_year ratio all_movies title "" original_title = None /\
  find_movie_by_title_year ratio all_movies title "" original_title = None /\
  match_cascade ratio imdb_map all_movies imdb_id title "" original_title =
  match imdb_map !! imdb_id with
  | Some m => Ok (Some m, "IMDB ID")
  | None =>
      match find_movie_by_title ratio all_movies title original_title with
      | Some m => Ok (Some m, "Title Only Fuzzy Match")
      | None => Ok (None, "")
      end
  end.
Proof.
  split; [intros m; apply str_nonempty|].
  split; [apply exact_title_year_no_year|].
  split; [apply fuzzy_title_year_no_year|].
  split; [apply find_movie_by_title_year_no_year|].
  unfold match_cascade. now rewrite find_movie_by_title_year_no_year.
Qed.

(** ** The first loop *)

Section FirstPass.

Variable ratio : string -> string -> Z.
Variable all_movies : list Movie.
Variable imdb_map : gmap string Movie.
Variable existing : gmap (Z + string) Movie.
Variable url_column : string.

Lemma classify_row_verdict st row :
  classify_row ratio all_movies imdb_map existing url_column st row =
  (v <-- verdict ratio all_movies imdb_map existing url_column row ;;
   Ok (apply_verdict st v)).
Proof.
  unfold classify_row, verdict, row_url, row_title, row_year, row_original_title,
    fresh_item, already_in_collection.
  destruct (find_imdb_id _) as [imdb_id|]; [|reflexivity].
  destruct (match_cascade _ _ _ _ _ _ _) as [[[m|] method]|e]; cbn [bind];
    [|reflexivity|reflexivity].
  destruct (is_key (inl _) _); [reflexivity|].
  destruct (is_key (inr _) _); reflexivity.
Qed.

Lemma for_each_classify rows st :
  for_each (classify_row ratio all_movies imdb_map existing url_column) rows st =
  (vs <-- verdicts (verdict ratio all_movies imdb_map existing url_column) rows ;;
   Ok (fold_left apply_verdict vs st)).
Proof.
  revert st. induction rows as [|row rows IH]; intros st; [reflexivity|].
  cbn [for_each verdicts]. rewrite classify_row_verdict.
  destruct (verdict _ _ _ _ _ row) as [v|e]; [|reflexivity]. cbn [bind].
  rewrite IH. now destruct (verdicts _ rows).
Qed.

Lemma verdict_total row :
  year_readable row ->
  exists v, verdict ratio all_movies imdb_map existing url_column row = Ok v.
Proof.
  intros Hy. unfold verdict.
  destruct (find_imdb_id _) as [imdb_id|]; [|eauto].
  destruct (match_cascade_total ratio imdb_map all_movies imdb_id (row_title row)
              (row_year row) (row_original_title row) Hy) as [[[m|] method] ->];
    cbn [bind]; [|eauto].
  destruct (already_in_collection _ _ _); eauto.
Qed.

Lemma verdict_entry row v :
  verdict ratio all_movies imdb_map existing url_column row = Ok v ->
  item_entry (verdict_item v) = row_entry url_column row.
Proof.
  unfold verdict.
  destruct (find_imdb_id _) as [imdb_id|]; [|now intros [= <-]].
  destruct (match_cascade _ _ _ _ _ _ _) as [[[m|] method]|e]; cbn [bind];
    [|now intros [= <-]|discriminate].
  destruct (already_in_collection _ _ _); now intros [= <-].
Qed.

(** A queued movie was matched by the cascade and is not in the
    collection; its record is still the fresh one. *)
Lemma verdict_to_add row m item method :
  verdict ratio all_movies imdb_map existing url_column row
  = Ok (ToAdd m item method) <->
  exists imdb_id,
    find_imdb_id (row_url url_column row) = Some imdb_id /\
    match_cascade ratio imdb_map all_movies imdb_id (row_title row) (row_year row)
                  (row_original_title row) = Ok (Some m, method) /\
    already_in_collection existing m imdb_id = false /\
    item = fresh_item url_column row.
Proof.
  unfold verdict. split.
  - destruct (find_imdb_id _) as [imdb_id|]; [|discriminate].
    destruct (match_cascade _ _ _ _ _ _ _) as [[[m0|] method0]|e] eqn:Ec;
      cbn [bind]; [|discriminate|discriminate].
    destruct (already_in_collection _ _ _) eqn:E; [discriminate|].
    intros [= <- <- <-]. exists imdb_id. repeat split; assumption.
  - intros (imdb_id & -> & -> & Hm & ->). cbn [bind]. now rewrite Hm.
Qed.

End FirstPass.

Section VerdictLists.

Variable f : gmap string string -> result Verdict.

Lemma verdicts_Forall2 rows vs :
  verdicts f rows = Ok vs -> Forall2 (fun row v => f row = Ok v) rows vs.
Proof.
  revert vs. induction rows as [|row rows IH]; intros vs; cbn [verdicts].
  - intros [= <-]. constructor.
  - destruct (f row) as [v|] eqn:Ev; [|discriminate]. cbn [bind].
    destruct (verdicts f rows) as [vs'|]; [|discriminate]. cbn [bind].
    intros [= <-]. constructor; auto.
Qed.

Lemma verdicts_total rows :
  (forall row, In row rows -> exists v, f row = Ok v) ->
  exists vs, verdicts f rows = Ok vs.
Proof.
  induction rows as [|row rows IH]; intros H; cbn [verdicts]; [eauto|].
  destruct (H row (or_introl eq_refl)) as [v ->]. cbn [bind].
  destruct IH as [vs ->]; [intros; apply H; now right|]. cbn [bind]. eauto.
Qed.

Lemma Forall2_filter_rows (P : Verdict -> bool) rows vs :
  Forall2 (fun row v => f row = Ok v) rows vs ->
  Forall2 (fun row v => f row = Ok v)
          (List.filter (row_is f P) rows) (List.filter P vs).
Proof.
  induction 1 as [|row v rows vs Hrow _ IH]; [constructor|].
  cbn [List.filter]. unfold row_is at 1. rewrite Hrow.
  destruct (P v); [constructor|]; auto.
Qed.

Lemma Forall2_flat_calls rows vs :
  Forall2 (fun row v => f row = Ok v) rows vs ->
  flat_map verdict_call vs = flat_map (row_call f) rows.
Proof.
  induction 1 as [|row v rows vs Hrow _ IH]; [reflexivity|].
  cbn [flat_map]. unfold row_call at 1. now rewrite Hrow, IH.
Qed.

End VerdictLists.

Lemma flat_calls_filter vs :
  flat_map verdict_call vs = flat_map verdict_call (List.filter is_to_add vs).
Proof.
  induction vs as [|v vs IH]; [reflexivity|].
  destruct v; cbn [flat_map List.filter is_to_add verdict_call app]; now rewrite IH.
Qed.

Lemma verdict_partition vs :
  length vs =
  (length (List.filter is_to_add vs) + length (List.filter is_already_member vs)
   + length (List.filter is_unmatched vs))%nat.
Proof.
  induction vs as [|v vs IH]; [reflexivity|].
  destruct v; cbn [List.filter is_to_add is_already_member is_unmatched length]; lia.
Qed.

Lemma verdict_partition_terminal vs :
  length (List.filter (fun v => negb (is_to_add v)) vs) =
  (length (List.filter is_already_member vs)
   + length (List.filter is_unmatched vs))%nat.
Proof.
  induction vs as [|v vs IH]; [reflexivity|].
  destruct v;
    cbn [List.filter is_to_add is_already_member is_unmatched length negb]; lia.
Qed.

(** What the first loop has accumulated after the verdicts [vs]. *)
Lemma apply_verdicts vs st :
  let st' := fold_left apply_verdict vs st in
  report_data st' =
    report_data st
    ++ map verdict_item (List.filter (fun v => negb (is_to_add v)) vs) /\
  map pending_verdict (ordered_movies st') =
    map pending_verdict (ordered_movies st) ++ List.filter is_to_add vs /\
  skipped_count st' =
    (skipped_count st + length (List.filter is_already_member vs))%nat /\
  missing_count st' =
    (missing_count st + length (List.filter is_unmatched vs))%nat.
Proof.
  revert st. induction vs as [|v vs IH]; intros st.
  - cbn. rewrite !app_nil_r. repeat split; lia.
  - cbn [fold_left]. destruct (IH (apply_verdict st v)) as (Hr & Ho & Hs & Hm).
    cbv zeta. rewrite Hr, Ho, Hs, Hm.
    destruct v;
      cbn [apply_verdict report_data ordered_movies skipped_count missing_count
           List.filter is_to_add is_already_member is_unmatched negb map verdict_item
           length];
      rewrite ?map_app, <- ?app_assoc; cbn [map app pending_verdict movie
        report_item match_method]; repeat split; lia.
Qed.

(** ** The second loop and the whole run *)

Section RunFacts.

Variable ratio : string -> string -> Z.
Variable Service : Type.
Variable requests_put : Service -> Z -> Z -> option Z * Service.

(** What the second loop adds to its state while it goes through [pend]:
    one call and one record for each element, in the order of [pend]. *)
Lemma commit_fold pend st :
  let st' := fold_left (commit_item Service requests_put) pend st in
  exists calls items,
    p2_calls _ st' = p2_calls _ st ++ calls /\
    p2_report _ st' = p2_report _ st ++ items /\
    map call_args calls = flat_map verdict_call (map pending_verdict pend) /\
    map item_entry items =
      map (fun v => item_entry (verdict_item v)) (map pending_verdict pend) /\
    map ri_status items = map commit_status calls /\
    p2_added _ st' = (p2_added _ st + length (List.filter call_success calls))%nat /\
    p2_missing _ st' =
      (p2_missing _ st
       + length (List.filter (fun c => negb (call_success c)) calls))%nat.
Proof.
  revert st. induction pend as [|p pend IH]; intros st.
  - exists [], []. cbn. rewrite !app_nil_r. repeat split; lia.
  - cbn [fold_left].
    destruct (IH (commit_item Service requests_put st p))
      as (calls & items & Hc & Hr & Ha & He & Hs & Hadd & Hmiss).
    cbv zeta. rewrite Hc, Hr, Hadd, Hmiss. clear IH Hc Hr Hadd Hmiss.
    unfold commit_item, add_collection.
    destruct (requests_put _ _ _) as [response svc'].
    set (success := match response with
                    | Some status_code => status_code =? 200
                    | None => false
                    end).
    destruct success eqn:Hok;
      cbn [p2_calls p2_report p2_added p2_missing];
      eexists (_ :: calls), (_ :: items);
      rewrite <- !app_assoc; cbn [app];
      (split; [reflexivity|]); (split; [reflexivity|]);
      cbn [map flat_map List.filter call_success negb pending_verdict
           verdict_call verdict_item app call_args call_library_key
           call_rating_key call_movie_title item_entry ri_title ri_year
           ri_original_title ri_imdb_id ri_status commit_status length];
      rewrite Ha, He, Hs; repeat split; lia.
Qed.

Lemma reconcile_total fieldnames rows all_movies collection_items svc :
  (forall row, In row rows -> year_readable row) ->
  exists out svc',
    reconcile ratio Service requests_put fieldnames rows all_movies
              collection_items svc = Ok (out, svc').
Proof.
  intros Hy. unfold reconcile. rewrite for_each_classify.
  destruct (verdicts_total
              (verdict ratio all_movies (build_imdb_map all_movies)
                 (find_existing_collection_items collection_items)
                 (choose_url_column fieldnames)) rows) as [vs ->].
  - intros row Hin. apply verdict_total, Hy, Hin.
  - cbn [bind]. eauto.
Qed.

(** The outcome of a run in terms of the verdicts of its rows. *)
Lemma reconcile_verdicts fieldnames rows all_movies collection_items svc out svc' :
  reconcile ratio Service requests_put fieldnames rows all_movies
            collection_items svc = Ok (out, svc') ->
  exists vs items,
    verdicts (verdict ratio all_movies (build_imdb_map all_movies)
                (find_existing_collection_items collection_items)
                (choose_url_column fieldnames)) rows = Ok vs /\
    out_report out =
      map verdict_item (List.filter (fun v => negb (is_to_add v)) vs) ++ items /\
    map item_entry items =
      map (fun v => item_entry (verdict_item v)) (List.filter is_to_add vs) /\
    map ri_status items = map commit_status (out_calls out) /\
    map call_args (out_calls out) = flat_map verdict_call vs /\
    out_added out = length (List.filter call_success (out_calls out)) /\
    out_skipped out = length (List.filter is_already_member vs) /\
    out_missing out =
      (length (List.filter is_unmatched vs)
       + length (List.filter (fun c => negb (call_success c)) (out_calls out)))%nat.
Proof.
  unfold reconcile. rewrite for_each_classify.
  destruct (verdicts _ rows) as [vs|e]; [|discriminate]. cbn [bind].
  match goal with
  | |- context [fold_left apply_verdict vs ?s] =>
      destruct (apply_verdicts vs s) as (Hr & Ho & Hs & Hm)
  end.
  cbn [report_data ordered_movies skipped_count missing_count map app]
    in Hr, Ho, Hs, Hm.
  match goal with
  | |- context [fold_left (commit_item _ _) ?pend ?s] =>
      destruct (commit_fold pend s)
        as (calls & items & Hc & Hrep & Ha & He & Hst & Hadd & Hmiss)
  end.
  cbn [p2_calls p2_report p2_added p2_missing app] in Hc, Hrep, Hadd, Hmiss.
  intros [= <- _]. cbn [out_report out_added out_skipped out_missing out_calls].
  exists vs, items. rewrite Hrep, Hc, Hadd, Hmiss, Hr, Hs, Hm.
  split; [reflexivity|]. split; [reflexivity|].
  split; [now rewrite He, Ho|]. split; [exact Hst|].
  split; [now rewrite Ha, Ho, <- flat_calls_filter|].
  repeat split; lia.
Qed.

End RunFacts.

Section RunTheorems.

Variable ratio : string -> string -> Z.
Variable Service : Type.
Variable requests_put : Service -> Z -> Z -> option Z * Service.

Lemma run_imdb_list_reads w svc fieldnames rows all_movies :
  reads w fieldnames rows all_movies ->
  run_imdb_list ratio Service requests_put w svc =
  reconcile ratio Service requests_put fieldnames rows all_movies
            (collection_search w) svc.
Proof.
  intros (Hc & Hcsv & Hlib). unfold run_imdb_list. now rewrite Hc, Hcsv, Hlib.
Qed.

Lemma run_imdb_list_total w svc fieldnames rows all_movies :
  reads w fieldnames rows all_movies ->
  (forall row, In row rows -> year_readable row) ->
  exists out svc', run_imdb_list ratio Service requests_put w svc = Ok (out, svc').
Proof.
  intros Hw Hy. rewrite (run_imdb_list_reads _ _ _ _ _ Hw).
  now apply reconcile_total.
Qed.

Lemma run_imdb_list_verdicts w svc fieldnames rows all_movies out svc' :
  reads w fieldnames rows all_movies ->
  run_imdb_list ratio Service requests_put w svc = Ok (out, svc') ->
  exists vs items,
    Forall2 (fun row v => run_verdict ratio w fieldnames all_movies row = Ok v)
            rows vs /\
    out_report out =
      map verdict_item (List.filter (fun v => negb (is_to_add v)) vs) ++ items /\
    map item_entry items =
      map (fun v => item_entry (verdict_item v)) (List.filter is_to_add vs) /\
    map ri_status items = map commit_status (out_calls out) /\
    map call_args (out_calls out) = flat_map verdict_call vs /\
    out_added out = length (List.filter call_success (out_calls out)) /\
    out_skipped out = length (List.filter is_already_member vs) /\
    out_missing out =
      (length (List.filter is_unmatched vs)
       + length (List.filter (fun c => negb (call_success c)) (out_calls out)))%nat.
Proof.
  intros Hw. rewrite (run_imdb_list_reads _ _ _ _ _ Hw). intros Hrun.
  destruct (reconcile_verdicts _ _ _ _ _ _ _ _ _ _ Hrun) as (vs & items & Hvs & H).
  exists vs, items. split; [|exact H]. now apply verdicts_Forall2.
Qed.

End RunTheorems.

Lemma verdict_status ratio all_movies imdb_map existing url_column row v :
  verdict ratio all_movies imdb_map existing url_column row = Ok v ->
  ri_status (verdict_item v) =
  match v with
  | NoIdentifier _ => "ERROR: No IMDB ID found"
  | NotFound _ => "MISSING: Not found in Plex library"
  | AlreadyMember _ => "SKIPPED:"
  | ToAdd _ _ _ => ""
  end.
Proof.
  unfold verdict.
  destruct (find_imdb_id _) as [imdb_id|]; [|now intros [= <-]].
  destruct (match_cascade _ _ _ _ _ _ _) as [[[m|] method]|e]; cbn [bind];
    [|now intros [= <-]|discriminate].
  destruct (already_in_collection _ _ _); now intros [= <-].
Qed.

Lemma Forall2_entries ratio all_movies imdb_map existing url_column rows vs :
  Forall2 (fun row v => verdict ratio all_movies imdb_map existing url_column row
                        = Ok v) rows vs ->
  map (fun v => item_entry (verdict_item v)) vs = map (row_entry url_column) rows.
Proof.
  induction 1 as [|row v rows vs Hrow _ IH]; [reflexivity|].
  cbn [map]. now rewrite IH, (verdict_entry _ _ _ _ _ _ _ Hrow).
Qed.

Lemma Forall2_same_length {A B} (R : A -> B -> Prop) l1 l2 :
  Forall2 R l1 l2 -> length l1 = length l2.
Proof. induction 1; cbn [length]; congruence. Qed.

Lemma Forall2_In_right {A B} (R : A -> B -> Prop) l1 l2 y :
  Forall2 R l1 l2 -> In y l2 -> exists x, In x l1 /\ R x y.
Proof.
  induction 1 as [|a b l1 l2 Hab _ IH]; intros Hin; [destruct Hin|].
  destruct Hin as [<-|Hin].
  - exists a. split; [now left|assumption].
  - destruct (IH Hin) as (x & Hx & Hr). exists x. split; [now right|assumption].
Qed.

Lemma filter_split_length {A} (p : A -> bool) (l : list A) :
  (length (List.filter p l) + length (List.filter (fun x => negb (p x)) l))%nat
  = length l.
Proof.
  induction l as [|x l IH]; [reflexivity|].
  cbn [List.filter]. destruct (p x); cbn [negb length]; lia.
Qed.

Lemma flat_calls_length vs :
  length (flat_map verdict_call vs) = length (List.filter is_to_add vs).
Proof.
  induction vs as [|v vs IH]; [reflexivity|].
  destruct v; cbn [flat_map verdict_call List.filter is_to_add app length]; lia.
Qed.

Lemma map_same_length {A B C} (f : A -> C) (g : B -> C) l1 l2 :
  map f l1 = map g l2 -> length l1 = length l2.
Proof.
  intros H. apply (f_equal (@length C)) in H. now rewrite !length_map in H.
Qed.

(** ** The service with a recorder *)

Section RecorderFacts.

Variable ratio : string -> string -> Z.
Variable Service : Type.
Variable requests_put : Service -> Z -> Z -> option Z * Service.

(** The second loop on the service with its recorder: the loop does what
    it does on the service alone, and the recorder receives the request of
    every queued movie, in the order of the queue. *)
Lemma commit_recorded pend st received :
  fold_left (commit_item (Service * list (Z * Z))
               (recording_put Service requests_put))
            pend (with_recorder Service st received) =
  with_recorder Service
    (fold_left (commit_item Service requests_put) pend st)
    (received
     ++ map call_request (flat_map verdict_call (map pending_verdict pend))).
Proof.
  revert st received. induction pend as [|p pend IH]; intros st received.
  - cbn. now rewrite app_nil_r.
  - cbn [fold_left map flat_map pending_verdict verdict_call app].
    assert (Hstep : commit_item (Service * list (Z * Z))
                      (recording_put Service requests_put)
                      (with_recorder Service st received) p =
                    with_recorder Service (commit_item Service requests_put st p)
                      (received
                       ++ [(Plex.librarySectionID (movie p),
                            Plex.ratingKey (movie p))])).
    { unfold commit_item, add_collection, recording_put.
      cbn [with_recorder p2_service fst snd].
      destruct (requests_put _ _ _) as [response svc'].
      destruct (match response with
                | Some status_code => status_code =? 200
                | None => false
                end); reflexivity. }
    rewrite Hstep, IH. cbn [map call_request fst snd]. now rewrite <- app_assoc.
Qed.

Lemma run_recorded w svc received :
  run_imdb_list ratio (Service * list (Z * Z)) (recording_put Service requests_put)
                w (svc, received) =
  match run_imdb_list ratio Service requests_put w svc with
  | Ok (out, svc') =>
      Ok (out, (svc', received ++ map call_request (map call_args (out_calls out))))
  | Raise e => Raise e
  end.
Proof.
  unfold run_imdb_list.
  destruct (plex_connects w); [|cbn; now rewrite app_nil_r].
  destruct (csv_file w) as [[fieldnames rows]|]; [|cbn; now rewrite app_nil_r].
  destruct (library_all w) as [all_movies|]; [|cbn; now rewrite app_nil_r].
  unfold reconcile. destruct (for_each _ rows _) as [st1|e]; [|reflexivity].
  cbn [bind].
  change {| p2_service := (svc, received); p2_report := report_data st1;
            p2_added := 0; p2_missing := missing_count st1; p2_calls := [] |}
    with (with_recorder Service
            {| p2_service := svc; p2_report := report_data st1; p2_added := 0;
               p2_missing := missing_count st1; p2_calls := [] |} received).
  rewrite commit_recorded.
  match goal with
  | |- context [fold_left (commit_item Service requests_put) ?pend ?s] =>
      destruct (commit_fold Service requests_put pend s)
        as (calls & items & Hc & _ & Ha & _)
  end.
  cbn [p2_calls app] in Hc.
  cbn [with_recorder p2_service p2_report p2_added p2_missing p2_calls out_calls].
  now rewrite Hc, Ha.
Qed.

(** A run raises only in its first loop. *)
Lemma run_raises_first_loop w svc fieldnames rows all_movies e :
  reads w fieldnames rows all_movies ->
  run_imdb_list ratio Service requests_put w svc = Raise e ->
  for_each (classify_row ratio all_movies (build_imdb_map all_movies)
              (find_existing_collection_items (collection_search w))
              (choose_url_column fieldnames))
           rows pass1_start = Raise e.
Proof.
  intros Hw. rewrite (run_imdb_list_reads _ _ _ _ _ _ _ _ Hw).
  unfold reconcile, pass1_start.
  destruct (for_each _ rows _) as [st1|e']; cbn [bind]; [discriminate|].
  now intros [= ->].
Qed.

End RecorderFacts.

(** ** The report *)

(** C1, as stated, fails: with a first entry that is added and a second
    one without identifier, the report lists the second entry first. *)
Lemma report_not_in_source_order :
  let rows := [Demo.row_arrival; Demo.row_arrival_no_id] in
  exists out svc',
    Demo.run (Demo.world rows [Demo.arrival] []) [] = Ok (out, svc') /\
    map ri_status (out_report out) = ["ERROR: No IMDB ID found"; "ADDED:"] /\
    map item_entry (out_report out) <> map (row_entry "URL") rows.
Proof.
  intros rows. eexists _, _. split; [vm_compute; reflexivity|].
  split; [reflexivity|]. vm_compute. discriminate.
Qed.

(** C1, amended: a run whose reads succeed returns its report whenever the
    years of the rows are empty or integers, and the report it returns has
    exactly one record for each row: first the records of the rows that
    the first loop settled (no identifier, not found, already in the
    collection), in the order of the rows, then the records of the rows
    that were queued for addition (added, or failed in the call), again in
    the order of the rows. *)
Theorem report_is_partitioned (ratio : string -> string -> Z) (Service : Type)
    (requests_put : Service -> Z -> Z -> option Z * Service)
    (w : World) (svc : Service) (fieldnames : list string)
    (rows : list (gmap string string)) (all_movies : list Movie) :
  reads w fieldnames rows all_movies ->
  let f := run_verdict ratio w fieldnames all_movies in
  let url_column := choose_url_column fieldnames in
  ((forall row, In row rows -> year_readable row) ->
   exists out svc',
     run_imdb_list ratio Service requests_put w svc = Ok (out, svc')) /\
  (forall out svc',
     run_imdb_list ratio Service requests_put w svc = Ok (out, svc') ->
     length (out_report out) = length rows /\
     exists settled committed,
       out_report out = settled ++ committed /\
       map item_entry settled =
         map (row_entry url_column)
             (List.filter (row_is f (fun v => negb (is_to_add v))) rows) /\
       map item_entry committed =
         map (row_entry url_column) (List.filter (row_is f is_to_add) rows) /\
       Forall (fun item =>
                 ri_status item = "ERROR: No IMDB ID found" \/
                 ri_status item = "MISSING: Not found in Plex library" \/
                 ri_status item = "SKIPPED:") settled /\
       Forall (fun item => ri_status item = "ADDED:" \/ ri_status item = "ERROR:")
              committed).
Proof.
  intros Hw f url_column.
  split; [exact (run_imdb_list_total _ _ _ _ _ _ _ _ Hw)|].
  intros out svc' Hrun.
  destruct (run_imdb_list_verdicts _ _ _ _ _ _ _ _ _ _ Hw Hrun)
    as (vs & items & Hvs & Hrep & Hent & Hst & Hargs & _).
  pose proof (Forall2_filter_rows _ (fun v => negb (is_to_add v)) _ _ Hvs) as Hset.
  pose proof (Forall2_filter_rows _ is_to_add _ _ Hvs) as Hadd.
  split.
  - pose proof (map_same_length _ _ _ _ Hent) as Hl1.
    pose proof (filter_split_length is_to_add vs) as Hl2.
    pose proof (Forall2_same_length _ _ _ Hvs) as Hl3.
    rewrite Hrep, length_app, length_map. lia.
  - exists (map verdict_item (List.filter (fun v => negb (is_to_add v)) vs)), items.
    split; [exact Hrep|]. split; [|split; [|split]].
    + rewrite map_map. exact (Forall2_entries _ _ _ _ _ _ _ Hset).
    + rewrite Hent. exact (Forall2_entries _ _ _ _ _ _ _ Hadd).
    + apply List.Forall_forall. intros item Hin.
      apply in_map_iff in Hin as (v & <- & Hv).
      apply filter_In in Hv as [Hv Hna].
      destruct (Forall2_In_right _ _ _ _ Hvs Hv) as (row & _ & Hrow).
      rewrite (verdict_status _ _ _ _ _ _ _ Hrow).
      destruct v; cbn in Hna; auto. discriminate.
    + apply List.Forall_forall. intros item Hin.
      apply (in_map ri_status) in Hin. rewrite Hst in Hin.
      apply in_map_iff in Hin as (c & <- & _). unfold commit_status.
      destruct (call_success c); auto.
Qed.

Lemma report_is_partitioned_witness :
  let rows := [Demo.row_arrival; Demo.row_arrival_no_id] in
  let w := Demo.world rows [Demo.arrival] [] in
  reads w Demo.fieldnames rows [Demo.arrival] /\
  exists out,
    Demo.run w [] = Ok (out, []) /\
    length (out_report out) = length rows /\
    map ri_status (out_report out) = ["ERROR: No IMDB ID found"; "ADDED:"].
Proof.
  intros rows w.
  assert (Hw : reads w Demo.fieldnames rows [Demo.arrival]) by (repeat split).
  split; [exact Hw|]. eexists. split; [vm_compute; reflexivity|].
  split; [|reflexivity].
  refine (proj1 (proj2 (report_is_partitioned indel_ratio _ scripted_put w []
                          _ _ _ Hw) _ _ _)).
  vm_compute; reflexivity.
Defined.

(** ** The counters *)

(** C2, as stated, fails: the second row below reaches the check of the
    year with the year "2021?", [int] raises, and the run ends without a
    report and without counters, after a first row that was matched. *)
Lemma no_summary_when_run_raises :
  let row := Demo.csv_row "https://www.imdb.com/title/tt1160419/" "Dune"
                          "2021?" "" in
  let rows := [Demo.row_arrival; row] in
  let movies := [Demo.arrival; Demo.dune_1984] in
  let w := Demo.world rows movies [] in
  reads w Demo.fieldnames rows movies /\
  Demo.run w [] = Raise ValueError /\
  ~ (exists out svc',
       Demo.run w [] = Ok (out, svc') /\
       (out_added out + out_skipped out + out_missing out)%nat = length rows).
Proof.
  intros row rows movies w. split; [repeat split|].
  assert (H : Demo.run w [] = Raise ValueError) by (vm_compute; reflexivity).
  split; [exact H|]. intros (out & svc' & Hrun & _). congruence.
Qed.

(** C2, amended: a run whose reads succeed returns whenever the years of
    the rows are empty or integers, and when it returns the three counters
    add up to the number of rows, as does the number of records:
    [skipped_count] counts the rows found in the collection, [added_count]
    the calls that succeeded, and [missing_count] the rows without
    identifier or without match together with the calls that failed; every
    queued row has its call. *)
Theorem counters_sum_to_rows (ratio : string -> string -> Z) (Service : Type)
    (requests_put : Service -> Z -> Z -> option Z * Service)
    (w : World) (svc : Service) (fieldnames : list string)
    (rows : list (gmap string string)) (all_movies : list Movie) :
  reads w fieldnames rows all_movies ->
  let f := run_verdict ratio w fieldnames all_movies in
  ((forall row, In row rows -> year_readable row) ->
   exists out svc',
     run_imdb_list ratio Service requests_put w svc = Ok (out, svc')) /\
  (forall out svc',
     run_imdb_list ratio Service requests_put w svc = Ok (out, svc') ->
     (out_added out + out_skipped out + out_missing out)%nat = length rows /\
     length (out_report out) = length rows /\
     out_added out = length (List.filter call_success (out_calls out)) /\
     out_skipped out = length (List.filter (row_is f is_already_member) rows) /\
     out_missing out =
       (length (List.filter (row_is f is_unmatched) rows)
        + length (List.filter (fun c => negb (call_success c)) (out_calls out)))%nat /\
     length (out_calls out) = length (List.filter (row_is f is_to_add) rows)).
Proof.
  intros Hw f.
  split; [exact (run_imdb_list_total _ _ _ _ _ _ _ _ Hw)|].
  intros out svc' Hrun.
  destruct (run_imdb_list_verdicts _ _ _ _ _ _ _ _ _ _ Hw Hrun)
    as (vs & items & Hvs & Hrep & Hent & Hst & Hargs & Hadd & Hskip & Hmiss).
  pose proof (Forall2_same_length _ _ _
                (Forall2_filter_rows _ is_to_add _ _ Hvs)) as Ha.
  pose proof (Forall2_same_length _ _ _
                (Forall2_filter_rows _ is_already_member _ _ Hvs)) as Hs.
  pose proof (Forall2_same_length _ _ _
                (Forall2_filter_rows _ is_unmatched _ _ Hvs)) as Hu.
  pose proof (Forall2_same_length _ _ _ Hvs) as Hl.
  pose proof (verdict_partition vs) as Hp.
  pose proof (verdict_partition_terminal vs) as Hpt.
  pose proof (filter_split_length call_success (out_calls out)) as Hc.
  pose proof (map_same_length _ _ _ _ Hent) as Hi.
  assert (Hcalls : length (out_calls out) = length (List.filter is_to_add vs)).
  { rewrite <- flat_calls_length, <- Hargs. now rewrite length_map. }
  fold f in Ha, Hs, Hu.
  rewrite Hrep, length_app, !length_map, Hadd, Hskip, Hmiss.
  repeat split; lia.
Qed.

Lemma counters_sum_to_rows_witness :
  let rows := [Demo.row_arrival; Demo.row_arrival_no_id; Demo.row_dune_2021;
               Demo.row_heat] in
  let movies := [Demo.arrival; Demo.dune_1984; Demo.heat] in
  let w := Demo.world rows movies [] in
  reads w Demo.fieldnames rows movies /\
  exists out,
    Demo.run w [None] = Ok (out, []) /\
    (out_added out, out_skipped out, out_missing out) = (1, 0, 3)%nat /\
    (out_added out + out_skipped out + out_missing out)%nat = length rows.
Proof.
  intros rows movies w.
  assert (Hw : reads w Demo.fieldnames rows movies) by (repeat split).
  split; [exact Hw|]. eexists. split; [vm_compute; reflexivity|].
  split; [reflexivity|].
  refine (proj1 (proj2 (counters_sum_to_rows indel_ratio _ scripted_put w [None]
                          _ _ _ Hw) _ _ _)).
  vm_compute; reflexivity.
Defined.

(** ** The commit pass *)

(** C9, as stated, fails: the first row below is matched to a movie that
    is not in the collection and is queued; the second row makes [int]
    raise in the first loop, so that the run ends before its second loop
    and the queued movie is never sent to the service, whatever the
    service would answer. *)
Lemma queued_entry_never_attempted :
  let row := Demo.csv_row "https://www.imdb.com/title/tt1160419/" "Dune"
                          "MMXXI" "" in
  let rows := [Demo.row_heat; row] in
  let movies := [Demo.dune_1984; Demo.heat] in
  let w := Demo.world rows movies [] in
  let existing : gmap (Z + string) Movie := ∅ in
  run_verdict indel_ratio w Demo.fieldnames movies Demo.row_heat
  = Ok (ToAdd Demo.heat (fresh_item "URL" Demo.row_heat) "IMDB ID") /\
  (exists st,
     for_each (classify_row indel_ratio movies (build_imdb_map movies) existing
                            "URL") [Demo.row_heat] pass1_start = Ok st /\
     map movie (ordered_movies st) = [Demo.heat]) /\
  for_each (classify_row indel_ratio movies (build_imdb_map movies) existing "URL")
           rows pass1_start = Raise ValueError /\
  forall script : list (option Z),
    run_imdb_list indel_ratio _ (recording_put _ scripted_put) w (script, [])
    = Raise ValueError.
Proof.
  intros row rows movies w existing.
  split; [vm_compute; reflexivity|]. split.
  - eexists. split; [vm_compute; reflexivity|]. reflexivity.
  - split; [vm_compute; reflexivity|]. intros script.
    rewrite run_recorded.
    assert (H : run_imdb_list indel_ratio _ scripted_put w script = Raise ValueError)
      by (vm_compute; reflexivity).
    now rewrite H.
Qed.

(** C9, amended: a run whose reads succeed returns whenever the years of
    the rows are empty or integers.  When it returns, the requests the
    service receives from [add_collection] are, in this order and once
    each, the requests for the rows that the cascade matched to a movie
    that is not in the collection, whatever the service answers to any of
    them: a call that fails is followed by the calls for the remaining
    queued rows.  The service with a recorder shows it: the run on it
    returns the same output and leaves the recorder with exactly these
    requests.  When the run raises, it raises in its first loop, which
    makes no call. *)
Theorem commit_order (ratio : string -> string -> Z) (Service : Type)
    (requests_put : Service -> Z -> Z -> option Z * Service)
    (w : World) (svc : Service) (fieldnames : list string)
    (rows : list (gmap string string)) (all_movies : list Movie) :
  reads w fieldnames rows all_movies ->
  let f := run_verdict ratio w fieldnames all_movies in
  let url_column := choose_url_column fieldnames in
  ((forall row, In row rows -> year_readable row) ->
   exists out svc',
     run_imdb_list ratio Service requests_put w svc = Ok (out, svc')) /\
  (forall row m item method,
     f row = Ok (ToAdd m item method) <->
     exists imdb_id,
       find_imdb_id (row_url url_column row) = Some imdb_id /\
       match_cascade ratio (build_imdb_map all_movies) all_movies imdb_id
         (row_title row) (row_year row) (row_original_title row)
       = Ok (Some m, method) /\
       already_in_collection
         (find_existing_collection_items (collection_search w)) m imdb_id = false /\
       item = fresh_item url_column row) /\
  (forall row,
     row_call f row =
     match f row with
     | Ok (ToAdd m _ _) =>
         [(Plex.librarySectionID m, Plex.ratingKey m, Plex.title m)]
     | _ => []
     end) /\
  (forall out svc',
     run_imdb_list ratio Service requests_put w svc = Ok (out, svc') ->
     map call_args (out_calls out) = flat_map (row_call f) rows /\
     run_imdb_list ratio (Service * list (Z * Z))
       (recording_put Service requests_put) w (svc, [])
     = Ok (out, (svc', map call_request (flat_map (row_call f) rows))) /\
     length (flat_map (row_call f) rows)
     = length (List.filter (row_is f is_to_add) rows)) /\
  (forall e,
     run_imdb_list ratio Service requests_put w svc = Raise e ->
     for_each (classify_row ratio all_movies (build_imdb_map all_movies)
                 (find_existing_collection_items (collection_search w)) url_column)
              rows pass1_start = Raise e /\
     run_imdb_list ratio (Service * list (Z * Z))
       (recording_put Service requests_put) w (svc, []) = Raise e).
Proof.
  intros Hw f url_column.
  split; [exact (run_imdb_list_total _ _ _ _ _ _ _ _ Hw)|].
  split; [intros; apply verdict_to_add|].
  split; [intros row; unfold row_call; now destruct (f row) as [[]|]|].
  split.
  - intros out svc' Hrun.
    destruct (run_imdb_list_verdicts _ _ _ _ _ _ _ _ _ _ Hw Hrun)
      as (vs & items & Hvs & _ & _ & _ & Hargs & _).
    assert (Hcalls : map call_args (out_calls out) = flat_map (row_call f) rows)
      by (rewrite Hargs; now apply Forall2_flat_calls).
    split; [exact Hcalls|]. split.
    + rewrite run_recorded, Hrun. cbn [app]. now rewrite Hcalls.
    + unfold f. rewrite <- (Forall2_flat_calls _ _ _ Hvs), flat_calls_length.
      symmetry.
      exact (Forall2_same_length _ _ _ (Forall2_filter_rows _ is_to_add _ _ Hvs)).
  - intros e Hrun. split.
    + exact (run_raises_first_loop _ _ _ _ _ _ _ _ _ Hw Hrun).
    + now rewrite run_recorded, Hrun.
Qed.

Lemma commit_order_witness :
  let rows := [Demo.row_arrival; Demo.row_arrival_no_id; Demo.row_dune_2021;
               Demo.row_heat] in
  let movies := [Demo.arrival; Demo.dune_1984; Demo.heat] in
  let w := Demo.world rows movies [] in
  reads w Demo.fieldnames rows movies /\
  exists out,
    Demo.run w [None] = Ok (out, []) /\
    map call_success (out_calls out) = [false; true] /\
    map call_args (out_calls out) = [(1, 42, "Arrival"); (1, 8, "Heat")] /\
    run_imdb_list indel_ratio _ (recording_put _ scripted_put) w ([None], [])
    = Ok (out, ([], [(1, 42); (1, 8)])) /\
    map call_args (out_calls out) =
      flat_map (row_call (run_verdict indel_ratio w Demo.fieldnames movies)) rows.
Proof.
  intros rows movies w.
  assert (Hw : reads w Demo.fieldnames rows movies) by (repeat split).
  split; [exact Hw|]. eexists. split; [vm_compute; reflexivity|].
  split; [reflexivity|]. split; [reflexivity|]. split; [vm_compute; reflexivity|].
  refine (proj1 (proj1 (proj2 (proj2 (proj2 (commit_order indel_ratio _ scripted_put
                                 w [None] _ _ _ Hw)))) _ _ _)).
  vm_compute; reflexivity.
Defined.

(** ** Entries without identifier *)

(** C8, as stated, fails: the row below has no identifier in its URL and
    a title and year that the title and year tier matches to a movie of the
    library, yet the run records it as an error and calls nothing. *)
Lemma no_identifier_not_fuzzy_matched :
  let row := Demo.row_arrival_no_id in
  find_imdb_id (row_url "URL" row) = None /\
  find_movie_by_title_year indel_ratio [Demo.arrival] (row_title row)
    (row_year row) (row_original_title row) = Some Demo.arrival /\
  exists out svc',
    Demo.run (Demo.world [row] [Demo.arrival] []) [] = Ok (out, svc') /\
    map ri_status (out_report out) = ["ERROR: No IMDB ID found"] /\
    map ri_match_method (out_report out) = [""] /\
    out_missing out = 1%nat /\ out_calls out = [].
Proof.
  intros row. split; [reflexivity|]. split; [reflexivity|].
  eexists _, _. split; [vm_compute; reflexivity|]. repeat split.
Qed.

(** C8, amended: a row whose URL holds no identifier ends in the first
    loop, before any tier of the cascade: whatever the library, the indexes
    and the scoring function, its record gets the status
    "ERROR: No IMDB ID found" and a note with the URL, [missing_count] grows
    by one and nothing is queued. *)
Theorem no_identifier_is_error (ratio : string -> string -> Z)
    (all_movies : list Movie) (imdb_map : gmap string Movie)
    (existing : gmap (Z + string) Movie) (url_column : string)
    (st : Pass1) (row : gmap string string) :
  find_imdb_id (row_url url_column row) = None ->
  classify_row ratio all_movies imdb_map existing url_column st row =
  Ok {| report_data :=
          report_data st ++
          [{| ri_title := row_title row; ri_year := row_year row;
              ri_original_title := row_original_title row; ri_imdb_id := "";
              ri_status := "ERROR: No IMDB ID found"; ri_match_method := "";
              ri_plex_title := ""; ri_plex_year := None;
              ri_notes := "Invalid URL: " +:+ row_url url_column row |}];
        ordered_movies := ordered_movies st;
        skipped_count := skipped_count st;
        missing_count := S (missing_count st) |}.
Proof.
  intros H. unfold classify_row. fold (row_url url_column row). now rewrite H.
Qed.

Lemma no_identifier_is_error_witness :
  let row := Demo.row_arrival_no_id in
  let st := {| report_data := []; ordered_movies := [];
               skipped_count := 0; missing_count := 0 |} in
  find_imdb_id (row_url "URL" row) = None /\
  exists st',
    classify_row indel_ratio [Demo.arrival] (build_imdb_map [Demo.arrival]) ∅
                 "URL" st row = Ok st' /\
    map ri_status (report_data st') = ["ERROR: No IMDB ID found"] /\
    ordered_movies st' = [] /\ missing_count st' = 1%nat.
Proof.
  intros row st. split; [reflexivity|]. eexists.
  split; [exact (no_identifier_is_error indel_ratio [Demo.arrival]
                   (build_imdb_map [Demo.arrival]) ∅ "URL" st row eq_refl)|].
  repeat split.
Defined.

(** ** Identifier precedence *)

(** C4: an identifier found in the index settles the match.  The cascade
    returns the indexed movie with the method "IMDB ID"; it returns the
    same under any other scoring function and any other list of movies, so
    no fuzzy tier has a say; the row is then skipped or queued with that
    movie and that method. *)
Theorem identifier_precedence (ratio : string -> string -> Z)
    (all_movies : list Movie) (imdb_map : gmap string Movie)
    (existing : gmap (Z + string) Movie) (url_column : string)
    (st : Pass1) (row : gmap string string) (imdb_id : string) (m : Movie) :
  find_imdb_id (row_url url_column row) = Some imdb_id ->
  imdb_map !! imdb_id = Some m ->
  match_cascade ratio imdb_map all_movies imdb_id (row_title row) (row_year row)
                (row_original_title row) = Ok (Some m, "IMDB ID") /\
  (forall (ratio' : string -> string -> Z) (all_movies' : list Movie),
     match_cascade ratio' imdb_map all_movies' imdb_id (row_title row)
                   (row_year row) (row_original_title row)
     = match_cascade ratio imdb_map all_movies imdb_id (row_title row)
                     (row_year row) (row_original_title row)) /\
  classify_row ratio all_movies imdb_map existing url_column st row =
  Ok (apply_verdict st
        (if already_in_collection existing m imdb_id
         then AlreadyMember
                (item_matched (fresh_item url_column row) "SKIPPED:" "IMDB ID" m)
         else ToAdd m (fresh_item url_column row) "IMDB ID")).
Proof.
  intros Hid Hm.
  assert (Hc : match_cascade ratio imdb_map all_movies imdb_id (row_title row)
                 (row_year row) (row_original_title row) = Ok (Some m, "IMDB ID"))
    by (unfold match_cascade; now rewrite Hm).
  split; [exact Hc|].
  split; [intros ratio' all_movies'; unfold match_cascade; now rewrite Hm|].
  rewrite classify_row_verdict. unfold verdict. rewrite Hid, Hc. cbn [bind].
  now destruct (already_in_collection existing m imdb_id).
Qed.

(** The library holds an untagged "Arrival" that both fuzzy tiers would
    take, and the film under its French title with the identifier of the
    entry: the entry goes to the latter. *)
Lemma identifier_precedence_witness :
  let movies := [Demo.arrival_untagged; Demo.premier_contact] in
  let row := Demo.row_arrival in
  find_imdb_id (row_url "URL" row) = Some "tt2543164" /\
  build_imdb_map movies !! "tt2543164" = Some Demo.premier_contact /\
  find_movie_by_title_year indel_ratio movies (row_title row) (row_year row)
    (row_original_title row) = Some Demo.arrival_untagged /\
  match_cascade indel_ratio (build_imdb_map movies) movies "tt2543164"
    (row_title row) (row_year row) (row_original_title row)
  = Ok (Some Demo.premier_contact, "IMDB ID").
Proof.
  intros movies row. split; [reflexivity|]. split; [reflexivity|].
  split; [reflexivity|].
  exact (proj1 (identifier_precedence indel_ratio movies (build_imdb_map movies) ∅
                  "URL" {| report_data := []; ordered_movies := [];
                           skipped_count := 0; missing_count := 0 |}
                  row "tt2543164" Demo.premier_contact eq_refl eq_refl)).
Defined.


(** ** The membership index *)

Lemma is_key_insert (k j : Z + string) (item : Movie) (d : gmap (Z + string) Movie) :
  is_key k (<[j := item]> d) = true <-> j = k \/ is_key k d = true.
Proof.
  unfold is_key. rewrite lookup_insert. destruct (decide (j = k)) as [->|Hne].
  - split; auto.
  - split; [auto|]. now intros [?|?].
Qed.

Lemma is_key_index_item k d item :
  is_key k (index_item d item) = true <-> indexed_under item k \/ is_key k d = true.
Proof.
  unfold index_item, indexed_under.
  destruct (contains "imdb://" (Plex.guid item)).
  - rewrite !is_key_insert. intuition auto.
  - rewrite is_key_insert. intuition (auto; discriminate).
Qed.

Lemma is_key_index_items k items d :
  is_key k (fold_left index_item items d) = true <->
  (exists item, In item items /\ indexed_under item k) \/ is_key k d = true.
Proof.
  revert d. induction items as [|x items IH]; intros d; cbn [fold_left].
  - split; [auto|]. now intros [(? & [] & _)|?].
  - rewrite IH, is_key_index_item. split.
    + intros [(item & Hin & Hk)|[Hk|Hk]]; [left|left|now right].
      * exists item. split; [now right|assumption].
      * exists x. split; [now left|assumption].
    + intros [(item & [<-|Hin] & Hk)|Hk]; [right; now left| |right; now right].
      left. now exists item.
Qed.

(** Every member of the collection is indexed under its rating key and,
    when its guid carries one, under its IMDB identifier; the index holds
    no other key. *)
Lemma is_key_existing k collection_items :
  is_key k (find_existing_collection_items collection_items) = true <->
  exists item, In item (members collection_items) /\ indexed_under item k.
Proof.
  destruct collection_items as [items|]; cbn [find_existing_collection_items members].
  - rewrite is_key_index_items. split; [|auto].
    intros [H|H]; [exact H|]. unfold is_key in H. now rewrite lookup_empty in H.
  - unfold is_key. rewrite lookup_empty. split; [discriminate|].
    now intros (? & [] & _).
Qed.

(** ** Running again *)

Lemma Forall2_In_left {A B} (R : A -> B -> Prop) l1 l2 x :
  Forall2 R l1 l2 -> In x l1 -> exists y, In y l2 /\ R x y.
Proof.
  induction 1 as [|a b l1 l2 Hab _ IH]; intros Hin; [destruct Hin|].
  destruct Hin as [<-|Hin].
  - exists b. split; [now left|assumption].
  - destruct (IH Hin) as (y & Hy & Hr). exists y. split; [now right|assumption].
Qed.

(** The collection decides between skipping and queueing only: a row
    that has a verdict with one index has a verdict with any other. *)
Lemma verdict_any_index ratio all_movies imdb_map existing existing' url_column row v :
  verdict ratio all_movies imdb_map existing url_column row = Ok v ->
  exists v', verdict ratio all_movies imdb_map existing' url_column row = Ok v'.
Proof.
  unfold verdict.
  destruct (find_imdb_id _) as [imdb_id|]; [|eauto].
  destruct (match_cascade _ _ _ _ _ _ _) as [[[m|] method]|e]; cbn [bind];
    [|eauto|discriminate].
  intros _. destruct (already_in_collection existing' m imdb_id); eauto.
Qed.

Lemma reconcile_returns ratio Service requests_put fieldnames rows all_movies
    collection_items svc vs :
  verdicts (verdict ratio all_movies (build_imdb_map all_movies)
              (find_existing_collection_items collection_items)
              (choose_url_column fieldnames)) rows = Ok vs ->
  exists out svc',
    reconcile ratio Service requests_put fieldnames rows all_movies
              collection_items svc = Ok (out, svc').
Proof.
  intros H. unfold reconcile. rewrite for_each_classify, H. cbn [bind]. eauto.
Qed.

Lemma already_in_collection_inl existing m imdb_id :
  is_key (inl (Plex.ratingKey m)) existing = true ->
  already_in_collection existing m imdb_id = true.
Proof. intros H. unfold already_in_collection. now rewrite H. Qed.

Lemma already_in_collection_mono existing existing' m imdb_id :
  (forall k, is_key k existing = true -> is_key k existing' = true) ->
  already_in_collection existing' m imdb_id = false ->
  already_in_collection existing m imdb_id = false.
Proof.
  unfold already_in_collection. intros Hk H.
  apply orb_false_iff in H as [H1 H2]. apply orb_false_iff. split.
  - destruct (is_key (inl _) existing) eqn:E; [|reflexivity].
    apply Hk in E. congruence.
  - destruct (is_key (inr _) existing) eqn:E; [|reflexivity].
    apply Hk in E. congruence.
Qed.

(** C3, as stated, fails: the first run adds "Arrival" and fails to add
    "Heat"; the collection then holds everything the first run added, and
    the second run skips "Arrival" but calls [add_collection] for "Heat". *)
Lemma rerun_retries_failed_add :
  let rows := [Demo.row_arrival; Demo.row_heat] in
  let movies := [Demo.arrival; Demo.heat] in
  exists out1 out2,
    Demo.run (Demo.world rows movies []) [Some 200; Some 500] = Ok (out1, []) /\
    map (fun c => (call_rating_key c, call_success c)) (out_calls out1)
      = [(42, true); (8, false)] /\
    (forall c, In c (out_calls out1) -> call_success c = true ->
       exists item, In item [Demo.arrival] /\
                    Plex.ratingKey item = call_rating_key c) /\
    Demo.run (Demo.world rows movies [Demo.arrival]) [] = Ok (out2, []) /\
    map ri_status (out_report out2) = ["SKIPPED:"; "ADDED:"] /\
    map call_args (out_calls out2) = [(1, 8, "Heat")] /\
    out_calls out2 <> [].
Proof.
  intros rows movies. eexists _, _.
  split; [vm_compute; reflexivity|]. split; [reflexivity|].
  split.
  { intros c [<-|[<-|[]]]; cbn [call_success call_rating_key]; [|discriminate].
    intros _. exists Demo.arrival. split; [now left|reflexivity]. }
  split; [vm_compute; reflexivity|]. split; [reflexivity|].
  split; [reflexivity|]. discriminate.
Qed.

(** C3, amended: let a first run return, and let a second run read the
    same rows and the same library and find a collection that still holds
    its earlier members and holds every movie the first run added.  The
    index of the second run holds each member under its rating key and,
    when its guid has one, under its IMDB identifier.  Then the second run
    returns too; every row whose movie the first run queued and added is
    now found in the collection and skipped; and every call of
    [add_collection] in the second run repeats a call that failed in the
    first.  So when no call of the first run failed, the second run calls
    [add_collection] zero times and adds nothing. *)
Theorem rerun_skips_added (ratio : string -> string -> Z) (Service : Type)
    (requests_put : Service -> Z -> Z -> option Z * Service)
    (w1 w2 : World) (svc1 svc2 svc1' : Service) (fieldnames : list string)
    (rows : list (gmap string string)) (all_movies : list Movie)
    (out1 : RunOutput) :
  reads w1 fieldnames rows all_movies ->
  reads w2 fieldnames rows all_movies ->
  (forall item, In item (members (collection_search w1)) ->
                In item (members (collection_search w2))) ->
  run_imdb_list ratio Service requests_put w1 svc1 = Ok (out1, svc1') ->
  (forall c, In c (out_calls out1) -> call_success c = true ->
     exists item, In item (members (collection_search w2)) /\
                  Plex.ratingKey item = call_rating_key c) ->
  let f1 := run_verdict ratio w1 fieldnames all_movies in
  let f2 := run_verdict ratio w2 fieldnames all_movies in
  (forall k : Z + string,
     is_key k (find_existing_collection_items (collection_search w2)) = true <->
     exists item, In item (members (collection_search w2)) /\
                  indexed_under item k) /\
  exists out2 svc2',
    run_imdb_list ratio Service requests_put w2 svc2 = Ok (out2, svc2') /\
    (forall row m item method,
       In row rows -> f1 row = Ok (ToAdd m item method) ->
       (exists c, In c (out_calls out1) /\
                  call_rating_key c = Plex.ratingKey m /\ call_success c = true) ->
       f2 row = Ok (AlreadyMember (item_matched item "SKIPPED:" method m))) /\
    (forall c2, In c2 (out_calls out2) ->
       exists c1, In c1 (out_calls out1) /\ call_args c1 = call_args c2 /\
                  call_success c1 = false) /\
    ((forall c, In c (out_calls out1) -> call_success c = true) ->
     out_calls out2 = [] /\ out_added out2 = 0%nat).
Proof.
  intros Hw1 Hw2 Hold Hrun1 Hadded f1 f2.
  split; [intros k; apply is_key_existing|].
  destruct (run_imdb_list_verdicts _ _ _ _ _ _ _ _ _ _ Hw1 Hrun1)
    as (vs1 & items1 & Hvs1 & _ & _ & _ & Hargs1 & _).
  rewrite (Forall2_flat_calls _ _ _ Hvs1) in Hargs1. fold f1 in Hargs1, Hvs1.
  set (existing1 := find_existing_collection_items (collection_search w1)).
  set (existing2 := find_existing_collection_items (collection_search w2)).
  assert (Hkeys : forall k, is_key k existing1 = true -> is_key k existing2 = true).
  { intros k. unfold existing1, existing2. rewrite !is_key_existing.
    intros (item & Hin & Hk). exists item. split; [now apply Hold|exact Hk]. }
  assert (Hkey2 : forall c, In c (out_calls out1) -> call_success c = true ->
                    is_key (inl (call_rating_key c)) existing2 = true).
  { intros c Hc Hok. destruct (Hadded c Hc Hok) as (item & Hin & <-).
    unfold existing2. rewrite is_key_existing. exists item.
    split; [exact Hin|now left]. }
  (* the second run returns *)
  assert (Hret : exists out2 svc2',
             run_imdb_list ratio Service requests_put w2 svc2 = Ok (out2, svc2')).
  { rewrite (run_imdb_list_reads _ _ _ _ _ _ _ _ Hw2).
    destruct (verdicts_total f2 rows) as [vs2 Hvs2].
    - intros row Hin. destruct (Forall2_In_left _ _ _ _ Hvs1 Hin) as (v & _ & Hv).
      exact (verdict_any_index _ _ _ _ _ _ _ _ Hv).
    - exact (reconcile_returns _ _ _ _ _ _ _ _ _ Hvs2). }
  destruct Hret as (out2 & svc2' & Hrun2). exists out2, svc2'.
  split; [exact Hrun2|].
  destruct (run_imdb_list_verdicts _ _ _ _ _ _ _ _ _ _ Hw2 Hrun2)
    as (vs2 & items2 & Hvs2 & _ & _ & _ & Hargs2 & Hadd2 & _).
  rewrite (Forall2_flat_calls _ _ _ Hvs2) in Hargs2. fold f2 in Hargs2, Hvs2.
  assert (Hrepeat : forall c2, In c2 (out_calls out2) ->
            exists c1, In c1 (out_calls out1) /\ call_args c1 = call_args c2 /\
                       call_success c1 = false).
  { intros c2 Hc2. apply (in_map call_args) in Hc2. rewrite Hargs2 in Hc2.
    apply in_flat_map in Hc2 as (row & Hrow & Hin2). unfold row_call in Hin2.
    destruct (f2 row) as [[? | ? | ? |m item method]|] eqn:Hf2;
      cbn [verdict_call] in Hin2; try (destruct Hin2; fail).
    destruct Hin2 as [Heq|[]].
    apply verdict_to_add in Hf2 as (imdb_id & Hid & Hcas & Hnot2 & ->).
    fold existing2 in Hnot2.
    assert (Hf1 : f1 row = Ok (ToAdd m (fresh_item (choose_url_column fieldnames) row)
                                 method)).
    { apply verdict_to_add. exists imdb_id. repeat split; try assumption.
      exact (already_in_collection_mono _ _ _ _ Hkeys Hnot2). }
    assert (Hin1 : In (call_args c2) (flat_map (row_call f1) rows)).
    { apply in_flat_map. exists row. split; [exact Hrow|].
      unfold row_call. rewrite Hf1, <- Heq. now left. }
    rewrite <- Hargs1 in Hin1. apply in_map_iff in Hin1 as (c1 & Hc1 & Hin1).
    exists c1. split; [exact Hin1|]. split; [exact Hc1|].
    destruct (call_success c1) eqn:Hok; [|reflexivity].
    pose proof (Hkey2 c1 Hin1 Hok) as Hk.
    assert (call_rating_key c1 = Plex.ratingKey m) as Hrk.
    { rewrite <- Heq in Hc1. unfold call_args in Hc1. now injection Hc1. }
    rewrite Hrk in Hk.
    rewrite (already_in_collection_inl _ _ imdb_id Hk) in Hnot2. discriminate. }
  split; [|split; [exact Hrepeat|]].
  - intros row m item method Hrow Hf1 (c & Hc & Hrk & Hok).
    apply verdict_to_add in Hf1 as (imdb_id & Hid & Hcas & _ & ->).
    unfold f2, run_verdict, verdict. rewrite Hid, Hcas. cbn [bind].
    fold existing2. rewrite already_in_collection_inl; [reflexivity|].
    rewrite <- Hrk. now apply Hkey2.
  - intros Hall.
    assert (Hnil : out_calls out2 = []).
    { destruct (out_calls out2) as [|c2 l] eqn:E; [reflexivity|].
      destruct (Hrepeat c2 (or_introl eq_refl)) as (c1 & Hin1 & _ & Hfail).
      rewrite (Hall c1 Hin1) in Hfail. discriminate. }
    split; [exact Hnil|]. now rewrite Hadd2, Hnil.
Qed.

Lemma rerun_skips_added_witness :
  let rows := [Demo.row_arrival; Demo.row_arrival_no_id; Demo.row_heat] in
  let movies := [Demo.arrival; Demo.heat] in
  let w1 := Demo.world rows movies [Demo.heat] in
  let w2 := Demo.world rows movies [Demo.heat; Demo.arrival] in
  exists out1 out2,
    Demo.run w1 [] = Ok (out1, []) /\
    map ri_status (out_report out1)
      = ["ERROR: No IMDB ID found"; "SKIPPED:"; "ADDED:"] /\
    Demo.run w2 [] = Ok (out2, []) /\
    map ri_status (out_report out2)
      = ["SKIPPED:"; "ERROR: No IMDB ID found"; "SKIPPED:"] /\
    out_calls out2 = [] /\ out_added out2 = 0%nat.
Proof.
  intros rows movies w1 w2.
  assert (Hw1 : reads w1 Demo.fieldnames rows movies) by (repeat split).
  assert (Hw2 : reads w2 Demo.fieldnames rows movies) by (repeat split).
  eexists _, _. split; [vm_compute; reflexivity|]. split; [reflexivity|].
  match goal with
  | |- Demo.run _ _ = Ok (?o2, _) /\ _ =>
      assert (Hrun2 : Demo.run w2 [] = Ok (o2, [])) by (vm_compute; reflexivity)
  end.
  split; [exact Hrun2|]. split; [reflexivity|].
  assert (Hold : forall item, In item (members (collection_search w1)) ->
                               In item (members (collection_search w2)))
    by (intros item [<-|[]]; now left).
  destruct (rerun_skips_added indel_ratio _ scripted_put w1 w2 [] [] []
              Demo.fieldnames rows movies _ Hw1 Hw2 Hold
              ltac:(vm_compute; reflexivity))
    as (_ & out2' & svc2' & Hrun2' & _ & _ & Hzero).
  - intros c [<-|[]] _. exists Demo.arrival. split; [right; now left|reflexivity].
  - unfold Demo.run in Hrun2. rewrite Hrun2 in Hrun2'.
    injection Hrun2' as <- _. apply Hzero.
    intros c [<-|[]]. reflexivity.
Defined.

(** * Further properties *)

Ltac str_norm := repeat first [rewrite app_String | rewrite app_Empty].
Ltac str_norm_in H :=
  repeat first [rewrite app_String in H | rewrite app_Empty in H].

(** ** Identifier extraction *)

Lemma take_digits_empty s : take_digits s = "" <-> starts_with_digit s = false.
Proof.
  destruct s as [|c s]; cbn [take_digits starts_with_digit]; [tauto|].
  destruct (is_digit c); split; congruence.
Qed.

Lemma take_digits_split s :
  exists post, s = take_digits s +:+ post /\
               all_digits (take_digits s) = true /\
               starts_with_digit post = false.
Proof.
  induction s as [|c s (post & Hs & Hd & Hp)].
  - exists "". repeat split.
  - cbn [take_digits]. destruct (is_digit c) eqn:Hc.
    + exists post. str_norm. cbn [all_digits]. rewrite Hc, Hd, <- Hs. repeat split; auto.
    + exists (String c s). str_norm. cbn [all_digits starts_with_digit]. auto.
Qed.

Lemma find_imdb_id_step c s :
  find_imdb_id (String c s) =
  if id_at (String c s)
  then match strip_prefix "tt" (String c s) with
       | Some rest => Some ("tt" +:+ take_digits rest)
       | None => None
       end
  else find_imdb_id s.
Proof.
  unfold id_at. cbn [find_imdb_id].
  destruct (strip_prefix "tt" (String c s)) as [rest|]; [|reflexivity].
  destruct (starts_with_digit rest) eqn:Hd.
  - destruct (take_digits rest) eqn:Ht; [|reflexivity].
    apply take_digits_empty in Ht. congruence.
  - apply take_digits_empty in Hd. now rewrite Hd.
Qed.

Lemma app_cons_split c pre p q :
  String c pre = p +:+ q ->
  (p = "" /\ q = String c pre) \/ exists p', p = String c p' /\ pre = p' +:+ q.
Proof.
  destruct p as [|d p]; str_norm; intros H; [left; auto|].
  injection H as <- ->. right. eauto.
Qed.

Lemma take_digits_app ds post :
  all_digits ds = true -> starts_with_digit post = false ->
  take_digits (ds +:+ post) = ds.
Proof.
  intros Hd Hp. induction ds as [|c ds IH].
  - str_norm. now apply take_digits_empty.
  - cbn [all_digits] in Hd. apply andb_prop in Hd as [Hc Hd].
    str_norm. cbn [take_digits]. now rewrite Hc, (IH Hd).
Qed.

(** X1: [find_imdb_id] returns [id] exactly when [id] is the text ["tt"]
    followed by at least one digit, stands in the URL, takes all the
    digits found there, and no earlier place of the URL has ["tt"]
    followed by a digit. *)
Theorem find_imdb_id_first_longest (imdb_url id : string) :
  find_imdb_id imdb_url = Some id <->
  exists pre ds post,
    imdb_url = pre +:+ id +:+ post /\
    id = "tt" +:+ ds /\ ds <> "" /\ all_digits ds = true /\
    starts_with_digit post = false /\
    (forall p q, pre = p +:+ q -> q <> "" -> id_at (q +:+ id +:+ post) = false).
Proof.
  split.
  - revert id. induction imdb_url as [|c s IH]; intros id; [discriminate|].
    rewrite find_imdb_id_step. destruct (id_at (String c s)) eqn:Hat.
    + unfold id_at in Hat.
      destruct (strip_prefix "tt" (String c s)) as [rest|] eqn:Hp; [|discriminate].
      intros [= <-]. apply strip_prefix_app in Hp.
      destruct (take_digits_split rest) as (post & Hrest & Hd & Hpost).
      exists "", (take_digits rest), post. str_norm.
      split; [rewrite Hp; str_norm; now rewrite <- Hrest|].
      split; [reflexivity|]. split; [now rewrite take_digits_empty, Hat|].
      split; [exact Hd|]. split; [exact Hpost|].
      intros p q Hpq Hq. destruct p; str_norm_in Hpq; congruence.
    + intros Hs.
      destruct (IH _ Hs) as (pre & ds & post & -> & -> & Hne & Hd & Hpost & Hleft).
      exists (String c pre), ds, post. str_norm.
      split; [reflexivity|]. split; [reflexivity|]. split; [exact Hne|].
      split; [exact Hd|]. split; [exact Hpost|].
      intros p q Hpq Hq. apply app_cons_split in Hpq as [[-> ->]|(p' & -> & Hpre)].
      * str_norm. exact Hat.
      * now apply (Hleft p').
  - intros (pre & ds & post & -> & -> & Hne & Hd & Hpost & Hleft).
    induction pre as [|c pre IH].
    + str_norm. destruct ds as [|d ds]; [contradiction|].
      assert (Hd0 : is_digit d = true)
        by (cbn [all_digits] in Hd; now apply andb_prop in Hd).
      change (String "t" (String "t" (String d ds +:+ post)))
        with (String "t" (String "t" ((String d ds) +:+ post))).
      rewrite find_imdb_id_step. unfold id_at. cbn [strip_prefix Ascii.eqb Bool.eqb].
      str_norm. cbn [starts_with_digit]. rewrite Hd0.
      rewrite <- app_String, (take_digits_app _ _ Hd Hpost). reflexivity.
    + str_norm. rewrite find_imdb_id_step.
      pose proof (Hleft "" (String c pre) eq_refl ltac:(discriminate)) as Hat.
      str_norm_in Hat. rewrite Hat. apply IH.
      intros p q -> Hq. apply (Hleft (String c p)); [now str_norm|exact Hq].
Qed.

Lemma find_imdb_id_first_longest_witness :
  find_imdb_id "https://www.imdb.com/title/tt2543164/?ref_=ls" = Some "tt2543164" /\
  exists pre ds post,
    "https://www.imdb.com/title/tt2543164/?ref_=ls" = pre +:+ "tt2543164" +:+ post /\
    "tt2543164" = "tt" +:+ ds /\ ds <> "" /\ all_digits ds = true.
Proof.
  split; [reflexivity|].
  destruct (proj1 (find_imdb_id_first_longest
                     "https://www.imdb.com/title/tt2543164/?ref_=ls" "tt2543164")
                  eq_refl) as (pre & ds & post & H1 & H2 & H3 & H4 & _).
  exists pre, ds, post. auto.
Defined.

(** X2: [find_imdb_id] finds nothing exactly when no place of the URL has
    ["tt"] followed by a digit; in particular it finds nothing in the empty
    string. *)
Theorem find_imdb_id_none (imdb_url : string) :
  find_imdb_id imdb_url = None <->
  forall p q, imdb_url = p +:+ q -> id_at q = false.
Proof.
  induction imdb_url as [|c s IH].
  - split; [|reflexivity]. intros _ p q H.
    destruct p; str_norm_in H; [now subst q|discriminate].
  - rewrite find_imdb_id_step. destruct (id_at (String c s)) eqn:Hat.
    + split.
      * unfold id_at in Hat. destruct (strip_prefix "tt" (String c s)); discriminate.
      * intros H. specialize (H "" (String c s) eq_refl). congruence.
    + rewrite IH. split.
      * intros H p q Hpq. apply app_cons_split in Hpq as [[-> ->]|(p' & -> & Hs)];
          [exact Hat|now apply (H p')].
      * intros H p q ->. apply (H (String c p)). now str_norm.
Qed.

(** ** The identifier of a guid *)

Lemma contains_step sep c s :
  contains sep (String c s) =
  match strip_prefix sep (String c s) with
  | Some _ => true
  | None => contains sep s
  end.
Proof. reflexivity. Qed.

Lemma before_step sep c s :
  before sep (String c s) =
  match strip_prefix sep (String c s) with
  | Some _ => ""
  | None => String c (before sep s)
  end.
Proof. reflexivity. Qed.

Lemma after_step sep c s :
  after sep (String c s) =
  match strip_prefix sep (String c s) with
  | Some rest => Some rest
  | None => after sep s
  end.
Proof. reflexivity. Qed.

Lemma strip_prefix_app_same p r : strip_prefix p (p +:+ r) = Some r.
Proof.
  induction p as [|a p IH]; [reflexivity|].
  str_norm. cbn [strip_prefix]. now rewrite Ascii.eqb_refl.
Qed.

(** The marker cannot begin inside a text without colon that is followed
    by nothing, by the marker or by a question mark. *)
Lemma marker_not_inside c q x :
  has_char ":" (String c q) = false ->
  match x with
  | EmptyString => True
  | String d _ => d = "i"%char \/ d = "?"%char
  end ->
  strip_prefix "imdb://" (String c q +:+ x) = None.
Proof.
  intros Hq Hx.
  destruct q as [|c2 [|c3 [|c4 [|c5 q]]]]; destruct x as [|d x];
    str_norm; cbn [strip_prefix has_char] in *;
    repeat match goal with
           | H : _ \/ _ |- _ => destruct H; subst
           | |- context [Ascii.eqb ?u ?v] =>
               destruct (Ascii.eqb_spec u v); subst; try reflexivity
           end;
    try reflexivity; try discriminate.
Qed.

Lemma has_char_cons c d s :
  has_char c (String d s) = false -> c <> d /\ has_char c s = false.
Proof.
  cbn [has_char]. intros H. apply orb_false_iff in H as [H1 H2].
  split; [now apply Ascii.eqb_neq|exact H2].
Qed.

Lemma after_marker a x :
  has_char ":" a = false ->
  after "imdb://" (a +:+ "imdb://" +:+ x) = Some x.
Proof.
  induction a as [|c a IH]; intros Ha.
  - str_norm. reflexivity.
  - pose proof (marker_not_inside c a ("imdb://" +:+ x) Ha
                  (or_introl eq_refl)) as Hno.
    rewrite app_String in *. rewrite after_step, Hno.
    apply IH. now apply has_char_cons in Ha.
Qed.

Lemma contains_marker a x : contains "imdb://" (a +:+ "imdb://" +:+ x) = true.
Proof.
  induction a as [|c a IH]; [reflexivity|].
  str_norm. rewrite contains_step. now destruct (strip_prefix _ _).
Qed.

Lemma before_marker a x :
  has_char ":" a = false ->
  match x with
  | EmptyString => True
  | String d _ => d = "?"%char
  end ->
  before "imdb://" (a +:+ x) = a +:+ before "imdb://" x.
Proof.
  induction a as [|c a IH]; intros Ha Hx; [now str_norm|].
  assert (Hno : strip_prefix "imdb://" (String c a +:+ x) = None).
  { apply marker_not_inside; [exact Ha|]. destruct x; [exact I|now right]. }
  rewrite !app_String in *. rewrite before_step, Hno.
  f_equal. apply IH; [now apply has_char_cons in Ha|exact Hx].
Qed.

Lemma before_question a x :
  has_char "?" a = false ->
  x = "" \/ (exists y, x = "?" +:+ y) ->
  before "?" (a +:+ x) = a.
Proof.
  induction a as [|c a IH]; intros Ha Hx.
  - str_norm. destruct Hx as [->|[y ->]]; reflexivity.
  - apply has_char_cons in Ha as [Hc Ha]. str_norm. rewrite before_step.
    cbn [strip_prefix]. destruct (Ascii.eqb_spec "?" c); [contradiction|].
    f_equal. now apply IH.
Qed.

(** X3: the identifier is read back from a guid made of an agent prefix,
    the marker ["imdb://"], the identifier and, optionally, a question mark
    with a query, as long as the prefix and the identifier hold no colon
    and the identifier no question mark; such a guid passes the test
    ['imdb://' in guid]. *)
Theorem guid_imdb_id_round_trip (agent id tail : string) :
  has_char ":" agent = false ->
  has_char ":" id = false ->
  has_char "?" id = false ->
  tail = "" \/ (exists query, tail = "?" +:+ query) ->
  contains "imdb://" (agent +:+ "imdb://" +:+ id +:+ tail) = true /\
  guid_imdb_id (agent +:+ "imdb://" +:+ id +:+ tail) = id.
Proof.
  intros Hagent Hid Hq Htail. split; [apply contains_marker|].
  unfold guid_imdb_id. rewrite (after_marker _ _ Hagent).
  rewrite (before_marker _ _ Hid).
  - apply (before_question _ _ Hq).
    destruct Htail as [->|[query ->]]; [now left|right].
    str_norm. rewrite before_step. cbn [strip_prefix Ascii.eqb].
    eexists. now str_norm.
  - destruct Htail as [->|[query ->]]; [exact I|reflexivity].
Qed.

Lemma guid_imdb_id_round_trip_witness :
  has_char ":" "com.plexapp.agents." = false /\
  guid_imdb_id "com.plexapp.agents.imdb://tt0113277?lang=en" = "tt0113277".
Proof.
  split; [reflexivity|].
  exact (proj2 (guid_imdb_id_round_trip "com.plexapp.agents." "tt0113277" "?lang=en"
                  eq_refl eq_refl eq_refl (or_intror (ex_intro _ "lang=en" eq_refl)))).
Defined.

(** ** The matchers, completely *)

Section FirstBest.

Variable eligible : Movie -> bool.
Variable score : Movie -> Z.

Lemma app_cons_cases (l1 l1' l2 l2' : list Movie) (m b : Movie) :
  l1 ++ m :: l2 = l1' ++ b :: l2' ->
  (l1 = l1' /\ m = b /\ l2 = l2') \/ In b l1 \/ In m l1'.
Proof.
  revert l1'. induction l1 as [|x l1 IH]; intros [|y l1']; cbn [app].
  - intros [= -> ->]. now left.
  - intros [= -> _]. right. right. now left.
  - intros [= -> _]. right. left. now left.
  - intros [= -> H]. destruct (IH _ H) as [(-> & -> & ->)|[Hb|Hm]].
    + now left.
    + right. left. now right.
    + right. right. now right.
Qed.

Lemma first_best_unique l1 m l2 l1' b l2' :
  l1 ++ m :: l2 = l1' ++ b :: l2' ->
  first_best eligible score l1 m l2 ->
  first_best eligible score l1' b l2' ->
  l1 = l1' /\ m = b /\ l2 = l2'.
Proof.
  intros Heq (Hm & Hlt & Hle) (Hb & Hlt' & Hle').
  assert (Hmb : score m <= score b).
  { assert (In m (l1' ++ b :: l2')) as Hin by (rewrite <- Heq; apply in_elt).
    apply in_app_or in Hin as [Hin|[<-|Hin]];
      [specialize (Hlt' _ Hin Hm); lia | lia | now apply Hle']. }
  assert (Hbm : score b <= score m).
  { assert (In b (l1 ++ m :: l2)) as Hin by (rewrite Heq; apply in_elt).
    apply in_app_or in Hin as [Hin|[<-|Hin]];
      [specialize (Hlt _ Hin Hb); lia | lia | now apply Hle]. }
  destruct (app_cons_cases _ _ _ _ _ _ Heq) as [H|[Hin|Hin]]; [exact H| |].
  - specialize (Hlt _ Hin Hb). lia.
  - specialize (Hlt' _ Hin Hm). lia.
Qed.

(** The state of a fuzzy loop after the candidates [l]. *)
Lemma best_fold_some l m hs :
  fold_left (best_step eligible score) l (None, 0) = (Some m, hs) <->
  hs = score m /\ 0 < score m /\
  exists l1 l2, l = l1 ++ m :: l2 /\ first_best eligible score l1 m l2.
Proof.
  pose proof (best_inv_fold eligible score l) as Inv. split.
  - intros E. rewrite E in Inv.
    destruct Inv as (Hs & Hpos & He & l1 & l2 & Hl & Hlt & Hle). cbn [fst snd] in *.
    split; [exact Hs|]. split; [exact Hpos|]. exists l1, l2. now repeat split.
  - intros (-> & Hpos & l1 & l2 & Hl & Hfb).
    destruct (fold_left _ _ _) as [[b|] hs].
    + destruct Inv as (Hs & _ & He & l1' & l2' & Hl' & Hlt & Hle).
      cbn [fst snd] in *. rewrite Hl in Hl'.
      destruct (first_best_unique _ _ _ _ _ _ Hl' Hfb) as (_ & <- & _);
        [now repeat split|]. now rewrite Hs.
    + destruct Inv as (_ & Hall). cbn [fst snd] in *.
      destruct Hfb as (He & _). specialize (Hall m). rewrite Hl in Hall.
      specialize (Hall (in_elt _ _ _) He). lia.
Qed.

Lemma best_fold_low l t :
  0 < t ->
  ((forall m, In m l -> eligible m = true -> score m < t) <->
   match fold_left (best_step eligible score) l (None, 0) with
   | (Some _, hs) => hs < t
   | (None, _) => True
   end).
Proof.
  intros Ht. pose proof (best_inv_fold eligible score l) as Inv.
  destruct (fold_left _ _ _) as [[b|] hs].
  - destruct Inv as (Hs & _ & He & l1 & l2 & -> & Hlt & Hle). cbn [fst snd] in *.
    split.
    + intros H. rewrite Hs. apply H; [apply in_elt|exact He].
    + intros Hlow m Hin Hm. apply in_app_or in Hin as [Hin|[<-|Hin]];
        [specialize (Hlt _ Hin Hm); lia | lia | specialize (Hle _ Hin Hm); lia].
  - destruct Inv as (_ & Hall). cbn [fst snd] in *. split; [auto|].
    intros _ m Hin Hm. specialize (Hall _ Hin Hm). lia.
Qed.

End FirstBest.

Section MatchersComplete.

Variable ratio : string -> string -> Z.

Lemma exact_title_year_step m movies title year original_title :
  exact_title_year (m :: movies) title year original_title =
  if exact_match title year original_title m then Some m
  else exact_title_year movies title year original_title.
Proof. reflexivity. Qed.

Lemma exact_title_year_none movies title year original_title :
  exact_title_year movies title year original_title = None <->
  forall m, In m movies -> exact_match title year original_title m = false.
Proof.
  induction movies as [|x movies IH]; [split; [intros _ ? []|reflexivity]|].
  rewrite exact_title_year_step.
  destruct (exact_match title year original_title x) eqn:Ex.
  - split; [discriminate|]. intros H. specialize (H x (or_introl eq_refl)). congruence.
  - rewrite IH. split.
    + intros H m [<-|Hin]; auto.
    + intros H m Hin. apply H. now right.
Qed.

Lemma exact_title_year_first l1 m l2 title year original_title :
  exact_match title year original_title m = true ->
  (forall m', In m' l1 -> exact_match title year original_title m' = false) ->
  exact_title_year (l1 ++ m :: l2) title year original_title = Some m.
Proof.
  intros Hm. induction l1 as [|x l1 IH]; intros Hl1; cbn [app];
    rewrite exact_title_year_step.
  - now rewrite Hm.
  - rewrite (Hl1 x (or_introl eq_refl)). apply IH. intros m' Hin. apply Hl1. now right.
Qed.

Lemma fuzzy_title_year_none movies title year original_title :
  fuzzy_title_year ratio movies title year original_title = None <->
  forall m, In m movies -> str (Plex.year m) = year ->
            current_score ratio m title original_title < TITLE_YEAR_MATCH_RATIO.
Proof.
  unfold fuzzy_title_year. rewrite title_year_fold.
  pose proof (best_fold_low (year_is year) (entry_score ratio title original_title)
                movies TITLE_YEAR_MATCH_RATIO eq_refl) as H.
  assert (Hyear : (forall m, In m movies -> str (Plex.year m) = year ->
                     current_score ratio m title original_title < TITLE_YEAR_MATCH_RATIO)
                  <-> (forall m, In m movies -> year_is year m = true ->
                         entry_score ratio title original_title m < TITLE_YEAR_MATCH_RATIO)).
  { unfold year_is, entry_score. split; intros Hall m Hin Hy; apply Hall; auto;
      now apply String.eqb_eq. }
  rewrite Hyear, H. destruct (fold_left _ _ _) as [[b|] hs]; [|tauto].
  destruct (Z.leb_spec TITLE_YEAR_MATCH_RATIO hs); split; try discriminate; auto; lia.
Qed.

End MatchersComplete.

(** X4: a movie whose title equals the title of the entry, or its
    original title, up to case, and whose year prints as the year of the
    entry is returned by the title and year tier if it is the first such
    movie of the library, whatever the similarity scores are; an entry
    whose identifier is not in the index is then matched to it under the
    method "Title + Year Fuzzy Match". *)
Theorem exact_match_wins (ratio : string -> string -> Z)
    (l1 l2 : list Movie) (m : Movie) (title year original_title : string) :
  exact_match title year original_title m = true ->
  (forall m', In m' l1 -> exact_match title year original_title m' = false) ->
  find_movie_by_title_year ratio (l1 ++ m :: l2) title year original_title = Some m /\
  forall (imdb_map : gmap string Movie) (imdb_id : string),
    imdb_map !! imdb_id = None ->
    match_cascade ratio imdb_map (l1 ++ m :: l2) imdb_id title year original_title
    = Ok (Some m, "Title + Year Fuzzy Match").
Proof.
  intros Hm Hl1.
  assert (H : find_movie_by_title_year ratio (l1 ++ m :: l2) title year
                original_title = Some m).
  { unfold find_movie_by_title_year.
    now rewrite (exact_title_year_first _ _ _ _ _ _ Hm Hl1). }
  split; [exact H|]. intros imdb_map imdb_id Hid.
  unfold match_cascade. now rewrite Hid, H.
Qed.

Lemma exact_match_wins_witness :
  exact_match "ARRIVAL" "2016" "" Demo.arrival = true /\
  find_movie_by_title_year (fun _ _ => 0) [Demo.heat; Demo.arrival; Demo.arrival_untagged]
    "ARRIVAL" "2016" "" = Some Demo.arrival.
Proof.
  split; [reflexivity|].
  refine (proj1 (exact_match_wins (fun _ _ => 0) [Demo.heat] [Demo.arrival_untagged]
                   Demo.arrival "ARRIVAL" "2016" "" eq_refl _)).
  intros m' [<-|[]]. reflexivity.
Defined.

(** X5: the title and year tier returns nothing exactly when no movie of
    the library passes the exact test and no movie whose year prints as
    the year of the entry scores 85 or more; with an empty library it
    returns nothing. *)
Theorem find_movie_by_title_year_none (ratio : string -> string -> Z)
    (movies : list Movie) (title year original_title : string) :
  find_movie_by_title_year ratio movies title year original_title = None <->
  forall m, In m movies ->
    exact_match title year original_title m = false /\
    (str (Plex.year m) = year ->
     current_score ratio m title original_title < TITLE_YEAR_MATCH_RATIO).
Proof.
  unfold find_movie_by_title_year.
  destruct (exact_title_year movies title year original_title) eqn:E.
  - split; [discriminate|]. intros H.
    assert (exact_title_year movies title year original_title = None) as E'
      by (apply exact_title_year_none; intros m' Hin; now apply H).
    congruence.
  - rewrite fuzzy_title_year_none. rewrite exact_title_year_none in E. split.
    + intros H m Hin. split; [now apply E|now apply H].
    + intros H m Hin. now apply H.
Qed.

(** X6: the title-only tier returns [m] exactly when [m] scores 90 or more
    and is the first movie of maximal score in the library: every movie
    before it scores strictly less and no movie after it scores more.  It
    returns nothing exactly when every movie scores below 90. *)
Theorem find_movie_by_title_first_best (ratio : string -> string -> Z)
    (movies : list Movie) (title original_title : string) :
  (forall m,
     find_movie_by_title ratio movies title original_title = Some m <->
     TITLE_ONLY_MATCH_RATIO <= current_score ratio m title original_title /\
     exists l1 l2, movies = l1 ++ m :: l2 /\
       (forall m', In m' l1 ->
          current_score ratio m' title original_title
          < current_score ratio m title original_title) /\
       (forall m', In m' l2 ->
          current_score ratio m' title original_title
          <= current_score ratio m title original_title)) /\
  (find_movie_by_title ratio movies title original_title = None <->
   forall m, In m movies ->
     current_score ratio m title original_title < TITLE_ONLY_MATCH_RATIO).
Proof.
  unfold find_movie_by_title. rewrite title_fold. split.
  - intros m.
    pose proof (best_fold_some (fun _ => true)
                  (entry_score ratio title original_title) movies m) as Hsome.
    unfold first_best in Hsome. unfold TITLE_ONLY_MATCH_RATIO.
    fold (entry_score ratio title original_title m). split.
    + destruct (fold_left _ _ _) as [[b|] hs]; [|discriminate].
      destruct (Z.leb_spec 90 hs); [|discriminate]. intros [= ->].
      destruct (proj1 (Hsome hs) eq_refl) as (-> & _ & l1 & l2 & Hl & _ & Hlt & Hle).
      split; [assumption|]. exists l1, l2. split; [exact Hl|].
      unfold entry_score in *. split; auto.
    + intros (H90 & l1 & l2 & Hl & Hlt & Hle).
      rewrite (proj2 (Hsome (entry_score ratio title original_title m))).
      * destruct (Z.leb_spec 90 (entry_score ratio title original_title m));
          [reflexivity|lia].
      * split; [reflexivity|]. split; [lia|]. exists l1, l2.
        split; [exact Hl|]. split; [reflexivity|].
        unfold entry_score. split; auto.
  - pose proof (best_fold_low (fun _ => true)
                  (entry_score ratio title original_title) movies
                  TITLE_ONLY_MATCH_RATIO eq_refl) as H.
    assert ((forall m, In m movies ->
               current_score ratio m title original_title < TITLE_ONLY_MATCH_RATIO)
            <-> (forall m, In m movies -> true = true ->
                   entry_score ratio title original_title m < TITLE_ONLY_MATCH_RATIO))
      as Htriv by (unfold entry_score; split; intros Hall m Hin; auto).
    rewrite Htriv, H. destruct (fold_left _ _ _) as [[b|] hs]; [|tauto].
    destruct (Z.leb_spec TITLE_ONLY_MATCH_RATIO hs); split; try discriminate; auto; lia.
Qed.

(** ** The check of the year *)

Section TitleOnly.

Variable ratio : string -> string -> Z.

(** The title-only loop proposes the first movie of maximal score when
    that score reaches the threshold. *)
Lemma find_movie_by_title_proposes l1 m l2 title original_title :
  TITLE_ONLY_MATCH_RATIO <= current_score ratio m title original_title ->
  (forall m', In m' l1 ->
     current_score ratio m' title original_title
     < current_score ratio m title original_title) ->
  (forall m', In m' l2 ->
     current_score ratio m' title original_title
     <= current_score ratio m title original_title) ->
  find_movie_by_title ratio (l1 ++ m :: l2) title original_title = Some m.
Proof.
  intros H90 Hlt Hle. unfold find_movie_by_title. rewrite title_fold.
  unfold TITLE_ONLY_MATCH_RATIO in *.
  rewrite (proj2 (best_fold_some (fun _ => true)
                    (entry_score ratio title original_title) (l1 ++ m :: l2) m
                    (entry_score ratio title original_title m))).
  - unfold entry_score.
    destruct (Z.leb_spec 90 (current_score ratio m title original_title));
      [reflexivity|lia].
  - split; [reflexivity|]. split; [unfold entry_score; lia|].
    exists l1, l2. split; [reflexivity|]. split; [reflexivity|].
    unfold entry_score. split; auto.
Qed.

End TitleOnly.

(** C6: take an entry whose identifier is not in the index and for which
    the title and year tier finds nothing, and let [m] be its best
    title-only candidate: the first movie of maximal score in the library,
    with a score of 90 or more.  The title-only tier proposes [m], and the
    cascade ends without a movie exactly when the year of the entry is not
    empty, reads as an integer and lies more than 2 away from the year of
    [m]; with an empty year the check is skipped and [m] is accepted, as it
    is when the year lies within 2.  (A year that is not empty and does
    not read as an integer makes [int] raise.) *)
Theorem title_only_veto (ratio : string -> string -> Z)
    (imdb_map : gmap string Movie) (all_movies l1 l2 : list Movie)
    (imdb_id title year original_title : string) (m : Movie) :
  imdb_map !! imdb_id = None ->
  find_movie_by_title_year ratio all_movies title year original_title = None ->
  all_movies = l1 ++ m :: l2 ->
  TITLE_ONLY_MATCH_RATIO <= current_score ratio m title original_title ->
  (forall m', In m' l1 ->
     current_score ratio m' title original_title
     < current_score ratio m title original_title) ->
  (forall m', In m' l2 ->
     current_score ratio m' title original_title
     <= current_score ratio m title original_title) ->
  let outcome :=
    match_cascade ratio imdb_map all_movies imdb_id title year original_title in
  find_movie_by_title ratio all_movies title original_title = Some m /\
  ((exists method, outcome = Ok (None, method)) <->
   year <> "" /\ exists y, int year = Some y /\ 2 < Z.abs (Plex.year m - y)) /\
  (year = "" -> outcome = Ok (Some m, "Title Only Fuzzy Match")) /\
  (forall y, int year = Some y -> Z.abs (Plex.year m - y) <= 2 ->
     outcome = Ok (Some m, "Title Only Fuzzy Match")) /\
  (year <> "" -> int year = None -> outcome = Raise ValueError).
Proof.
  intros Hid Hty Hl H90 Hlt Hle outcome.
  assert (Ht : find_movie_by_title ratio all_movies title original_title = Some m)
    by (rewrite Hl; now apply find_movie_by_title_proposes).
  subst outcome. unfold match_cascade.
  rewrite Hid, Hty, Ht. split; [reflexivity|]. split; [|split; [|split]].
  - destruct year as [|c year']; [|set (yr := String c year') in *].
    + split; [intros [? [=]] | intros [[] _]; reflexivity].
    + destruct (int yr) as [y|] eqn:Hy.
      * destruct (Z.ltb_spec 2 (Z.abs (Plex.year m - y))) as [Hv|Hv].
        -- split; [|eauto]. intros _. split; [discriminate|eauto].
        -- split; [intros [? [=]]|].
           intros [_ (y' & [= <-] & Hv')]. lia.
      * split; [intros [? [=]] | intros [_ (y' & [=] & _)]].
  - now intros ->.
  - intros y Hy Hv. destruct year; [discriminate|].
    rewrite Hy. destruct (Z.ltb_spec 2 (Z.abs (Plex.year m - y))); [lia|reflexivity].
  - intros Hne Hy. destruct year; [contradiction|]. now rewrite Hy.
Qed.

(** The library holds the film of 1984 and, after it, a film that scores
    less: the entry of 2021 is matched to the former by title and the match
    is dropped, the years being 37 apart. *)
Lemma title_only_veto_witness :
  let movies := [Demo.dune_1984; Demo.heat] in
  build_imdb_map movies !! "tt1160419" = None /\
  find_movie_by_title_year indel_ratio movies "Dune" "2021" "" = None /\
  current_score indel_ratio Demo.dune_1984 "Dune" "" = 100 /\
  current_score indel_ratio Demo.heat "Dune" "" = 25 /\
  find_movie_by_title indel_ratio movies "Dune" "" = Some Demo.dune_1984 /\
  match_cascade indel_ratio (build_imdb_map movies) movies "tt1160419" "Dune"
    "2021" "" = Ok (None, "Title Only Fuzzy Match") /\
  ("2021" <> "" /\
   exists y, int "2021" = Some y /\ 2 < Z.abs (Plex.year Demo.dune_1984 - y)).
Proof.
  intros movies.
  assert (H : forall m', In m' [Demo.heat] ->
                current_score indel_ratio m' "Dune" ""
                <= current_score indel_ratio Demo.dune_1984 "Dune" "")
    by (intros m' [<-|[]]; vm_compute; discriminate).
  split; [reflexivity|]. split; [reflexivity|]. split; [reflexivity|].
  split; [reflexivity|].
  destruct (title_only_veto indel_ratio (build_imdb_map movies) movies []
              [Demo.heat] "tt1160419" "Dune" "2021" "" Demo.dune_1984
              eq_refl eq_refl eq_refl ltac:(vm_compute; discriminate)
              ltac:(intros ? []) H) as (Ht & Hiff & _).
  split; [exact Ht|]. split; [reflexivity|].
  apply (proj1 Hiff). eexists. reflexivity.
Defined.

(** ** The two indexes *)

Lemma build_imdb_map_fold movies :
  build_imdb_map movies = fold_left imdb_map_step movies ∅.
Proof. reflexivity. Qed.

Lemma tagged_with_dec id m : tagged_with id m \/ ~ tagged_with id m.
Proof.
  unfold tagged_with. destruct (contains "imdb://" (Plex.guid m)).
  - destruct (String.eqb_spec (guid_imdb_id (Plex.guid m)) id); [now left|].
    right. now intros [_ ?].
  - right. now intros [? _].
Qed.

Lemma imdb_map_step_tagged acc m id :
  tagged_with id m -> imdb_map_step acc m !! id = Some m.
Proof.
  intros [Hc <-]. unfold imdb_map_step. rewrite Hc. apply lookup_insert_eq.
Qed.

Lemma imdb_map_step_untagged acc m id :
  ~ tagged_with id m -> imdb_map_step acc m !! id = acc !! id.
Proof.
  intros Hn. unfold imdb_map_step, tagged_with in *.
  destruct (contains "imdb://" (Plex.guid m)); [|reflexivity].
  apply lookup_insert_ne. intros E. apply Hn. now split.
Qed.

Lemma imdb_map_fold_untagged l acc id :
  (forall m, In m l -> ~ tagged_with id m) ->
  fold_left imdb_map_step l acc !! id = acc !! id.
Proof.
  revert acc. induction l as [|x l IH]; intros acc H; [reflexivity|].
  cbn [fold_left]. rewrite IH; [|intros m Hm; apply H; now right].
  apply imdb_map_step_untagged, H. now left.
Qed.

(** X7: [imdb_map] maps an identifier to the last movie of the library
    whose guid carries it, and has no entry for an identifier that no guid
    carries. *)
Theorem build_imdb_map_last (all_movies : list Movie) (id : string) :
  (forall m,
     build_imdb_map all_movies !! id = Some m <->
     exists l1 l2, all_movies = l1 ++ m :: l2 /\ tagged_with id m /\
                   forall m', In m' l2 -> ~ tagged_with id m') /\
  (build_imdb_map all_movies !! id = None <->
   forall m, In m all_movies -> ~ tagged_with id m).
Proof.
  rewrite build_imdb_map_fold. split.
  - intros m. split.
    + revert m. induction all_movies as [|x l IH] using rev_ind; intros m.
      * cbn [fold_left]. now rewrite lookup_empty.
      * rewrite fold_left_app. cbn [fold_left].
        destruct (tagged_with_dec id x) as [Hx|Hx].
        -- rewrite (imdb_map_step_tagged _ _ _ Hx). intros [= <-].
           exists l, []. split; [reflexivity|]. split; [exact Hx|]. intros ? [].
        -- rewrite (imdb_map_step_untagged _ _ _ Hx). intros H.
           destruct (IH _ H) as (l1 & l2 & -> & Hm & Hl2).
           exists l1, (l2 ++ [x]). split; [now rewrite <- app_assoc|].
           split; [exact Hm|]. intros m' Hin.
           apply in_app_or in Hin as [Hin|[<-|[]]]; auto.
    + intros (l1 & l2 & -> & Hm & Hl2).
      rewrite fold_left_app. cbn [fold_left].
      rewrite (imdb_map_fold_untagged _ _ _ Hl2).
      now apply imdb_map_step_tagged.
  - split.
    + induction all_movies as [|x l IH] using rev_ind; [intros _ ? []|].
      rewrite fold_left_app. cbn [fold_left].
      destruct (tagged_with_dec id x) as [Hx|Hx].
      * now rewrite (imdb_map_step_tagged _ _ _ Hx).
      * rewrite (imdb_map_step_untagged _ _ _ Hx). intros H m Hin.
        apply in_app_or in Hin as [Hin|[<-|[]]]; [now apply IH|exact Hx].
    + intros H. rewrite (imdb_map_fold_untagged _ _ _ H). apply lookup_empty.
Qed.

Lemma is_key_inl_existing collection_items key :
  is_key (inl key) (find_existing_collection_items collection_items) = true <->
  exists item, In item (members collection_items) /\ Plex.ratingKey item = key.
Proof.
  rewrite is_key_existing. unfold indexed_under. split.
  - intros (item & Hin & [[= ->]|[_ [=]]]). eauto.
  - intros (item & Hin & <-). exists item. split; [exact Hin|now left].
Qed.

Lemma is_key_inr_existing collection_items id :
  is_key (inr id) (find_existing_collection_items collection_items) = true <->
  exists item, In item (members collection_items) /\ tagged_with id item.
Proof.
  rewrite is_key_existing. unfold indexed_under, tagged_with. split.
  - intros (item & Hin & [[=]|[Hc [= ->]]]). eauto.
  - intros (item & Hin & Hc & <-). exists item. split; [exact Hin|]. right. auto.
Qed.

(** X8: the membership test of the first loop holds exactly when some
    member of the collection has the rating key of the matched movie, or
    some member's guid carries the identifier of the entry; a rating key
    and an identifier are never confused. *)
Theorem already_in_collection_members (collection_items : option (list Movie))
    (m : Movie) (imdb_id : string) :
  already_in_collection (find_existing_collection_items collection_items) m imdb_id
  = true <->
  (exists item, In item (members collection_items) /\
                Plex.ratingKey item = Plex.ratingKey m) \/
  (exists item, In item (members collection_items) /\ tagged_with imdb_id item).
Proof.
  unfold already_in_collection.
  now rewrite orb_true_iff, is_key_inl_existing, is_key_inr_existing.
Qed.

(** ** The report and the counters *)

Lemma count_status_app s l1 l2 :
  count_status s (l1 ++ l2) = (count_status s l1 + count_status s l2)%nat.
Proof. unfold count_status. now rewrite List.filter_app, length_app. Qed.

Lemma count_status_map s (items : list ReportItem) (statuses : list string) :
  map ri_status items = statuses ->
  count_status s items = length (List.filter (fun t => String.eqb t s) statuses).
Proof.
  intros <-. unfold count_status.
  induction items as [|x items IH]; [reflexivity|].
  cbn [map List.filter]. destruct (String.eqb (ri_status x) s); cbn [length]; lia.
Qed.

Lemma count_commit_status s (calls : list AddCall) :
  length (List.filter (fun t => String.eqb t s) (map commit_status calls)) =
  length (List.filter (fun c => String.eqb (commit_status c) s) calls).
Proof.
  induction calls as [|c calls IH]; [reflexivity|].
  cbn [map List.filter]. destruct (String.eqb (commit_status c) s); cbn [length]; lia.
Qed.

(** The records the first loop appends have the status of their verdict. *)
Lemma settled_statuses ratio all_movies imdb_map existing url_column rows vs s :
  Forall2 (fun row v => verdict ratio all_movies imdb_map existing url_column row
                        = Ok v) rows vs ->
  count_status s (map verdict_item (List.filter (fun v => negb (is_to_add v)) vs)) =
  length (List.filter (fun v => (negb (is_to_add v)
                                 && String.eqb (verdict_status_text v) s)%bool) vs).
Proof.
  unfold count_status.
  induction 1 as [|row v rows vs Hrow _ IH]; [reflexivity|].
  pose proof (verdict_status _ _ _ _ _ _ _ Hrow) as Hst.
  cbn [List.filter]. destruct (is_to_add v) eqn:Hadd; cbn [negb andb]; [exact IH|].
  cbn [map List.filter].
  assert (ri_status (verdict_item v) = verdict_status_text v) as ->
    by (rewrite Hst; now destruct v).
  destruct (String.eqb (verdict_status_text v) s); cbn [length]; lia.
Qed.

Lemma filter_same_length {A} (p q : A -> bool) (l : list A) :
  (forall x, p x = q x) -> length (List.filter p l) = length (List.filter q l).
Proof.
  intros H. induction l as [|x l IH]; [reflexivity|].
  cbn [List.filter]. rewrite H. destruct (q x); cbn [length]; lia.
Qed.

Lemma filter_none_length {A} (p : A -> bool) (l : list A) :
  (forall x, p x = false) -> length (List.filter p l) = 0%nat.
Proof.
  intros H. induction l as [|x l IH]; [reflexivity|].
  cbn [List.filter]. now rewrite H.
Qed.

(** X9: the summary agrees with the report.  When a run returns,
    [added_count] is the number of records with the status "ADDED:",
    [skipped_count] the number with "SKIPPED:", and [missing_count] the
    number with one of the three statuses "ERROR: No IMDB ID found",
    "MISSING: Not found in Plex library" and "ERROR:"; no record has
    another status. *)
Theorem counters_match_statuses (ratio : string -> string -> Z) (Service : Type)
    (requests_put : Service -> Z -> Z -> option Z * Service)
    (w : World) (svc svc' : Service) (fieldnames : list string)
    (rows : list (gmap string string)) (all_movies : list Movie)
    (out : RunOutput) :
  reads w fieldnames rows all_movies ->
  run_imdb_list ratio Service requests_put w svc = Ok (out, svc') ->
  out_added out = count_status "ADDED:" (out_report out) /\
  out_skipped out = count_status "SKIPPED:" (out_report out) /\
  out_missing out =
    (count_status "ERROR: No IMDB ID found" (out_report out)
     + count_status "MISSING: Not found in Plex library" (out_report out)
     + count_status "ERROR:" (out_report out))%nat /\
  length (out_report out) =
    (count_status "ADDED:" (out_report out)
     + count_status "SKIPPED:" (out_report out)
     + count_status "ERROR: No IMDB ID found" (out_report out)
     + count_status "MISSING: Not found in Plex library" (out_report out)
     + count_status "ERROR:" (out_report out))%nat.
Proof.
  intros Hw Hrun.
  destruct (run_imdb_list_verdicts _ _ _ _ _ _ _ _ _ _ Hw Hrun)
    as (vs & items & Hvs & Hrep & Hent & Hst & Hargs & Hadd & Hskip & Hmiss).
  assert (Hset : forall s,
             count_status s (out_report out) =
             (length (List.filter
                        (fun v => (negb (is_to_add v)
                                   && String.eqb (verdict_status_text v) s)%bool) vs)
              + length (List.filter (fun c => String.eqb (commit_status c) s)
                                    (out_calls out)))%nat).
  { intros s. rewrite Hrep, count_status_app.
    rewrite (settled_statuses _ _ _ _ _ _ _ s Hvs).
    now rewrite (count_status_map s items _ Hst), count_commit_status. }
  rewrite !Hset, Hadd, Hskip, Hmiss.
  assert (Hlen : length (out_report out) = (length (List.filter
                   (fun v => negb (is_to_add v)) vs) + length (out_calls out))%nat).
  { rewrite Hrep, length_app, length_map. f_equal.
    apply (f_equal (@length _)) in Hst. now rewrite !length_map in Hst. }
  rewrite Hlen, (verdict_partition_terminal vs).
  rewrite <- (filter_split_length call_success (out_calls out)).
  set (na s := length (List.filter
                 (fun v => (negb (is_to_add v)
                            && String.eqb (verdict_status_text v) s)%bool) vs)).
  set (nc s := length (List.filter (fun c => String.eqb (commit_status c) s)
                                   (out_calls out))).
  assert (Ha1 : na "ADDED:" = 0%nat).
  { unfold na. apply filter_none_length. now intros []. }
  assert (Ha2 : na "SKIPPED:" = length (List.filter is_already_member vs)).
  { unfold na. apply filter_same_length. now intros []. }
  assert (Ha3 : (na "ERROR: No IMDB ID found"
                 + na "MISSING: Not found in Plex library")%nat
                = length (List.filter is_unmatched vs)).
  { unfold na. clear. induction vs as [|v vs IH]; [reflexivity|].
    destruct v; cbn [List.filter is_to_add negb andb verdict_status_text
                     is_unmatched length String.eqb Ascii.eqb Bool.eqb] in *; lia. }
  assert (Ha4 : na "ERROR:" = 0%nat).
  { unfold na. apply filter_none_length. now intros []. }
  assert (Hc1 : nc "ADDED:" = length (List.filter call_success (out_calls out))).
  { unfold nc. apply filter_same_length. intros c. unfold commit_status.
    now destruct (call_success c). }
  assert (Hc2 : nc "ERROR:" = length (List.filter (fun c => negb (call_success c))
                                                  (out_calls out))).
  { unfold nc. apply filter_same_length. intros c. unfold commit_status.
    now destruct (call_success c). }
  assert (Hc3 : nc "SKIPPED:" = 0%nat /\ nc "ERROR: No IMDB ID found" = 0%nat /\
                nc "MISSING: Not found in Plex library" = 0%nat).
  { unfold nc. repeat split; apply filter_none_length;
      intros c; unfold commit_status; now destruct (call_success c). }
  destruct Hc3 as (Hc3 & Hc4 & Hc5).
  subst na nc. cbv beta in *. repeat split; lia.
Qed.

Lemma counters_match_statuses_witness :
  let rows := [Demo.row_arrival; Demo.row_arrival_no_id; Demo.row_dune_2021;
               Demo.row_heat] in
  let movies := [Demo.arrival; Demo.dune_1984; Demo.heat] in
  let w := Demo.world rows movies [] in
  exists out,
    Demo.run w [None] = Ok (out, []) /\
    map ri_status (out_report out)
    = ["ERROR: No IMDB ID found"; "MISSING: Not found in Plex library";
       "ERROR:"; "ADDED:"] /\
    out_added out = count_status "ADDED:" (out_report out) /\
    out_skipped out = count_status "SKIPPED:" (out_report out).
Proof.
  intros rows movies w.
  assert (Hw : reads w Demo.fieldnames rows movies) by (repeat split).
  eexists. split; [vm_compute; reflexivity|]. split; [reflexivity|].
  match goal with
  | |- out_added ?o = _ /\ _ =>
      destruct (counters_match_statuses indel_ratio _ scripted_put w [None] []
                  Demo.fieldnames rows movies o Hw
                  ltac:(vm_compute; reflexivity)) as (Ha & Hs & _)
  end.
  split; [exact Ha|exact Hs].
Defined.

(** ** What the cascade returns *)

Lemma imdb_map_lookup_some all_movies id m :
  build_imdb_map all_movies !! id = Some m ->
  In m all_movies /\ tagged_with id m.
Proof.
  rewrite build_imdb_map_fold.
  induction all_movies as [|x l IH] using rev_ind.
  - cbn [fold_left]. now rewrite lookup_empty.
  - rewrite fold_left_app. cbn [fold_left].
    destruct (tagged_with_dec id x) as [Hx|Hx].
    + rewrite (imdb_map_step_tagged _ _ _ Hx). intros [= <-].
      split; [apply in_or_app; right; now left|exact Hx].
    + rewrite (imdb_map_step_untagged _ _ _ Hx). intros H.
      destruct (IH H) as [Hin Ht]. split; [apply in_or_app; now left|exact Ht].
Qed.

Lemma find_movie_by_title_In ratio movies title original_title m :
  find_movie_by_title ratio movies title original_title = Some m ->
  In m movies /\
  TITLE_ONLY_MATCH_RATIO <= current_score ratio m title original_title.
Proof.
  intros H. destruct (find_movie_by_title_best _ _ _ _ _ H) as (Hs & l1 & l2 & -> & _).
  split; [apply in_elt|exact Hs].
Qed.

(** X10: whatever the cascade returns was found by one of its three tiers
    and is labelled accordingly.  A movie returned under "IMDB ID" is the
    one the index holds for the identifier; under "Title + Year Fuzzy
    Match" it is a movie of the library whose year prints as the year of
    the entry; under "Title Only Fuzzy Match" it is a movie of the library
    that scores 90 or more, and the year of the entry is empty or an
    integer at most 2 away from the year of the movie.  The two fuzzy
    labels are only used when the identifier is not in the index. *)
Theorem match_cascade_tiers (ratio : string -> string -> Z)
    (imdb_map : gmap string Movie) (all_movies : list Movie)
    (imdb_id title year original_title : string) (m : Movie) (method : string) :
  match_cascade ratio imdb_map all_movies imdb_id title year original_title
  = Ok (Some m, method) ->
  (method = "IMDB ID" /\ imdb_map !! imdb_id = Some m) \/
  (method = "Title + Year Fuzzy Match" /\ imdb_map !! imdb_id = None /\
   In m all_movies /\ str (Plex.year m) = year) \/
  (method = "Title Only Fuzzy Match" /\ imdb_map !! imdb_id = None /\
   In m all_movies /\
   TITLE_ONLY_MATCH_RATIO <= current_score ratio m title original_title /\
   (year = "" \/ exists y, int year = Some y /\ Z.abs (Plex.year m - y) <= 2)).
Proof.
  unfold match_cascade.
  destruct (imdb_map !! imdb_id) as [m0|] eqn:Hid.
  { intros [= <- <-]. now left. }
  destruct (find_movie_by_title_year _ _ _ _ _) as [m1|] eqn:Hty.
  { intros [= <- <-]. right. left.
    destruct (find_movie_by_title_year_In _ _ _ _ _ _ Hty). auto. }
  destruct (find_movie_by_title _ _ _ _) as [m2|] eqn:Ht; [|discriminate].
  destruct (find_movie_by_title_In _ _ _ _ _ Ht) as [Hin Hs].
  destruct year as [|c year'].
  { intros [= <- <-]. right. right. repeat split; auto. }
  set (yr := String c year') in *.
  destruct (int yr) as [y|] eqn:Hy; [|discriminate].
  destruct (Z.ltb_spec 2 (Z.abs (Plex.year m2 - y))); [discriminate|].
  intros [= <- <-]. right. right. repeat split; auto. right. eauto.
Qed.

Lemma match_cascade_tiers_witness :
  match_cascade indel_ratio (build_imdb_map [Demo.dune_1984]) [Demo.dune_1984]
    "tt0087182" "Dune" "1985" "" = Ok (Some Demo.dune_1984, "Title Only Fuzzy Match") /\
  (exists y, int "1985" = Some y /\ Z.abs (Plex.year Demo.dune_1984 - y) <= 2).
Proof.
  split; [reflexivity|].
  destruct (match_cascade_tiers indel_ratio (build_imdb_map [Demo.dune_1984])
              [Demo.dune_1984] "tt0087182" "Dune" "1985" "" Demo.dune_1984
              "Title Only Fuzzy Match" eq_refl)
    as [[H _]|[[H _]|(_ & _ & _ & _ & [H|H])]]; try discriminate. exact H.
Defined.

Lemma match_cascade_In ratio all_movies imdb_id title year original_title m method :
  match_cascade ratio (build_imdb_map all_movies) all_movies imdb_id title year
                original_title = Ok (Some m, method) ->
  In m all_movies.
Proof.
  unfold match_cascade.
  destruct (build_imdb_map all_movies !! imdb_id) as [m0|] eqn:Hid.
  { intros [= <- _]. now apply imdb_map_lookup_some in Hid. }
  destruct (find_movie_by_title_year _ _ _ _ _) as [m1|] eqn:Hty.
  { intros [= <- _]. now apply find_movie_by_title_year_In in Hty. }
  destruct (find_movie_by_title _ _ _ _) as [m2|] eqn:Ht; [|discriminate].
  apply find_movie_by_title_In in Ht as [Hin _].
  destruct year; [now intros [= <- _]|].
  destruct (int _); [|discriminate].
  destruct (_ <? _); [discriminate|]. now intros [= <- _].
Qed.

(** ** What a run calls *)

(** X11: every request the service receives in a run that returns is
    made for a movie of the library, with its section and its rating key,
    and that rating key is not the rating key of any member of the
    collection as it was read at the start of the run.  The requests
    received are those of the calls recorded in the output, each of which
    has the section, the rating key and the title of a movie of the
    library. *)
Theorem calls_are_for_library_movies (ratio : string -> string -> Z)
    (Service : Type) (requests_put : Service -> Z -> Z -> option Z * Service)
    (w : World) (svc svc' : Service) (fieldnames : list string)
    (rows : list (gmap string string)) (all_movies : list Movie)
    (out : RunOutput) (received : list (Z * Z)) :
  reads w fieldnames rows all_movies ->
  run_imdb_list ratio (Service * list (Z * Z)) (recording_put Service requests_put)
                w (svc, []) = Ok (out, (svc', received)) ->
  (forall library_key rating_key, In (library_key, rating_key) received ->
     exists m, In m all_movies /\
       library_key = Plex.librarySectionID m /\ rating_key = Plex.ratingKey m /\
       forall item, In item (members (collection_search w)) ->
                    Plex.ratingKey item <> rating_key) /\
  received = map call_request (map call_args (out_calls out)) /\
  (forall c, In c (out_calls out) ->
     exists m, In m all_movies /\
       call_args c = (Plex.librarySectionID m, Plex.ratingKey m, Plex.title m)) /\
  run_imdb_list ratio Service requests_put w svc = Ok (out, svc').
Proof.
  intros Hw Hrec. rewrite run_recorded in Hrec.
  destruct (run_imdb_list ratio Service requests_put w svc) as [[out0 svc0]|e]
    eqn:Hrun; [|discriminate].
  injection Hrec as -> -> <-. cbn [app].
  destruct (run_imdb_list_verdicts _ _ _ _ _ _ _ _ _ _ Hw Hrun)
    as (vs & items & Hvs & _ & _ & _ & Hargs & _).
  assert (Hcall : forall a, In a (map call_args (out_calls out)) ->
            exists m, In m all_movies /\
              a = (Plex.librarySectionID m, Plex.ratingKey m, Plex.title m) /\
              forall item, In item (members (collection_search w)) ->
                           Plex.ratingKey item <> Plex.ratingKey m).
  { intros a Ha. rewrite Hargs in Ha.
    apply in_flat_map in Ha as (v & Hv & Hin).
    destruct (Forall2_In_right _ _ _ _ Hvs Hv) as (row & _ & Hrow).
    destruct v as [? | ? | ? | m item method]; cbn [verdict_call] in Hin;
      try (destruct Hin; fail).
    destruct Hin as [<-|[]].
    apply verdict_to_add in Hrow as (imdb_id & _ & Hcas & Hnot & _).
    exists m. split; [exact (match_cascade_In _ _ _ _ _ _ _ _ Hcas)|].
    split; [reflexivity|]. intros member Hitem Hkey.
    unfold already_in_collection in Hnot. apply orb_false_iff in Hnot as [Hnot _].
    assert (is_key (inl (Plex.ratingKey m))
              (find_existing_collection_items (collection_search w)) = true) as Hk
      by (apply is_key_inl_existing; eauto).
    congruence. }
  split; [|split; [reflexivity|split; [|reflexivity]]].
  - intros library_key rating_key Hin.
    apply in_map_iff in Hin as (a & Ha & Hin).
    destruct (Hcall a Hin) as (m & Hm & -> & Hnot).
    cbn in Ha. injection Ha as <- <-. exists m. auto.
  - intros c Hc. destruct (Hcall _ (in_map call_args _ _ Hc)) as (m & Hm & Ha & _).
    eauto.
Qed.

Lemma calls_are_for_library_movies_witness :
  let rows := [Demo.row_arrival; Demo.row_heat] in
  let movies := [Demo.arrival; Demo.heat] in
  let w := Demo.world rows movies [Demo.heat] in
  exists out,
    run_imdb_list indel_ratio _ (recording_put _ scripted_put) w ([], [])
    = Ok (out, ([], [(1, 42)])) /\
    forall library_key rating_key, In (library_key, rating_key) [(1, 42)] ->
      exists m, In m movies /\ library_key = Plex.librarySectionID m /\
                rating_key = Plex.ratingKey m.
Proof.
  intros rows movies w.
  assert (Hw : reads w Demo.fieldnames rows movies) by (repeat split).
  eexists. split; [vm_compute; reflexivity|].
  intros library_key rating_key Hin.
  destruct (proj1 (calls_are_for_library_movies indel_ratio _ scripted_put w [] []
              Demo.fieldnames rows movies _ _ Hw ltac:(vm_compute; reflexivity))
              library_key rating_key Hin) as (m & Hm & Hl & Hr & _).
  exists m. auto.
Defined.

(** ** A collection that is empty or could not be read *)

Lemma verdict_never_member ratio all_movies imdb_map existing url_column row v :
  (forall k, is_key k existing = false) ->
  verdict ratio all_movies imdb_map existing url_column row = Ok v ->
  is_already_member v = false.
Proof.
  intros Hk. unfold verdict.
  destruct (find_imdb_id _) as [imdb_id|]; [|now intros [= <-]].
  destruct (match_cascade _ _ _ _ _ _ _) as [[[m|] method]|e]; cbn [bind];
    [|now intros [= <-]|discriminate].
  unfold already_in_collection. rewrite !Hk. cbn [orb]. now intros [= <-].
Qed.

Lemma cascade_request_verdict ratio all_movies existing url_column row v :
  (forall k, is_key k existing = false) ->
  verdict ratio all_movies (build_imdb_map all_movies) existing url_column row
  = Ok v ->
  map call_request (verdict_call v) = cascade_request ratio all_movies url_column row.
Proof.
  intros Hk. unfold verdict, cascade_request.
  destruct (find_imdb_id _) as [imdb_id|]; [|now intros [= <-]].
  destruct (match_cascade _ _ _ _ _ _ _) as [[[m|] method]|e]; cbn [bind];
    [|now intros [= <-]|discriminate].
  unfold already_in_collection. rewrite !Hk. cbn [orb]. now intros [= <-].
Qed.

(** X12: when the search for the members of the collection raises, or the
    collection is empty, a run that returns skips nothing: [skipped_count]
    is 0, no record has the status "SKIPPED:", and the service receives a
    request for every row the cascade matches, in the order of the rows,
    also for a movie that is in the collection already. *)
Theorem nothing_skipped_without_members (ratio : string -> string -> Z)
    (Service : Type) (requests_put : Service -> Z -> Z -> option Z * Service)
    (w : World) (svc svc' : Service) (fieldnames : list string)
    (rows : list (gmap string string)) (all_movies : list Movie)
    (out : RunOutput) (received : list (Z * Z)) :
  reads w fieldnames rows all_movies ->
  members (collection_search w) = [] ->
  run_imdb_list ratio (Service * list (Z * Z)) (recording_put Service requests_put)
                w (svc, []) = Ok (out, (svc', received)) ->
  out_skipped out = 0%nat /\
  count_status "SKIPPED:" (out_report out) = 0%nat /\
  received =
    flat_map (cascade_request ratio all_movies (choose_url_column fieldnames)) rows /\
  (length received + length (List.filter
     (row_is (run_verdict ratio w fieldnames all_movies) is_unmatched) rows))%nat
  = length rows /\
  run_imdb_list ratio Service requests_put w svc = Ok (out, svc').
Proof.
  intros Hw Hm Hrec. rewrite run_recorded in Hrec.
  destruct (run_imdb_list ratio Service requests_put w svc) as [[out0 svc0]|e]
    eqn:Hrun; [|discriminate].
  injection Hrec as -> -> <-. cbn [app].
  destruct (run_imdb_list_verdicts _ _ _ _ _ _ _ _ _ _ Hw Hrun)
    as (vs & items & Hvs & Hrep & Hent & Hst & Hargs & Hadd & Hskip & Hmiss).
  assert (Hk : forall k, is_key k (find_existing_collection_items
                                     (collection_search w)) = false).
  { intros k. destruct (is_key k _) eqn:E; [|reflexivity].
    apply is_key_existing in E as (item & Hin & _). rewrite Hm in Hin. destruct Hin. }
  assert (Hnone : length (List.filter is_already_member vs) = 0%nat).
  { clear -Hvs Hk. induction Hvs as [|row v rows vs Hrow _ IH]; [reflexivity|].
    cbn [List.filter]. now rewrite (verdict_never_member _ _ _ _ _ _ _ Hk Hrow). }
  split; [now rewrite Hskip|]. split; [|split; [|split; [|reflexivity]]].
  - rewrite Hrep, count_status_app, (settled_statuses _ _ _ _ _ _ _ _ Hvs).
    rewrite (count_status_map _ items _ Hst), count_commit_status.
    rewrite (filter_same_length _ is_already_member) by now intros [].
    rewrite Hnone. apply filter_none_length.
    intros c. unfold commit_status. now destruct (call_success c).
  - rewrite Hargs. clear -Hvs Hk.
    induction Hvs as [|row v rows vs Hrow _ IH]; [reflexivity|].
    cbn [flat_map]. rewrite map_app, IH.
    now rewrite (cascade_request_verdict _ _ _ _ _ _ Hk Hrow).
  - pose proof (verdict_partition vs) as Hp.
    pose proof (Forall2_same_length _ _ _ Hvs) as Hl.
    pose proof (Forall2_same_length _ _ _
                  (Forall2_filter_rows _ is_unmatched _ _ Hvs)) as Hu.
    assert (length (out_calls out) = length (List.filter is_to_add vs)) as Hc.
    { rewrite <- flat_calls_length, <- Hargs. now rewrite length_map. }
    rewrite !length_map. lia.
Qed.

Lemma nothing_skipped_without_members_witness :
  let rows := [Demo.row_arrival; Demo.row_dune_2021; Demo.row_heat] in
  let movies := [Demo.arrival; Demo.heat] in
  let w := {| plex_connects := true; csv_file := Some (Demo.fieldnames, rows);
              library_all := Some movies; collection_search := None |} in
  exists out,
    run_imdb_list indel_ratio _ (recording_put _ scripted_put) w ([], [])
    = Ok (out, ([], [(1, 42); (1, 8)])) /\
    map ri_status (out_report out)
    = ["MISSING: Not found in Plex library"; "ADDED:"; "ADDED:"] /\
    out_skipped out = 0%nat /\
    flat_map (cascade_request indel_ratio movies "URL") rows = [(1, 42); (1, 8)].
Proof.
  intros rows movies w.
  assert (Hw : reads w Demo.fieldnames rows movies) by (repeat split).
  eexists. split; [vm_compute; reflexivity|]. split; [reflexivity|].
  destruct (nothing_skipped_without_members indel_ratio _ scripted_put w [] []
              Demo.fieldnames rows movies _ _ Hw eq_refl
              ltac:(vm_compute; reflexivity)) as (Hs & _ & Hr & _).
  split; [exact Hs|]. symmetry. exact Hr.
Defined.

(** ** The order of the queue *)

Lemma apply_verdicts_positions vs st :
  map original_position (ordered_movies st)
  = seq 0 (length (ordered_movies st)) ->
  map original_position (ordered_movies (fold_left apply_verdict vs st))
  = seq 0 (length (ordered_movies (fold_left apply_verdict vs st))).
Proof.
  revert st. induction vs as [|v vs IH]; intros st Hst; [exact Hst|].
  cbn [fold_left]. apply IH.
  destruct v; cbn [apply_verdict ordered_movies]; try exact Hst.
  rewrite map_app, length_app, Hst. cbn [map length original_position].
  now rewrite Nat.add_1_r, seq_S.
Qed.

(** X13: when the first loop ends, the field [original_position] of every
    queued movie is its index in [ordered_movies] (it counts the queued
    movies before it, not the rows of the CSV file), and the queue holds
    one element for each row whose verdict is to add. *)
Theorem original_position_is_index (ratio : string -> string -> Z)
    (all_movies : list Movie) (imdb_map : gmap string Movie)
    (existing : gmap (Z + string) Movie) (url_column : string)
    (rows : list (gmap string string)) (st : Pass1) :
  for_each (classify_row ratio all_movies imdb_map existing url_column) rows
           pass1_start = Ok st ->
  map original_position (ordered_movies st) = seq 0 (length (ordered_movies st)) /\
  length (ordered_movies st) =
    length (List.filter
              (row_is (verdict ratio all_movies imdb_map existing url_column)
                      is_to_add) rows).
Proof.
  rewrite for_each_classify.
  destruct (verdicts _ rows) as [vs|e] eqn:Hvs; [|discriminate].
  cbn [bind]. intros [= <-]. split.
  - now apply apply_verdicts_positions.
  - destruct (apply_verdicts vs pass1_start) as (_ & Ho & _).
    apply (f_equal (@length _)) in Ho. rewrite length_map in Ho. rewrite Ho.
    cbn [pass1_start ordered_movies map app].
    apply verdicts_Forall2 in Hvs. symmetry.
    exact (Forall2_same_length _ _ _ (Forall2_filter_rows _ is_to_add _ _ Hvs)).
Qed.

Lemma original_position_is_index_witness :
  let rows := [Demo.row_arrival_no_id; Demo.row_arrival; Demo.row_dune_2021;
               Demo.row_heat] in
  let movies := [Demo.arrival; Demo.dune_1984; Demo.heat] in
  let existing : gmap (Z + string) Movie := ∅ in
  exists st,
    for_each (classify_row indel_ratio movies (build_imdb_map movies) existing
                           "URL") rows pass1_start = Ok st /\
    map (fun p => Plex.title (movie p)) (ordered_movies st) = ["Arrival"; "Heat"] /\
    map original_position (ordered_movies st) = [0; 1]%nat.
Proof.
  intros rows movies existing. eexists. split; [vm_compute; reflexivity|].
  split; [reflexivity|].
  exact (proj1 (original_position_is_index indel_ratio movies (build_imdb_map movies)
                  existing "URL" rows _ ltac:(vm_compute; reflexivity))).
Defined.

(** ** The service *)

Section ServiceFacts.

Variable ratio : string -> string -> Z.
Variable Service : Type.
Variable requests_put : Service -> Z -> Z -> option Z * Service.

Lemma commit_replay pend st :
  let st' := fold_left (commit_item Service requests_put) pend st in
  exists calls,
    p2_calls _ st' = p2_calls _ st ++ calls /\
    replay Service requests_put (p2_service _ st) (map call_args calls)
    = (map call_success calls, p2_service _ st').
Proof.
  revert st. induction pend as [|p pend IH]; intros st.
  - exists []. cbn. now rewrite app_nil_r.
  - cbn [fold_left].
    destruct (IH (commit_item Service requests_put st p)) as (calls & Hc & Hr).
    cbv zeta. rewrite Hc. clear IH Hc. revert Hr.
    unfold commit_item.
    destruct (add_collection Service requests_put (p2_service _ st)
                (Plex.librarySectionID (movie p)) (Plex.ratingKey (movie p))
                (Plex.title (movie p))) as [success svc1] eqn:Hadd.
    destruct success; cbn [p2_calls p2_service]; intros Hr;
      eexists (_ :: calls); rewrite <- app_assoc; cbn [app];
      (split; [reflexivity|]);
      cbn [map call_args call_library_key call_rating_key call_movie_title
           call_success replay]; now rewrite Hadd, Hr.
Qed.

End ServiceFacts.

(** X14: the service sees the calls recorded for a run and nothing else.
    Making the recorded calls of [add_collection] one after the other on
    the service the run started with gives the recorded results and the
    service the run ends with; a run that aborts before classifying
    leaves the service as it was. *)
Theorem service_sees_recorded_calls (ratio : string -> string -> Z)
    (Service : Type) (requests_put : Service -> Z -> Z -> option Z * Service)
    (w : World) (svc svc' : Service) (out : RunOutput) :
  run_imdb_list ratio Service requests_put w svc = Ok (out, svc') ->
  replay Service requests_put svc (map call_args (out_calls out))
  = (map call_success (out_calls out), svc') /\
  (out_calls out = [] -> svc' = svc).
Proof.
  intros Hrun.
  assert (H : replay Service requests_put svc (map call_args (out_calls out))
              = (map call_success (out_calls out), svc')).
  { revert Hrun. unfold run_imdb_list.
    destruct (plex_connects w); [|now intros [= <- <-]].
    destruct (csv_file w) as [[fieldnames rows]|]; [|now intros [= <- <-]].
    destruct (library_all w) as [all_movies|]; [|now intros [= <- <-]].
    unfold reconcile. destruct (for_each _ rows _) as [st1|e]; [|discriminate].
    cbn [bind].
    match goal with
    | |- context [fold_left (commit_item _ _) ?pend ?s] =>
        destruct (commit_replay Service requests_put pend s) as (calls & Hc & Hr)
    end.
    cbn [p2_calls p2_service app] in Hc, Hr.
    intros [= <- <-]. cbn [out_calls]. now rewrite Hc. }
  split; [exact H|]. intros Hnil. rewrite Hnil in H. cbn [map replay] in H.
  now injection H.
Qed.

Lemma service_sees_recorded_calls_witness :
  let rows := [Demo.row_arrival; Demo.row_heat] in
  let movies := [Demo.arrival; Demo.heat] in
  exists out,
    Demo.run (Demo.world rows movies []) [Some 500; Some 200; Some 404]
    = Ok (out, [Some 404]) /\
    replay _ scripted_put [Some 500; Some 200; Some 404]
           (map call_args (out_calls out))
    = ([false; true], [Some 404]).
Proof.
  intros rows movies. eexists. split; [vm_compute; reflexivity|].
  exact (proj1 (service_sees_recorded_calls indel_ratio _ scripted_put
                  (Demo.world rows movies []) [Some 500; Some 200; Some 404]
                  [Some 404] _ ltac:(vm_compute; reflexivity))).
Defined.

(** ** Rows without identifier *)

Lemma verdicts_no_identifier ratio all_movies imdb_map existing url_column rows :
  (forall row, In row rows -> find_imdb_id (row_url url_column row) = None) ->
  verdicts (verdict ratio all_movies imdb_map existing url_column) rows
  = Ok (map (fun row => NoIdentifier (no_identifier_item url_column row)) rows).
Proof.
  induction rows as [|row rows IH]; intros H; [reflexivity|].
  cbn [verdicts map]. unfold verdict at 1. rewrite (H row (or_introl eq_refl)).
  cbn [bind]. rewrite IH; [reflexivity|]. intros r Hr. apply H. now right.
Qed.

Lemma apply_no_identifier (g : gmap string string -> ReportItem) rows st :
  fold_left apply_verdict (map (fun row => NoIdentifier (g row)) rows) st =
  {| report_data := report_data st ++ map g rows;
     ordered_movies := ordered_movies st;
     skipped_count := skipped_count st;
     missing_count := (missing_count st + length rows)%nat |}.
Proof.
  revert st. induction rows as [|row rows IH]; intros st.
  - cbn. rewrite app_nil_r, Nat.add_0_r. now destruct st.
  - cbn [map fold_left]. rewrite IH.
    cbn [apply_verdict report_data ordered_movies skipped_count missing_count
         length map]. rewrite <- app_assoc. cbn [app]. f_equal. lia.
Qed.

(** X15: when no row of the CSV file has an identifier in its URL, as
    when the file has neither a [URL] nor a [url] column, the run calls
    nothing and leaves the service as it was; its report has one record
    for each row, in the order of the rows, all with the status
    "ERROR: No IMDB ID found", and [missing_count] is the number of
    rows. *)
Theorem no_identifiers_all_errors (ratio : string -> string -> Z)
    (Service : Type) (requests_put : Service -> Z -> Z -> option Z * Service)
    (w : World) (svc : Service) (fieldnames : list string)
    (rows : list (gmap string string)) (all_movies : list Movie) :
  reads w fieldnames rows all_movies ->
  (forall row, In row rows ->
     find_imdb_id (row_url (choose_url_column fieldnames) row) = None) ->
  run_imdb_list ratio Service requests_put w svc =
  Ok ({| out_report :=
           map (no_identifier_item (choose_url_column fieldnames)) rows;
         out_added := 0; out_skipped := 0; out_missing := length rows;
         out_calls := [] |}, svc).
Proof.
  intros Hw Hrows. rewrite (run_imdb_list_reads _ _ _ _ _ _ _ _ Hw).
  unfold reconcile. rewrite for_each_classify.
  rewrite (verdicts_no_identifier _ _ _ _ _ _ Hrows). cbn [bind].
  now rewrite apply_no_identifier.
Qed.

Lemma no_identifiers_all_errors_witness :
  let rows := [Demo.row_arrival; Demo.row_heat] in
  let w := {| plex_connects := true; csv_file := Some (["Title"; "Link"], rows);
              library_all := Some [Demo.arrival; Demo.heat];
              collection_search := Some [] |} in
  choose_url_column ["Title"; "Link"] = "url" /\
  exists out,
    Demo.run w [] = Ok (out, []) /\
    map ri_status (out_report out)
    = ["ERROR: No IMDB ID found"; "ERROR: No IMDB ID found"] /\
    map ri_notes (out_report out) = ["Invalid URL: "; "Invalid URL: "] /\
    out_calls out = [].
Proof.
  intros rows w. split; [reflexivity|].
  assert (Hw : reads w ["Title"; "Link"] rows [Demo.arrival; Demo.heat])
    by (repeat split).
  eexists. split.
  - refine (no_identifiers_all_errors indel_ratio _ scripted_put w []
              ["Title"; "Link"] rows [Demo.arrival; Demo.heat] Hw _).
    intros row [<-|[<-|[]]]; reflexivity.
  - repeat split.
Defined.

(** ** When a run raises *)

Lemma verdicts_raise (f : gmap string string -> result Verdict) rows :
  (exists e, verdicts f rows = Raise e) <->
  exists row, In row rows /\ exists e, f row = Raise e.
Proof.
  induction rows as [|row rows IH]; cbn [verdicts].
  - split; [intros [? [=]]|intros (? & [] & _)].
  - destruct (f row) as [v|e] eqn:Hrow; cbn [bind].
    + destruct (verdicts f rows) as [vs|e'] eqn:Hvs; cbn [bind].
      * split; [intros [? [=]]|]. intros (r & [<-|Hin] & e & Hr); [congruence|].
        destruct (proj2 IH) as [? [=]]. eauto.
      * split; [|eauto]. intros _.
        destruct (proj1 IH) as (r & Hin & Hr); [eauto|].
        exists r. split; [now right|exact Hr].
    + split; [|eauto]. intros _. exists row. split; [now left|eauto].
Qed.

Lemma verdict_raise ratio all_movies existing url_column row :
  (exists e, verdict ratio all_movies (build_imdb_map all_movies) existing
                     url_column row = Raise e) <->
  year_unreadable_at ratio all_movies url_column row.
Proof.
  unfold verdict, year_unreadable_at, match_cascade.
  destruct (find_imdb_id _) as [imdb_id|].
  2:{ split; [intros [? [=]]|intros (? & ? & [=] & _)]. }
  destruct (build_imdb_map all_movies !! imdb_id) as [m0|] eqn:Hid; cbn [bind].
  { split.
    - destruct (already_in_collection _ _ _); intros [? [=]].
    - intros (i & m & [= <-] & Hn & _). congruence. }
  destruct (find_movie_by_title_year _ _ _ _ _) as [m1|] eqn:Hty; cbn [bind].
  { split.
    - destruct (already_in_collection _ _ _); intros [? [=]].
    - intros (i & m & _ & _ & [=] & _). }
  destruct (find_movie_by_title _ _ _ _) as [m2|] eqn:Ht; cbn [bind].
  2:{ split; [intros [? [=]]|intros (? & ? & _ & _ & _ & [=] & _)]. }
  destruct (row_year row) as [|c yr] eqn:Hy; cbn [bind].
  { split.
    - destruct (already_in_collection _ _ _); intros [? [=]].
    - intros (i & m & _ & _ & _ & _ & Hne & _). now destruct Hne. }
  destruct (int (String c yr)) as [y|] eqn:Hint; cbn [bind].
  - split.
    + destruct (_ <? _); cbn [bind];
        [|destruct (already_in_collection _ _ _)]; intros [? [=]].
    + intros (i & m & _ & _ & _ & _ & _ & [=]).
  - split; [|eauto]. intros _. exists imdb_id, m2. repeat split; auto; discriminate.
Qed.

(** X16: on a CSV file whose rows are not shorter than its header, so
    that every cell the script reads is a string, a run whose reads
    succeed raises exactly when, for some row with an identifier that is
    not in the index, the title and year tier finds nothing, the
    title-only tier proposes a movie, and the year of the row is not empty
    and does not read as an integer: the exception is the [ValueError] of
    [int].  The collection and the service play no part in it. *)
Theorem run_raises_iff (ratio : string -> string -> Z) (Service : Type)
    (requests_put : Service -> Z -> Z -> option Z * Service)
    (w : World) (svc : Service) (fieldnames : list string)
    (rows : list (gmap string string)) (all_movies : list Movie) :
  reads w fieldnames rows all_movies ->
  ((exists e, run_imdb_list ratio Service requests_put w svc = Raise e) <->
   exists row, In row rows /\
     year_unreadable_at ratio all_movies (choose_url_column fieldnames) row).
Proof.
  intros Hw. rewrite (run_imdb_list_reads _ _ _ _ _ _ _ _ Hw).
  unfold reconcile. rewrite for_each_classify.
  set (f := verdict ratio all_movies (build_imdb_map all_movies)
              (find_existing_collection_items (collection_search w))
              (choose_url_column fieldnames)).
  assert (Hf : (exists e, verdicts f rows = Raise e) <->
               exists row, In row rows /\
                 year_unreadable_at ratio all_movies (choose_url_column fieldnames)
                                    row).
  { rewrite verdicts_raise. split; intros (row & Hin & H); exists row;
      (split; [exact Hin|]);
      [apply (proj1 (verdict_raise ratio all_movies _ _ row) H)
      |apply (proj2 (verdict_raise ratio all_movies _ _ row) H)]. }
  rewrite <- Hf. destruct (verdicts f rows) as [vs|e]; cbn [bind].
  - split; intros [? [=]].
  - split; eauto.
Qed.

Lemma run_raises_iff_witness :
  let row := Demo.csv_row "https://www.imdb.com/title/tt1160419/" "Dune"
                          "MMXXI" "" in
  let w := Demo.world [Demo.row_heat; row] [Demo.dune_1984; Demo.heat] [] in
  Demo.run w [] = Raise ValueError /\
  exists r, In r [Demo.row_heat; row] /\
            year_unreadable_at indel_ratio [Demo.dune_1984; Demo.heat] "URL" r.
Proof.
  intros row w. split; [reflexivity|].
  assert (Hw : reads w Demo.fieldnames [Demo.row_heat; row]
                     [Demo.dune_1984; Demo.heat]) by (repeat split).
  apply (proj1 (run_raises_iff indel_ratio _ scripted_put w [] Demo.fieldnames
                  [Demo.row_heat; row] [Demo.dune_1984; Demo.heat] Hw)).
  exists ValueError. reflexivity.
Defined.

(** ** Letter case *)

Lemma lower_empty t : lower t = "" <-> t = "".
Proof. destruct t; cbn [lower]; split; congruence. Qed.

Lemma clean_title_lower t : clean_title (Some t) = strip (replace_the (lower t)).
Proof. now destruct t. Qed.

Lemma eqb_empty_case o o' :
  lower o = lower o' -> String.eqb o "" = String.eqb o' "".
Proof.
  intros H. destruct o, o'; cbn [lower] in H; try discriminate; reflexivity.
Qed.

Lemma current_score_case ratio m t t' o o' :
  lower t = lower t' -> lower o = lower o' ->
  current_score ratio m t o = current_score ratio m t' o'.
Proof.
  intros Ht Ho. unfold current_score.
  rewrite (clean_title_lower t), (clean_title_lower t'), Ht.
  destruct o as [|a o], o' as [|a' o']; try (cbn [lower] in Ho; discriminate);
    [reflexivity|].
  now rewrite (clean_title_lower (String a o)), (clean_title_lower (String a' o')),
    Ho.
Qed.

Lemma fold_left_same {A B} (f g : A -> B -> A) (l : list B) (a : A) :
  (forall a b, f a b = g a b) -> fold_left f l a = fold_left g l a.
Proof.
  intros H. revert a. induction l as [|b l IH]; intros a; [reflexivity|].
  cbn [fold_left]. now rewrite H, IH.
Qed.

(** X17: the case of the letters in the title and in the original title
    of an entry changes nothing: both fuzzy tiers, and so the cascade,
    return the same for two entries that differ in letter case only. *)
Theorem matching_ignores_case (ratio : string -> string -> Z)
    (imdb_map : gmap string Movie) (all_movies : list Movie)
    (imdb_id year title title' original_title original_title' : string) :
  lower title = lower title' ->
  lower original_title = lower original_title' ->
  find_movie_by_title_year ratio all_movies title year original_title
  = find_movie_by_title_year ratio all_movies title' year original_title' /\
  find_movie_by_title ratio all_movies title original_title
  = find_movie_by_title ratio all_movies title' original_title' /\
  match_cascade ratio imdb_map all_movies imdb_id title year original_title
  = match_cascade ratio imdb_map all_movies imdb_id title' year original_title'.
Proof.
  intros Ht Ho.
  assert (Hexact : exact_title_year all_movies title year original_title
                   = exact_title_year all_movies title' year original_title').
  { induction all_movies as [|m l IH]; [reflexivity|].
    cbn [exact_title_year]. now rewrite Ht, Ho, (eqb_empty_case _ _ Ho), IH. }
  assert (Hty : find_movie_by_title_year ratio all_movies title year original_title
                = find_movie_by_title_year ratio all_movies title' year
                    original_title').
  { unfold find_movie_by_title_year, fuzzy_title_year. rewrite Hexact.
    rewrite (fold_left_same (title_year_step ratio title year original_title)
               (title_year_step ratio title' year original_title')); [reflexivity|].
    intros st m. unfold title_year_step.
    now rewrite (current_score_case ratio m _ _ _ _ Ht Ho). }
  assert (Hti : find_movie_by_title ratio all_movies title original_title
                = find_movie_by_title ratio all_movies title' original_title').
  { unfold find_movie_by_title.
    rewrite (fold_left_same (title_step ratio title original_title)
               (title_step ratio title' original_title')); [reflexivity|].
    intros st m. unfold title_step.
    now rewrite (current_score_case ratio m _ _ _ _ Ht Ho). }
  split; [exact Hty|]. split; [exact Hti|].
  unfold match_cascade. now rewrite Hty, Hti.
Qed.

Lemma matching_ignores_case_witness :
  lower "THE ARRIVAL" = lower "The Arrival" /\
  find_movie_by_title indel_ratio [Demo.arrival; Demo.heat] "THE ARRIVAL" ""
  = find_movie_by_title indel_ratio [Demo.arrival; Demo.heat] "The Arrival" "" /\
  find_movie_by_title indel_ratio [Demo.arrival; Demo.heat] "The Arrival" ""
  = Some Demo.arrival.
Proof.
  split; [reflexivity|]. split; [|reflexivity].
  exact (proj1 (proj2 (matching_ignores_case indel_ratio ∅ [Demo.arrival; Demo.heat]
                         "" "" "THE ARRIVAL" "The Arrival" "" "" eq_refl eq_refl))).
Defined.

(** ** A title-only match *)

(** X18: a movie matched by the title alone never has the year of the
    entry: if its year printed as the year of the entry, the title and
    year tier, whose threshold is lower, would have taken a movie
    before. *)
Theorem title_only_match_has_other_year (ratio : string -> string -> Z)
    (imdb_map : gmap string Movie) (all_movies : list Movie)
    (imdb_id title year original_title : string) (m : Movie) :
  match_cascade ratio imdb_map all_movies imdb_id title year original_title
  = Ok (Some m, "Title Only Fuzzy Match") ->
  str (Plex.year m) <> year.
Proof.
  unfold match_cascade.
  destruct (imdb_map !! imdb_id); [discriminate|].
  destruct (find_movie_by_title_year _ _ _ _ _) eqn:Hty; [discriminate|].
  destruct (find_movie_by_title _ _ _ _) as [m2|] eqn:Ht; [|discriminate].
  intros H Hyear.
  assert (m2 = m) as ->.
  { destruct year; [now injection H|]. destruct (int _); [|discriminate].
    destruct (_ <? _); [discriminate|]. now injection H. }
  apply find_movie_by_title_In in Ht as [Hin Hs].
  unfold find_movie_by_title_year in Hty.
  destruct (exact_title_year _ _ _ _); [discriminate|].
  pose proof (proj1 (fuzzy_title_year_none _ _ _ _ _) Hty m Hin Hyear) as Hlow.
  unfold TITLE_ONLY_MATCH_RATIO, TITLE_YEAR_MATCH_RATIO in *. lia.
Qed.

Lemma title_only_match_has_other_year_witness :
  match_cascade indel_ratio (build_imdb_map [Demo.dune_1984]) [Demo.dune_1984]
    "tt0087182" "Dune" "1985" "" = Ok (Some Demo.dune_1984, "Title Only Fuzzy Match") /\
  str (Plex.year Demo.dune_1984) <> "1985".
Proof.
  split; [reflexivity|].
  exact (title_only_match_has_other_year indel_ratio (build_imdb_map [Demo.dune_1984])
           [Demo.dune_1984] "tt0087182" "Dune" "1985" "" Demo.dune_1984 eq_refl).
Defined.

(** ** The records of the report *)

Lemma find_imdb_id_nonempty imdb_url id : find_imdb_id imdb_url = Some id -> id <> "".
Proof.
  induction imdb_url as [|c s IH]; [discriminate|].
  rewrite find_imdb_id_step. destruct (id_at (String c s)); [|exact IH].
  destruct (strip_prefix "tt" (String c s)); [|discriminate].
  intros [= <-]. discriminate.
Qed.

Lemma match_cascade_method ratio imdb_map all_movies imdb_id title year
    original_title m method :
  match_cascade ratio imdb_map all_movies imdb_id title year original_title
  = Ok (Some m, method) -> is_method method.
Proof.
  unfold match_cascade, is_method.
  destruct (imdb_map !! imdb_id); [intros [= _ <-]; auto|].
  destruct (find_movie_by_title_year _ _ _ _ _); [intros [= _ <-]; auto|].
  destruct (find_movie_by_title _ _ _ _); [|discriminate].
  destruct year; [intros [= _ <-]; auto|].
  destruct (int _); [|discriminate].
  destruct (_ <? _); [discriminate|]. intros [= _ <-]; auto.
Qed.

Lemma verdict_record_well_formed ratio all_movies existing url_column row v :
  verdict ratio all_movies (build_imdb_map all_movies) existing url_column row
  = Ok v ->
  match v with
  | ToAdd m item method =>
      forall success,
        record_well_formed all_movies (committed_item m item method success)
  | _ => record_well_formed all_movies (verdict_item v)
  end.
Proof.
  unfold verdict.
  destruct (find_imdb_id _) as [imdb_id|] eqn:Hid.
  2:{ intros [= <-]. left. cbn. rewrite Hid. repeat split. }
  pose proof (find_imdb_id_nonempty _ _ Hid) as Hne.
  destruct (match_cascade _ _ _ _ _ _ _) as [[[m|] method]|e] eqn:Hcas;
    cbn [bind]; [| |discriminate].
  2:{ intros [= <-]. right. left. cbn. rewrite Hid. repeat split. exact Hne. }
  pose proof (match_cascade_In _ _ _ _ _ _ _ _ Hcas) as Hin.
  pose proof (match_cascade_method _ _ _ _ _ _ _ _ _ Hcas) as Hmeth.
  destruct (already_in_collection _ _ _); intros [= <-].
  - right. right. cbn. rewrite Hid.
    split; [left; auto|]. split; [exact Hne|]. split; [exact Hmeth|]. eauto.
  - intros [|]; right; right; cbn; rewrite Hid;
      (split; [auto|]); (split; [exact Hne|]); (split; [exact Hmeth|]); eauto.
Qed.

Section ReportFacts.

Variable Service : Type.
Variable requests_put : Service -> Z -> Z -> option Z * Service.

Lemma commit_item_report st p :
  exists success,
    p2_report _ (commit_item Service requests_put st p) =
    p2_report _ st ++
    [committed_item (movie p) (report_item p) (match_method p) success].
Proof.
  unfold commit_item.
  destruct (add_collection _ _ _ _ _ _) as [[|] svc1]; cbn [p2_report];
    [exists true|exists false]; reflexivity.
Qed.

Lemma commit_fold_Forall (Q : ReportItem -> Prop) pend st :
  Forall Q (p2_report _ st) ->
  (forall p success, In p pend ->
     Q (committed_item (movie p) (report_item p) (match_method p) success)) ->
  Forall Q (p2_report _ (fold_left (commit_item Service requests_put) pend st)).
Proof.
  revert st. induction pend as [|p pend IH]; intros st Hst Hp; [exact Hst|].
  cbn [fold_left]. apply IH.
  - destruct (commit_item_report st p) as [success ->].
    apply Forall_app. split; [exact Hst|]. constructor; [|constructor].
    apply Hp. now left.
  - intros q success Hq. apply Hp. now right.
Qed.

End ReportFacts.

Lemma pending_in_verdicts vs p :
  In p (ordered_movies (fold_left apply_verdict vs pass1_start)) ->
  In (ToAdd (movie p) (report_item p) (match_method p)) vs.
Proof.
  intros Hin. apply (in_map pending_verdict) in Hin.
  destruct (apply_verdicts vs pass1_start) as (_ & Ho & _).
  cbn [pass1_start ordered_movies map app] in Ho.
  fold pass1_start in Ho. rewrite Ho in Hin.
  now apply filter_In in Hin as [Hin _].
Qed.

(** X19: every record of the report of a run has the shape of its status.
    A record "ERROR: No IMDB ID found" has no identifier, no method and no
    movie; a record "MISSING: Not found in Plex library" has an identifier
    but no method and no movie; a record "SKIPPED:", "ADDED:" or "ERROR:"
    has an identifier, one of the three methods and the title and year of a
    movie of the library, and the note "Plex API error" stands in the
    records "ERROR:" only. *)
Theorem report_records_well_formed (ratio : string -> string -> Z)
    (Service : Type) (requests_put : Service -> Z -> Z -> option Z * Service)
    (w : World) (svc svc' : Service) (fieldnames : list string)
    (rows : list (gmap string string)) (all_movies : list Movie)
    (out : RunOutput) :
  reads w fieldnames rows all_movies ->
  run_imdb_list ratio Service requests_put w svc = Ok (out, svc') ->
  Forall (record_well_formed all_movies) (out_report out).
Proof.
  intros Hw. rewrite (run_imdb_list_reads _ _ _ _ _ _ _ _ Hw).
  unfold reconcile. rewrite for_each_classify.
  destruct (verdicts _ rows) as [vs|e] eqn:Hvs; [|discriminate]. cbn [bind].
  intros [= <- _]. cbn [out_report].
  apply verdicts_Forall2 in Hvs. fold pass1_start.
  apply commit_fold_Forall; cbn [p2_report].
  - destruct (apply_verdicts vs pass1_start) as (-> & _).
    cbn [pass1_start report_data app]. apply List.Forall_forall.
    intros item Hin. apply in_map_iff in Hin as (v & <- & Hv).
    apply filter_In in Hv as [Hv Hna].
    destruct (Forall2_In_right _ _ _ _ Hvs Hv) as (row & _ & Hrow).
    apply verdict_record_well_formed in Hrow.
    destruct v; try exact Hrow. discriminate.
  - intros p success Hp. apply pending_in_verdicts in Hp.
    destruct (Forall2_In_right _ _ _ _ Hvs Hp) as (row & _ & Hrow).
    apply verdict_record_well_formed in Hrow. apply Hrow.
Qed.

Lemma report_records_well_formed_witness :
  let rows := [Demo.row_arrival; Demo.row_arrival_no_id; Demo.row_dune_2021;
               Demo.row_heat] in
  let movies := [Demo.arrival; Demo.dune_1984; Demo.heat] in
  let w := Demo.world rows movies [Demo.heat] in
  exists out,
    Demo.run w [Some 500] = Ok (out, []) /\
    map ri_status (out_report out)
    = ["ERROR: No IMDB ID found"; "MISSING: Not found in Plex library";
       "SKIPPED:"; "ERROR:"] /\
    Forall (record_well_formed movies) (out_report out).
Proof.
  intros rows movies w.
  assert (Hw : reads w Demo.fieldnames rows movies) by (repeat split).
  eexists. split; [vm_compute; reflexivity|]. split; [reflexivity|].
  exact (report_records_well_formed indel_ratio _ scripted_put w [Some 500] []
           Demo.fieldnames rows movies _ Hw ltac:(vm_compute; reflexivity)).
Defined.

(** ** The service and the classification *)

Lemma Forall2_functional {A B} (f : A -> result B) (l : list A) (l1 l2 : list B) :
  Forall2 (fun a b => f a = Ok b) l l1 ->
  Forall2 (fun a b => f a = Ok b) l l2 -> l1 = l2.
Proof.
  intros H. revert l2. induction H as [|a b l l1 Hab _ IH]; intros l2 H2.
  - now inversion H2.
  - inversion H2 as [|a' b' l' l2' Hab' H2']; subst.
    f_equal; [congruence|now apply IH].
Qed.

(** X20: what the service answers changes nothing but the outcome of the
    calls.  Two runs on the same reads, with any two services, return
    together; they skip the same number of rows, make the calls with the
    same arguments in the same order, report on the same entries in the
    same order, and agree on every record written by the first loop. *)
Theorem classification_ignores_service (ratio : string -> string -> Z)
    (Service1 Service2 : Type)
    (requests_put1 : Service1 -> Z -> Z -> option Z * Service1)
    (requests_put2 : Service2 -> Z -> Z -> option Z * Service2)
    (w : World) (svc1 svc1' : Service1) (svc2 : Service2)
    (fieldnames : list string) (rows : list (gmap string string))
    (all_movies : list Movie) (out1 : RunOutput) :
  reads w fieldnames rows all_movies ->
  run_imdb_list ratio Service1 requests_put1 w svc1 = Ok (out1, svc1') ->
  exists out2 svc2',
    run_imdb_list ratio Service2 requests_put2 w svc2 = Ok (out2, svc2') /\
    out_skipped out2 = out_skipped out1 /\
    map call_args (out_calls out2) = map call_args (out_calls out1) /\
    map item_entry (out_report out2) = map item_entry (out_report out1) /\
    firstn (length (out_report out1) - length (out_calls out1)) (out_report out2)
    = firstn (length (out_report out1) - length (out_calls out1)) (out_report out1) /\
    (out_added out2 + out_missing out2)%nat = (out_added out1 + out_missing out1)%nat.
Proof.
  intros Hw Hrun1.
  destruct (run_imdb_list_verdicts _ _ _ _ _ _ _ _ _ _ Hw Hrun1)
    as (vs & items1 & Hvs & Hrep1 & Hent1 & Hst1 & Hargs1 & Hadd1 & Hskip1 & Hmiss1).
  assert (Hret : exists out2 svc2',
             run_imdb_list ratio Service2 requests_put2 w svc2 = Ok (out2, svc2')).
  { rewrite (run_imdb_list_reads _ _ _ _ _ _ _ _ Hw).
    destruct (verdicts_total (run_verdict ratio w fieldnames all_movies) rows)
      as [vs2 Hvs2].
    - intros row Hin. destruct (Forall2_In_left _ _ _ _ Hvs Hin) as (v & _ & Hv).
      eauto.
    - exact (reconcile_returns _ _ _ _ _ _ _ _ _ Hvs2). }
  destruct Hret as (out2 & svc2' & Hrun2). exists out2, svc2'.
  split; [exact Hrun2|].
  destruct (run_imdb_list_verdicts _ _ _ _ _ _ _ _ _ _ Hw Hrun2)
    as (vs2 & items2 & Hvs2 & Hrep2 & Hent2 & Hst2 & Hargs2 & Hadd2 & Hskip2 & Hmiss2).
  assert (vs2 = vs) as -> by exact (Forall2_functional _ _ _ _ Hvs2 Hvs).
  set (settled := map verdict_item (List.filter (fun v => negb (is_to_add v)) vs)) in *.
  assert (Hl1 : length items1 = length (out_calls out1)).
  { apply (f_equal (@length _)) in Hst1. now rewrite !length_map in Hst1. }
  assert (Hk : (length (out_report out1) - length (out_calls out1))%nat
               = length settled).
  { rewrite Hrep1, length_app. lia. }
  assert (Hc : length (out_calls out2) = length (out_calls out1)).
  { apply (f_equal (@length _)) in Hargs1, Hargs2.
    rewrite length_map in Hargs1, Hargs2. congruence. }
  pose proof (filter_split_length call_success (out_calls out1)) as Hs1.
  pose proof (filter_split_length call_success (out_calls out2)) as Hs2.
  split; [congruence|]. split; [congruence|].
  split; [rewrite Hrep1, Hrep2, !map_app; congruence|].
  split; [|lia].
  rewrite Hk, Hrep1, Hrep2.
  now rewrite !firstn_app, !Nat.sub_diag, !firstn_all, !firstn_O.
Qed.

Lemma classification_ignores_service_witness :
  let rows := [Demo.row_arrival; Demo.row_arrival_no_id; Demo.row_heat] in
  let movies := [Demo.arrival; Demo.heat] in
  let w := Demo.world rows movies [] in
  exists out1 out2 : RunOutput,
    Demo.run w [Some 500; Some 500] = Ok (out1, []) /\
    run_imdb_list indel_ratio unit (fun s _ _ => (Some 200, s)) w tt = Ok (out2, tt) /\
    map ri_status (out_report out1) = ["ERROR: No IMDB ID found"; "ERROR:"; "ERROR:"] /\
    map ri_status (out_report out2) = ["ERROR: No IMDB ID found"; "ADDED:"; "ADDED:"] /\
    map call_args (out_calls out2) = map call_args (out_calls out1).
Proof.
  intros rows movies w.
  assert (Hw : reads w Demo.fieldnames rows movies) by (repeat split).
  eexists _, _. split; [vm_compute; reflexivity|].
  match goal with
  | |- ?r = Ok (?o2, tt) /\ _ =>
      assert (Hrun2 : r = Ok (o2, tt)) by (vm_compute; reflexivity)
  end.
  split; [exact Hrun2|]. split; [reflexivity|]. split; [reflexivity|].
  destruct (classification_ignores_service indel_ratio _ unit scripted_put
              (fun s _ _ => (Some 200, s)) w [Some 500; Some 500] [] tt
              Demo.fieldnames rows movies _ Hw ltac:(vm_compute; reflexivity))
    as (out2' & svc2' & Hrun2' & _ & Hargs & _).
  rewrite Hrun2 in Hrun2'. injection Hrun2' as <- _. exact Hargs.
Defined.

(** ** A larger collection *)

Lemma verdict_larger_index ratio all_movies imdb_map existing existing' url_column
    row v v' :
  (forall k, is_key k existing = true -> is_key k existing' = true) ->
  verdict ratio all_movies imdb_map existing url_column row = Ok v ->
  verdict ratio all_movies imdb_map existing' url_column row = Ok v' ->
  (is_to_add v' = true -> v = v') /\
  (is_already_member v = true -> is_already_member v' = true).
Proof.
  intros Hk. unfold verdict.
  destruct (find_imdb_id _) as [imdb_id|]; [|intros [= <-] [= <-]; now split].
  destruct (match_cascade _ _ _ _ _ _ _) as [[[m|] method]|e]; cbn [bind];
    [|intros [= <-] [= <-]; now split|discriminate].
  destruct (already_in_collection existing' m imdb_id) eqn:E'.
  - destruct (already_in_collection existing m imdb_id);
      intros [= <-] [= <-]; split; auto; discriminate.
  - rewrite (already_in_collection_mono _ _ _ _ Hk E').
    intros [= <-] [= <-]. split; auto.
Qed.

Lemma larger_index_calls (f f' : gmap string string -> result Verdict) rows vs vs' :
  (forall row v v', f row = Ok v -> f' row = Ok v' ->
     (is_to_add v' = true -> v = v') /\
     (is_already_member v = true -> is_already_member v' = true)) ->
  Forall2 (fun row v => f row = Ok v) rows vs ->
  Forall2 (fun row v => f' row = Ok v) rows vs' ->
  (length (List.filter is_to_add vs') <= length (List.filter is_to_add vs))%nat /\
  (length (List.filter is_already_member vs)
   <= length (List.filter is_already_member vs'))%nat /\
  incl (flat_map verdict_call vs') (flat_map verdict_call vs).
Proof.
  intros Hf H. revert vs'. induction H as [|row v rows vs Hrow _ IH]; intros vs' H'.
  - inversion H'. repeat split; auto. intros ? [].
  - inversion H' as [|row' v' rows' vs2 Hrow' H2]; subst.
    destruct (IH _ H2) as (Ha & Hs & Hi).
    destruct (Hf _ _ _ Hrow Hrow') as [Hadd Hmem].
    cbn [List.filter flat_map]. split; [|split].
    + destruct (is_to_add v') eqn:E'.
      * rewrite (Hadd eq_refl), E'. cbn [length]. lia.
      * destruct (is_to_add v); cbn [length]; lia.
    + destruct (is_already_member v) eqn:E.
      * rewrite (Hmem eq_refl). cbn [length]. lia.
      * destruct (is_already_member v'); cbn [length]; lia.
    + intros c Hc. apply in_app_or in Hc as [Hc|Hc]; apply in_or_app.
      * left. destruct (is_to_add v') eqn:E'.
        -- now rewrite (Hadd eq_refl).
        -- destruct v'; try discriminate; destruct Hc.
      * right. now apply Hi.
Qed.

(** X21: a larger collection never leads to more calls.  Of two runs on
    the same rows and library, the second with a collection that holds
    every member of the first, the second skips at least as many rows,
    makes at most as many calls of [add_collection], and makes no call
    that the first does not make. *)
Theorem larger_collection_fewer_calls (ratio : string -> string -> Z)
    (Service : Type) (requests_put : Service -> Z -> Z -> option Z * Service)
    (w1 w2 : World) (svc1 svc2 svc1' svc2' : Service) (fieldnames : list string)
    (rows : list (gmap string string)) (all_movies : list Movie)
    (out1 out2 : RunOutput) :
  reads w1 fieldnames rows all_movies ->
  reads w2 fieldnames rows all_movies ->
  (forall item, In item (members (collection_search w1)) ->
                In item (members (collection_search w2))) ->
  run_imdb_list ratio Service requests_put w1 svc1 = Ok (out1, svc1') ->
  run_imdb_list ratio Service requests_put w2 svc2 = Ok (out2, svc2') ->
  (out_skipped out1 <= out_skipped out2)%nat /\
  (length (out_calls out2) <= length (out_calls out1))%nat /\
  incl (map call_args (out_calls out2)) (map call_args (out_calls out1)).
Proof.
  intros Hw1 Hw2 Hsub Hrun1 Hrun2.
  destruct (run_imdb_list_verdicts _ _ _ _ _ _ _ _ _ _ Hw1 Hrun1)
    as (vs1 & items1 & Hvs1 & _ & _ & _ & Hargs1 & _ & Hskip1 & _).
  destruct (run_imdb_list_verdicts _ _ _ _ _ _ _ _ _ _ Hw2 Hrun2)
    as (vs2 & items2 & Hvs2 & _ & _ & _ & Hargs2 & _ & Hskip2 & _).
  assert (Hk : forall k,
             is_key k (find_existing_collection_items (collection_search w1)) = true ->
             is_key k (find_existing_collection_items (collection_search w2)) = true).
  { intros k. rewrite !is_key_existing. intros (item & Hin & Hu).
    exists item. split; [now apply Hsub|exact Hu]. }
  destruct (larger_index_calls _ _ rows vs1 vs2
              (fun row v v' => verdict_larger_index _ _ _ _ _ _ row v v' Hk)
              Hvs1 Hvs2) as (Ha & Hs & Hi).
  split; [lia|]. split.
  - apply (f_equal (@length _)) in Hargs1, Hargs2.
    rewrite length_map, flat_calls_length in Hargs1, Hargs2. lia.
  - now rewrite Hargs1, Hargs2.
Qed.

Lemma larger_collection_fewer_calls_witness :
  let rows := [Demo.row_arrival; Demo.row_heat] in
  let movies := [Demo.arrival; Demo.heat] in
  let w1 := Demo.world rows movies [] in
  let w2 := Demo.world rows movies [Demo.arrival] in
  exists out1 out2,
    Demo.run w1 [] = Ok (out1, []) /\ Demo.run w2 [] = Ok (out2, []) /\
    map call_args (out_calls out1) = [(1, 42, "Arrival"); (1, 8, "Heat")] /\
    map call_args (out_calls out2) = [(1, 8, "Heat")] /\
    (length (out_calls out2) <= length (out_calls out1))%nat.
Proof.
  intros rows movies w1 w2.
  assert (Hw1 : reads w1 Demo.fieldnames rows movies) by (repeat split).
  assert (Hw2 : reads w2 Demo.fieldnames rows movies) by (repeat split).
  eexists _, _. split; [vm_compute; reflexivity|].
  split; [vm_compute; reflexivity|]. split; [reflexivity|]. split; [reflexivity|].
  refine (proj1 (proj2 (larger_collection_fewer_calls indel_ratio _ scripted_put
                          w1 w2 [] [] [] [] Demo.fieldnames rows movies _ _
                          Hw1 Hw2 _ ltac:(vm_compute; reflexivity)
                          ltac:(vm_compute; reflexivity)))).
  intros item [].
Defined.

(** ** The definitions on concrete inputs *)

Example clean_title_the_batman : clean_title (Some "The Batman ") = "batman".
Proof. reflexivity. Qed.

Example clean_title_interior : clean_title (Some "Breathe Again") = "breaagain".
Proof. reflexivity. Qed.

Example clean_title_leading_space : clean_title (Some "  Heat") = "heat".
Proof. reflexivity. Qed.

Example find_imdb_id_title_url :
  find_imdb_id "https://www.imdb.com/title/tt2543164/?ref_=ls" = Some "tt2543164".
Proof. reflexivity. Qed.

Example find_imdb_id_leftmost : find_imdb_id "ttt12x tt999" = Some "tt12".
Proof. reflexivity. Qed.

Example find_imdb_id_list_url :
  find_imdb_id "https://www.imdb.com/list/ls569744078/" = None.
Proof. reflexivity. Qed.

Example guid_imdb_id_agent :
  guid_imdb_id "com.plexapp.agents.imdb://tt0113277?lang=en" = "tt0113277".
Proof. reflexivity. Qed.

Example int_examples :
  int " 2016 " = Some 2016 /\ int "-3" = Some (-3) /\ int "1_000" = Some 1000 /\
  int "" = None /\ int "20a" = None /\ int "MMXXI" = None.
Proof. repeat split. Qed.

(** The separator 0x1c is whitespace for [strip] and not for [int]; the
    vertical tab is whitespace for both. *)
Example int_whitespace :
  let fs := ascii_of_nat 28 in
  let vt := ascii_of_nat 11 in
  strip (String fs "1985") = "1985" /\ int (String fs "1985") = None /\
  int ("1985" +:+ String fs "") = None /\ int (String vt "1985 ") = Some 1985 /\
  int "+ 5" = None /\ int "+5" = Some 5 /\ int "1__0" = None /\ int "_1" = None /\
  int "007" = Some 7 /\ int "-" = None.
Proof. repeat split. Qed.

Example str_examples : str 2016 = "2016" /\ str 0 = "0" /\ str (-12) = "-12".
Proof. repeat split. Qed.

Example indel_ratio_examples :
  indel_ratio "arrival" "arrival" = 100 /\ indel_ratio "dune" "heat" = 25 /\
  indel_ratio "abc" "xyz" = 0 /\ indel_ratio "" "" = 0.
Proof. repeat split. Qed.

(** A year that is not a number aborts the run, when the title-only tier
    proposes a movie. *)
Example run_raises_on_unreadable_year :
  Demo.run
    (Demo.world [Demo.csv_row "https://www.imdb.com/title/tt1160419/" "Dune"
                              "MMXXI" ""]
                [Demo.dune_1984] []) []
  = Raise ValueError.
Proof. reflexivity. Qed.

(** The membership index of the examples: rating keys and identifiers. *)
Example index_example :
  let d := find_existing_collection_items (Some [Demo.heat; Demo.dune_1984]) in
  is_key (inl 8) d = true /\ is_key (inr "tt0113277") d = true /\
  is_key (inl 7) d = true /\ is_key (inr "tt1160419") d = false /\
  is_key (inl 42) d = false.
Proof. repeat split. Qed.
